(** * yishe-videos: the FFmpeg compose command builder and two HTTP handlers

    A shallow embedding of
      - [composeVideo] (lib/ffmpeg.js): the builder of the ffmpeg argument
        list and of its [-filter_complex] graph, up to the call of the
        encoder,
      - the [/api/compose] and [/api/files/delete] handlers (server.js),
      - the [/api/files/list] and [/api/files/clear] handlers and the
        extension [downloadFromUrl] gives a download (server.js),
        [getFFmpegPath] (lib/ffmpeg.js), [detectResourceType] and
        [removeResource] of the page (public/app.js),
    followed by the properties the specification states about them, and
    by further properties of the code.

    Conventions of the model.
      - JavaScript strings are [string]s; template literals and [+=] are
        [+:+].  White space is the ASCII white space.
      - The numbers that reach the builder come from JSON, hence are finite
        decimals: [dec] is a mantissa and a decimal scale, with exact
        arithmetic, printed in plain decimal notation (JavaScript rounds to
        a double, and prints very large and very small numbers with an
        exponent).  The one operation that leaves the decimals,
        [rotation * Math.PI / 180], is a parameter of the development
        ([to_radians]).
      - An [undefined] field is [None]; [x || d] and [x !== undefined ? x : d]
        are [num_or], [str_or] and [num_default].
      - A [throw] is the [Throw] result; the file system and the [path]
        module that [composeVideo] calls are a [Host]; the disk of the
        handlers is a finite map from paths to [File] or [Dir], and
        [path.join] is the POSIX one. *)

From Stdlib Require Import ZArith NArith List Ascii String Lia Bool.
From stdpp Require Import base tactics option list strings pretty gmap.

Local Open Scope string_scope.
Local Open Scope list_scope.

(** ** Strings *)

Module Str.

(** [Array.prototype.join] *)
Fixpoint join (sep : string) (l : list string) : string :=
  match l with
  | [] => ""
  | [x] => x
  | x :: t => x +:+ sep +:+ join sep t
  end.

(** Concatenation of all elements: [join('')]. *)
Fixpoint concat (l : list string) : string :=
  match l with
  | [] => ""
  | x :: t => x +:+ concat t
  end.

(** [String.prototype.startsWith] *)
Fixpoint startsWith (s p : string) {struct p} : bool :=
  match p, s with
  | EmptyString, _ => true
  | String _ _, EmptyString => false
  | String a p', String b s' => if Ascii.eqb a b then startsWith s' p' else false
  end.

Fixpoint drop (n : nat) (s : string) : string :=
  match n, s with
  | O, _ => s
  | S _, EmptyString => ""
  | S n', String _ s' => drop n' s'
  end.

(** [String.prototype.endsWith] *)
Definition endsWith (s p : string) : bool :=
  if Nat.leb (String.length p) (String.length s)
  then String.eqb (drop (String.length s - String.length p) s) p
  else false.

(** [String.prototype.includes] *)
Fixpoint includes (s p : string) : bool :=
  if startsWith s p then true
  else match s with
       | EmptyString => false
       | String _ s' => includes s' p
       end.

(** [String.prototype.replace] with a string pattern: the first
    occurrence only. *)
Fixpoint replace (s pat rep : string) : string :=
  if startsWith s pat then rep +:+ drop (String.length pat) s
  else match s with
       | EmptyString => ""
       | String c s' => String c (replace s' pat rep)
       end.

(** [String.prototype.split] with a one-character separator. *)
Fixpoint split (sep : ascii) (s : string) : list string :=
  match s with
  | EmptyString => [""]
  | String c s' =>
      if Ascii.eqb c sep then "" :: split sep s'
      else match split sep s' with
           | [] => [String c ""]
           | x :: t => String c x :: t
           end
  end.

(** White space of [String.prototype.trim], on the ASCII range; the
    no-break space and the other white space beyond ASCII is not removed
    here. *)
Definition is_space (c : ascii) : bool :=
  let n := nat_of_ascii c in
  (Nat.leb 9 n && Nat.leb n 13) || Nat.eqb n 32.

Fixpoint trimStart (s : string) : string :=
  match s with
  | EmptyString => ""
  | String c s' => if is_space c then trimStart s' else s
  end.

Fixpoint trimEnd (s : string) : string :=
  match s with
  | EmptyString => ""
  | String c s' =>
      match trimEnd s' with
      | EmptyString => if is_space c then "" else String c ""
      | t => String c t
      end
  end.

Definition trim (s : string) : string := trimEnd (trimStart s).

(** The number of positions of [s] at which [pat] starts. *)
Fixpoint count (s pat : string) : nat :=
  (if startsWith s pat then 1 else 0)
  + match s with
    | EmptyString => 0
    | String _ s' => count s' pat
    end.

(** Every character satisfies [f]. *)
Fixpoint all (f : ascii -> bool) (s : string) : bool :=
  match s with
  | EmptyString => true
  | String c s' => f c && all f s'
  end.

Definition truthy (s : string) : bool :=
  match s with EmptyString => false | _ => true end.

End Str.

(** ** Numbers *)

(** [dmant * 10 ^ (- dscale)] *)
Record dec : Type := mkDec { dmant : Z; dscale : nat }.

Module Dec.

Definition of_Z (z : Z) : dec := mkDec z 0.
Definition of_nat (n : nat) : dec := mkDec (Z.of_nat n) 0.

Definition pow10 (n : nat) : Z := (10 ^ Z.of_nat n)%Z.

(** Both mantissas on the common scale [dscale a + dscale b]. *)
Definition lhs (a b : dec) : Z := (dmant a * pow10 (dscale b))%Z.
Definition rhs (a b : dec) : Z := (dmant b * pow10 (dscale a))%Z.

Definition ltb (a b : dec) : bool := (lhs a b <? rhs a b)%Z.
Definition leb (a b : dec) : bool := (lhs a b <=? rhs a b)%Z.
Definition eqb (a b : dec) : bool := (lhs a b =? rhs a b)%Z.

(** [a - b], exactly.  JavaScript rounds the difference of the two
    doubles, so that the texts agree where that difference is exact, as
    in [3 - 0.5], and not in general ([0.3 - 0.1]). *)
Definition sub (a b : dec) : dec :=
  mkDec (lhs a b - rhs a b) (dscale a + dscale b).

(** [x / 100], exactly; JavaScript rounds the quotient to a double. *)
Definition div100 (a : dec) : dec := mkDec (dmant a) (dscale a + 2).

(** [Math.max(0, x)] *)
Definition max0 (a : dec) : dec := if (dmant a <? 0)%Z then of_Z 0 else a.

(** JavaScript truthiness of a number: not zero. *)
Definition truthy (a : dec) : bool := negb (dmant a =? 0)%Z.

(** [x > 0] *)
Definition pos (a : dec) : bool := (0 <? dmant a)%Z.

Fixpoint strip_zeros (s : nat) (m : N) : N * nat :=
  match s with
  | O => (m, O)
  | S s' => if (m mod 10 =? 0)%N then strip_zeros s' (m / 10)%N else (m, s)
  end.

Fixpoint zeros (n : nat) : string :=
  match n with O => "" | S n' => String "0" (zeros n') end.

Definition pad (w : nat) (s : string) : string :=
  zeros (w - String.length s) +:+ s.

(** [String(x)] and [`${x}`], in plain decimal notation: the text of
    JavaScript for the numbers of [plainNumber] below. *)
Definition to_string (d : dec) : string :=
  let '(m, s) := strip_zeros (dscale d) (Z.abs_N (dmant d)) in
  let sign := if (dmant d <? 0)%Z then "-" else "" in
  let p := (10 ^ N.of_nat s)%N in
  sign +:+ pretty (m / p)%N +:+
  match s with
  | O => ""
  | S _ => "." +:+ pad s (pretty (m mod p)%N)
  end.

End Dec.

(** [x || d] for an optional number. *)
Definition num_or (x : option dec) (d : dec) : dec :=
  match x with
  | Some v => if Dec.truthy v then v else d
  | None => d
  end.

(** [x !== undefined ? x : d] *)
Definition num_default (x : option dec) (d : dec) : dec :=
  match x with Some v => v | None => d end.

(** [x || d] for an optional string. *)
Definition str_or (x : option string) (d : string) : string :=
  match x with
  | Some v => if Str.truthy v then v else d
  | None => d
  end.

(** [x !== undefined && x > 0] *)
Definition defined_pos (x : option dec) : bool :=
  match x with Some v => Dec.pos v | None => false end.

(** [parseInt(s)] without a radix: leading white space, an optional sign,
    then hexadecimal digits after [0x]/[0X], decimal digits otherwise.
    [None] is [NaN]. *)
Module ParseInt.

Definition digit (hex : bool) (c : ascii) : option N :=
  let n := N_of_ascii c in
  if (48 <=? n)%N && (n <=? 57)%N then Some (n - 48)%N
  else if hex && (97 <=? n)%N && (n <=? 102)%N then Some (n - 87)%N
  else if hex && (65 <=? n)%N && (n <=? 70)%N then Some (n - 55)%N
  else None.

Fixpoint digits (hex : bool) (s : string) (acc : option N) : option N :=
  match s with
  | EmptyString => acc
  | String c s' =>
      match digit hex c with
      | Some d =>
          let base := if hex then 16%N else 10%N in
          digits hex s' (Some (match acc with Some a => a * base + d | None => d end)%N)
      | None => acc
      end
  end.

Definition unsigned (s : string) : option N :=
  match s with
  | String "0" (String "x" r) | String "0" (String "X" r) => digits true r None
  | _ => digits false s None
  end.

Definition parseInt (s : string) : option Z :=
  match Str.trimStart s with
  | String "-" r => (fun n => (- Z.of_N n)%Z) <$> unsigned r
  | String "+" r => Z.of_N <$> unsigned r
  | r => Z.of_N <$> unsigned r
  end.

End ParseInt.

(** [parseInt(s) || d]; the digits are read exactly, as JavaScript does up
    to [Number.MAX_SAFE_INTEGER]. *)
Definition parseInt_or (s : string) (d : dec) : dec :=
  match ParseInt.parseInt s with
  | Some z => if (z =? 0)%Z then d else Dec.of_Z z
  | None => d
  end.

(** ** The compose builder (lib/ffmpeg.js, [composeVideo]) *)

Inductive result (A : Type) : Type :=
| OK (a : A)
| Throw (e : string).
Arguments OK {A} a.
Arguments Throw {A} e.

(** Sequencing: a [throw] leaves the function. Written [x ← r; k]. *)
Global Instance result_bind : MBind result := fun A B k r =>
  match r with
  | OK a => k a
  | Throw e => Throw e
  end.

(** The messages of the [throw]s, by name. *)
Module Err.
Definition mkdirFailed := "mkdirSync".
Definition notWritable := "output directory not writable".
Definition emptyResources := "resource list must not be empty".
Definition inputMissing := "input file does not exist".
Definition noVisual := "at least one image or video resource is required".
Definition imageMissing := "image file does not exist".
End Err.

(** One entry of [resources]. *)
Record resource : Type := mkResource {
  type : string;
  path : string;
  duration : option dec;
  startTime : option dec;
  transition : option string;
  transitionDuration : option dec;
  position : option string;
  scaleMode : option string;
  rotation : option dec;
  opacity : option dec;
  fade : option string;
  fadeDuration : option dec;
  volume : option dec
}.

(** The [options] argument. *)
Record options : Type := mkOptions {
  width : option dec;
  height : option dec;
  resolution : option string;
  fps : option dec;
  videoCodec : option string;
  videoPreset : option string;
  videoCrf : option dec;
  videoBitrate : option string;
  audioCodec : option string;
  audioBitrate : option string;
  audioSampleRate : option dec;
  audioChannels : option dec;
  backgroundColor : option string
}.

(** Entries of [videoInputs] and [audioInputs]. *)
Record videoInput : Type := mkVideoInput { index : nat; vduration : option dec }.
Record audioInput : Type := mkAudioInput { aindex : nat; filterIndex : option nat }.

(** The local variables the three [forEach] loops update. *)
Record build : Type := mkBuild {
  args : list string;
  filterComplex : list string;
  inputIndex : nat;
  videoInputs : list videoInput;
  audioInputs : list audioInput
}.

Definition d0_5 : dec := mkDec 5 1.
Definition d1_0 : dec := mkDec 10 1.
Definition d1_5 : dec := mkDec 15 1.
Definition d100 : dec := Dec.of_Z 100.

(** [options.resolution.split('x')], then [parseInt] of both parts. *)
Definition resolvedWidth (o : options) : dec :=
  let w := num_or (width o) (Dec.of_Z 1280) in
  match resolution o with
  | Some r =>
      if Str.truthy r then
        match Str.split "x" r with
        | [p0; p1] => parseInt_or p0 w
        | _ => w
        end
      else w
  | None => w
  end.

Definition resolvedHeight (o : options) : dec :=
  let h := num_or (height o) (Dec.of_Z 720) in
  match resolution o with
  | Some r =>
      if Str.truthy r then
        match Str.split "x" r with
        | [p0; p1] => parseInt_or p1 h
        | _ => h
        end
      else h
  | None => h
  end.

(** [backgroundColor.replace('#', '0x')] *)
Definition bgColorHex (o : options) : string :=
  Str.replace (str_or (backgroundColor o) "#000000") "#" "0x".

(** The file system and the process, as far as [composeVideo] uses them:
    [fs.existsSync], [fs.mkdirSync], [fs.writeFileSync], [fs.unlinkSync]
    ([None] when the call throws), [path.resolve], [path.dirname] and
    [path.join]. *)
Record Host : Type := mkHost {
  FS : Type;
  existsSync : FS -> string -> bool;
  mkdirSync : FS -> string -> option FS;
  writeFileSync : FS -> string -> option FS;
  unlinkSync : FS -> string -> option FS;
  path_resolve : string -> string;
  path_dirname : string -> string;
  path_join : string -> string -> string
}.

(** [padX] and [padY] of a position. *)
Definition padOffsets (position : string) : string * string :=
  if String.eqb position "top-left" then ("0", "0")
  else if String.eqb position "top-right" then ("ow-iw", "0")
  else if String.eqb position "bottom-left" then ("0", "oh-ih")
  else if String.eqb position "bottom-right" then ("ow-iw", "oh-ih")
  else ("(ow-iw)/2", "(oh-ih)/2").

Section Builder.

(** [x => x * Math.PI / 180], a floating point computation. *)
Variable to_radians : dec -> dec.

(** The resolved options, as the closures of [composeVideo] see them. *)
Variable o : options.

Let widthN := resolvedWidth o.
Let heightN := resolvedHeight o.
Let bg := bgColorHex o.
Let fpsN := num_or (fps o) (Dec.of_Z 25).

Definition buildScaleAndPositionFilter
    (inputLabel : string) (r : resource) (targetWidth targetHeight : dec) : string :=
  let scaleMode := str_or (scaleMode r) "fit" in
  let position := str_or (position r) "center" in
  let rotation := num_or (rotation r) (Dec.of_Z 0) in
  let opacity := num_default (opacity r) d100 in
  let tw := Dec.to_string targetWidth in
  let th := Dec.to_string targetHeight in
  let filter := inputLabel in
  let filter :=
    if String.eqb scaleMode "fit" then
      filter +:+ "scale=" +:+ tw +:+ ":" +:+ th +:+ ":force_original_aspect_ratio=decrease"
    else if String.eqb scaleMode "fill" then
      filter +:+ "scale=" +:+ tw +:+ ":" +:+ th +:+ ":force_original_aspect_ratio=increase"
    else if String.eqb scaleMode "crop" then
      filter +:+ "scale=" +:+ tw +:+ ":" +:+ th +:+ ":force_original_aspect_ratio=increase,crop="
             +:+ tw +:+ ":" +:+ th
    else
      filter +:+ "scale=" +:+ tw +:+ ":" +:+ th +:+ ":force_original_aspect_ratio=decrease" in
  let padX := fst (padOffsets position) in
  let padY := snd (padOffsets position) in
  let filter :=
    filter +:+ ",pad=" +:+ tw +:+ ":" +:+ th +:+ ":" +:+ padX +:+ ":" +:+ padY
           +:+ ":color=" +:+ bg in
  let filter :=
    if Dec.truthy rotation then
      filter +:+ ",rotate=" +:+ Dec.to_string (to_radians rotation) +:+ ":fillcolor=" +:+ bg
             +:+ ":ow=" +:+ tw +:+ ":oh=" +:+ th
    else filter in
  let filter :=
    if Dec.ltb opacity d100 then
      filter +:+ ",format=yuva420p,colorchannelmixer=aa=" +:+ Dec.to_string (Dec.div100 opacity)
    else filter in
  filter.

Definition repad : string :=
  ",pad=" +:+ Dec.to_string widthN +:+ ":" +:+ Dec.to_string heightN
          +:+ ":(ow-iw)/2:(oh-ih)/2:color=" +:+ bg.

Definition scaleExpr (scaleStart scaleEnd transitionDuration : dec) : string :=
  Dec.to_string scaleStart +:+ "+(" +:+ Dec.to_string scaleEnd +:+ "-"
    +:+ Dec.to_string scaleStart +:+ ")*min(1,t/" +:+ Dec.to_string transitionDuration +:+ ")".

Definition buildTransitionFilter
    (transition : string) (transitionDuration totalDuration currentWidth currentHeight : dec)
    : string :=
  let td := Dec.to_string transitionDuration in
  let cw := Dec.to_string currentWidth in
  let ch := Dec.to_string currentHeight in
  let filter := "" in
  if String.eqb transition "none" then filter
  else
    let filter :=
      if String.eqb transition "fade" || String.eqb transition "fadein" then
        filter +:+ ",fade=t=in:st=0:d=" +:+ td
      else filter in
    let filter :=
      if String.eqb transition "fade" || String.eqb transition "fadeout" then
        let fadeOutStart := Dec.max0 (Dec.sub totalDuration transitionDuration) in
        filter +:+ ",fade=t=out:st=" +:+ Dec.to_string fadeOutStart +:+ ":d=" +:+ td
      else filter in
    let filter :=
      if String.eqb transition "slideLeft" then
        let xExpr := "-" +:+ cw +:+ "*(1-t/" +:+ td +:+ ")" in
        filter +:+ ",crop=" +:+ cw +:+ ":" +:+ ch +:+ ":max(0," +:+ xExpr +:+ "):0" +:+ repad
      else if String.eqb transition "slideRight" then
        let xExpr := cw +:+ "*(1-t/" +:+ td +:+ ")" in
        filter +:+ ",crop=" +:+ cw +:+ ":" +:+ ch +:+ ":min(iw-" +:+ cw +:+ "," +:+ xExpr
               +:+ "):0" +:+ repad
      else if String.eqb transition "slideUp" then
        let yExpr := ch +:+ "*(1-t/" +:+ td +:+ ")" in
        filter +:+ ",crop=" +:+ cw +:+ ":" +:+ ch +:+ ":0:min(ih-" +:+ ch +:+ "," +:+ yExpr
               +:+ ")" +:+ repad
      else if String.eqb transition "slideDown" then
        let yExpr := "-" +:+ ch +:+ "*(1-t/" +:+ td +:+ ")" in
        filter +:+ ",crop=" +:+ cw +:+ ":" +:+ ch +:+ ":0:max(0," +:+ yExpr +:+ ")" +:+ repad
      else filter in
    let filter :=
      if String.eqb transition "zoomIn" then
        let e := scaleExpr d0_5 d1_0 transitionDuration in
        filter +:+ ",scale=iw*" +:+ e +:+ ":ih*" +:+ e +:+ repad
      else if String.eqb transition "zoomOut" then
        let e := scaleExpr d1_5 d1_0 transitionDuration in
        filter +:+ ",scale=iw*" +:+ e +:+ ":ih*" +:+ e +:+ repad
      else filter in
    filter.

(** The fragment of one image, the body of [images.forEach], for the
    image read as input [idx]. *)
Definition imageDuration (img : resource) : dec := num_or (duration img) (Dec.of_Z 3).

Definition imageFilter (idx : nat) (img : resource) : string :=
  let duration := imageDuration img in
  let transition := str_or (transition img) "none" in
  let transitionDuration := num_or (transitionDuration img) d0_5 in
  let filter := "[" +:+ pretty idx +:+ ":v]loop=-1:size=1:start=0" in
  let scaleFilter := buildScaleAndPositionFilter "" img widthN heightN in
  let filter :=
    if Str.truthy scaleFilter && Str.truthy (Str.trim scaleFilter)
    then filter +:+ "," +:+ Str.trim scaleFilter
    else filter in
  let filter :=
    filter +:+ ",setsar=1,fps=" +:+ Dec.to_string fpsN +:+ ":round=up,trim=duration="
           +:+ Dec.to_string duration in
  let filter :=
    if negb (String.eqb transition "none") && Dec.pos transitionDuration
    then filter +:+ buildTransitionFilter transition transitionDuration duration widthN heightN
    else filter in
  filter +:+ "[v" +:+ pretty idx +:+ "]".

(** The fragment of one video, the body of [videos.forEach]. *)
Definition videoFilter (idx : nat) (vid : resource) : string :=
  let vidDuration := duration vid in
  let transition := str_or (transition vid) "none" in
  let transitionDuration := num_or (transitionDuration vid) d0_5 in
  let filter :=
    buildScaleAndPositionFilter ("[" +:+ pretty idx +:+ ":v]") vid widthN heightN in
  let filter := filter +:+ ",setsar=1,fps=" +:+ Dec.to_string fpsN in
  let filter :=
    if negb (String.eqb transition "none") && Dec.pos transitionDuration
    then filter +:+ buildTransitionFilter transition transitionDuration
                      (num_or vidDuration (Dec.of_Z 5)) widthN heightN
    else filter in
  filter +:+ "[v" +:+ pretty idx +:+ "]".

(** [audioFilters] of one audio resource. *)
Definition audioFilters (aud : resource) : list string :=
  let fade := str_or (fade aud) "none" in
  let fadeDuration := num_or (fadeDuration aud) (Dec.of_Z 1) in
  let volume := num_default (volume aud) d100 in
  let audioFilters := [] in
  let audioFilters :=
    if negb (Dec.eqb volume d100)
    then audioFilters ++ ["volume=" +:+ Dec.to_string (Dec.div100 volume)]
    else audioFilters in
  if negb (String.eqb fade "none") && Dec.pos fadeDuration then
    let audioFilters :=
      if String.eqb fade "fadein" || String.eqb fade "both"
      then audioFilters ++ ["afade=t=in:st=0:d=" +:+ Dec.to_string fadeDuration]
      else audioFilters in
    if String.eqb fade "fadeout" || String.eqb fade "both" then
      let audioDuration := num_or (duration aud) (Dec.of_Z 10) in
      let fadeOutStart := Dec.max0 (Dec.sub audioDuration fadeDuration) in
      audioFilters ++ ["afade=t=out:st=" +:+ Dec.to_string fadeOutStart +:+ ":d="
                         +:+ Dec.to_string fadeDuration]
    else audioFilters
  else audioFilters.

Definition audioFilter (idx : nat) (aud : resource) : string :=
  "[" +:+ pretty idx +:+ ":a]" +:+ Str.join "," (audioFilters aud)
      +:+ "[a" +:+ pretty idx +:+ "]".

(** [-ss] and [-t] of a video or audio input, pushed before its [-i]. *)
Definition seekArgs (r : resource) : list string :=
  (if defined_pos (startTime r) then ["-ss"; Dec.to_string (num_default (startTime r) (Dec.of_Z 0))]
   else [])
  ++ (if defined_pos (duration r) then ["-t"; Dec.to_string (num_default (duration r) (Dec.of_Z 0))]
      else []).

(** The host of the process. *)
Variable h : Host.

Section Loops.

Variable fs : FS h.

Definition processImage (b : build) (img : resource) : result build :=
  let normalizedPath := path_resolve h (path img) in
  if negb (existsSync h fs normalizedPath) then Throw Err.imageMissing
  else OK {|
    args := args b ++ ["-i"; normalizedPath];
    filterComplex := filterComplex b ++ [imageFilter (inputIndex b) img];
    inputIndex := S (inputIndex b);
    videoInputs := videoInputs b ++ [mkVideoInput (inputIndex b) (Some (imageDuration img))];
    audioInputs := audioInputs b |}.

Definition processVideo (b : build) (vid : resource) : build :=
  {| args := args b ++ seekArgs vid ++ ["-i"; path_resolve h (path vid)];
     filterComplex := filterComplex b ++ [videoFilter (inputIndex b) vid];
     inputIndex := S (inputIndex b);
     videoInputs := videoInputs b ++ [mkVideoInput (inputIndex b) (duration vid)];
     audioInputs := audioInputs b |}.

Definition processAudio (b : build) (aud : resource) : build :=
  let a := args b ++ seekArgs aud ++ ["-i"; path_resolve h (path aud)] in
  match audioFilters aud with
  | [] =>
      {| args := a;
         filterComplex := filterComplex b;
         inputIndex := S (inputIndex b);
         videoInputs := videoInputs b;
         audioInputs := audioInputs b ++ [mkAudioInput (inputIndex b) None] |}
  | _ :: _ =>
      {| args := a;
         filterComplex := filterComplex b ++ [audioFilter (inputIndex b) aud];
         inputIndex := S (inputIndex b);
         videoInputs := videoInputs b;
         audioInputs := audioInputs b ++ [mkAudioInput (inputIndex b) (Some (inputIndex b))] |}
  end.

(** [images.forEach], left by the first [throw]. *)
Fixpoint forImages (imgs : list resource) (b : build) : result build :=
  match imgs with
  | [] => OK b
  | img :: rest => b' ← processImage b img; forImages rest b'
  end.

End Loops.

Definition vlabel (idx : nat) : string := "[v" +:+ pretty idx +:+ "]".

(** The loop [for (i = length - 1; i >= 0; i--)] that renames the output
    label of the last fragment ending in [label]; the flag tells whether
    it reached its [break]. *)
Fixpoint renameLast (label : string) (fc : list string) : bool * list string :=
  match fc with
  | [] => (false, [])
  | x :: t =>
      let '(found, t') := renameLast label t in
      if found then (true, x :: t')
      else if Str.endsWith x label then (true, Str.replace x label "[outv]" :: t)
      else (false, x :: t)
  end.

(** "Connect all video fragments". *)
Definition concatFilter (vs : list videoInput) : string :=
  let concatInputs := Str.concat (map (fun item => vlabel (index item)) vs) in
  concatInputs +:+ "concat=n=" +:+ pretty (length vs) +:+ ":v=1:a=0[outv]".

Definition connectVideo (vs : list videoInput) (fc : list string) : list string :=
  match vs with
  | [] => fc
  | [v] => snd (renameLast (vlabel (index v)) fc)
  | _ => fc ++ [concatFilter vs]
  end.

Definition audioLabel (item : audioInput) : string :=
  match filterIndex item with
  | Some i => "[a" +:+ pretty i +:+ "]"
  | None => "[" +:+ pretty (aindex item) +:+ ":a]"
  end.

(** "Merge all audio". *)
Definition amixFilter (ais : list audioInput) : string :=
  let audioLabels := Str.concat (map audioLabel ais) in
  audioLabels +:+ "amix=inputs=" +:+ pretty (length ais)
              +:+ ":duration=longest:dropout_transition=2[outa]".

Definition mixAudio (ais : list audioInput) (fc : list string) : list string :=
  match ais with
  | [] => fc
  | _ :: _ => fc ++ [amixFilter ais]
  end.

(** [-acodec] and the audio encoding parameters. *)
Definition audioCodecArgs : list string :=
  let audioCodec := str_or (audioCodec o) "aac" in
  if negb (String.eqb audioCodec "copy") then
    ["-acodec"; audioCodec;
     "-b:a"; str_or (audioBitrate o) "192k";
     "-ar"; Dec.to_string (num_or (audioSampleRate o) (Dec.of_Z 44100));
     "-ac"; Dec.to_string (num_or (audioChannels o) (Dec.of_Z 2))]
  else ["-acodec"; "copy"].

(** [-vcodec] and the video encoding parameters. *)
Definition videoCodecArgs : list string :=
  let videoCodec := str_or (videoCodec o) "libx264" in
  let videoCrf := num_default (videoCrf o) (Dec.of_Z 23) in
  let videoBitrate := str_or (videoBitrate o) "2000k" in
  ["-vcodec"; videoCodec]
  ++ (if String.eqb videoCodec "libx264" || String.eqb videoCodec "libx265" then
        ["-preset"; str_or (videoPreset o) "medium"]
        ++ (if Dec.leb (Dec.of_Z 0) videoCrf && Dec.leb videoCrf (Dec.of_Z 51)
            then ["-crf"; Dec.to_string videoCrf]
            else ["-b:v"; videoBitrate])
      else ["-b:v"; videoBitrate])
  ++ ["-pix_fmt"; "yuv420p"; "-shortest"].

(** The [-map] arguments: the video pad, then the audio pad or the audio
    track of the first video. *)
Definition mapArgs (images videos : list resource)
    (vs : list videoInput) (ais : list audioInput) : list string :=
  (match vs with [] => [] | _ :: _ => ["-map"; "[outv]"] end)
  ++ match ais with
     | _ :: _ => audioCodecArgs ++ ["-map"; "[outa]"]
     | [] =>
         match videos with
         | _ :: _ => ["-map"; pretty (length images) +:+ ":a?"] ++ audioCodecArgs
         | [] => []
         end
     end.

Definition isType (t : string) (r : resource) : bool := String.eqb (type r) t.

(** The start of [composeVideo]: the output directory is created and
    probed, an existing output file is removed. *)
Definition prepareOutput (fs : FS h) (outputPath : string) : result (FS h) :=
  let outputDir := path_dirname h outputPath in
  fs ← (if existsSync h fs outputDir then OK fs
        else match mkdirSync h fs outputDir with
             | Some fs' => OK fs'
             | None => Throw Err.mkdirFailed
             end);
  let normalizedOutputPath := path_resolve h outputPath in
  let testFile := path_join h outputDir ".test_write" in
  fs ← match writeFileSync h fs testFile with
       | Some fs' =>
           match unlinkSync h fs' testFile with
           | Some fs'' => OK fs''
           | None => Throw Err.notWritable
           end
       | None => Throw Err.notWritable
       end;
  OK (if existsSync h fs normalizedOutputPath
      then match unlinkSync h fs normalizedOutputPath with
           | Some fs' => fs'
           | None => fs
           end
      else fs).

(** [composeVideo] up to the call of [executeFFmpeg]: either a [throw], or
    the file system left behind and the local variables at that call,
    [args] being the argument list handed to the encoder. *)
Definition composeVideo (fs : FS h) (resources : option (list resource)) (outputPath : string)
    : result (FS h * build) :=
  fs ← prepareOutput fs outputPath;
  let normalizedOutputPath := path_resolve h outputPath in
  match resources with
  | None | Some [] => Throw Err.emptyResources
  | Some resources =>
      if negb (forallb (fun r => existsSync h fs (path r)) resources)
      then Throw Err.inputMissing
      else
        let images := filter (isType "image") resources in
        let videos := filter (isType "video") resources in
        let audios := filter (isType "audio") resources in
        if (length images =? 0)%nat && (length videos =? 0)%nat
        then Throw Err.noVisual
        else
          b ← forImages fs images (mkBuild ["-y"] [] 0 [] []);
          let b := fold_left processVideo videos b in
          let b := fold_left processAudio audios b in
          let fc := mixAudio (audioInputs b) (connectVideo (videoInputs b) (filterComplex b)) in
          let a := args b in
          let a := match fc with
                   | [] => a
                   | _ :: _ => a ++ ["-filter_complex"; Str.join ";" fc]
                   end in
          let a := a ++ videoCodecArgs in
          let a := a ++ mapArgs images videos (videoInputs b) (audioInputs b) in
          let a := a ++ [normalizedOutputPath] in
          OK (fs, mkBuild a fc (inputIndex b) (videoInputs b) (audioInputs b))
  end.

End Builder.

(** ** Paths (Node's [path] module, POSIX flavour) *)

Module Path.

Definition isDots (seg : string) : bool := String.eqb seg "..".

(** [normalizeString]: the segments of the path, left to right, with the
    segments kept so far on a stack (last segment first). *)
Fixpoint normalizeSegs (allowAboveRoot : bool) (segs stack : list string) : list string :=
  match segs with
  | [] => rev stack
  | seg :: rest =>
      if String.eqb seg "" || String.eqb seg "." then
        normalizeSegs allowAboveRoot rest stack
      else if isDots seg then
        match stack with
        | top :: below =>
            if isDots top
            then normalizeSegs allowAboveRoot rest
                   (if allowAboveRoot then seg :: stack else stack)
            else normalizeSegs allowAboveRoot rest below
        | [] => normalizeSegs allowAboveRoot rest (if allowAboveRoot then [seg] else [])
        end
      else normalizeSegs allowAboveRoot rest (seg :: stack)
  end.

(** [path.normalize] *)
Definition normalize (p : string) : string :=
  match p with
  | EmptyString => "."
  | _ =>
      let isAbsolute := Str.startsWith p "/" in
      let trailingSeparator := Str.endsWith p "/" in
      let q := Str.join "/" (normalizeSegs (negb isAbsolute) (Str.split "/" p) []) in
      match q with
      | EmptyString =>
          if isAbsolute then "/" else if trailingSeparator then "./" else "."
      | _ =>
          let q := if trailingSeparator then q +:+ "/" else q in
          if isAbsolute then "/" +:+ q else q
      end
  end.

(** [path.join(a, b)] *)
Definition join (a b : string) : string :=
  match a, b with
  | EmptyString, EmptyString => "."
  | EmptyString, _ => normalize b
  | _, EmptyString => normalize a
  | _, _ => normalize (a +:+ "/" +:+ b)
  end.

End Path.

(** ** The HTTP handlers (server.js) *)

(** What a path names on disk. *)
Inductive node : Type := File | Dir.

Module Disk.

(** The disk: the paths that exist and what they name. *)
Definition existsSync (fs : gmap string node) (p : string) : bool :=
  bool_decide (is_Some (fs !! p)).

(** [fs.unlinkSync]: removes a file; throws ([None]) on a directory and on
    a missing path. *)
Definition unlinkSync (fs : gmap string node) (p : string) : option (gmap string node) :=
  match fs !! p with
  | Some File => Some (delete p fs)
  | _ => None
  end.

End Disk.

(** An HTTP response: the status code, and for [/api/compose] the
    [command] of a success. *)
Record response : Type := mkResponse { status : nat; command : option string }.

(** One entry of [req.body.resources]. *)
Record reqResource : Type := mkReqResource {
  rq_type : option string;
  rq_url : option string;
  rq_filename : option string;
  rq_duration : option dec;
  rq_startTime : option dec;
  rq_transition : option string;
  rq_transitionDuration : option dec;
  rq_position : option string;
  rq_scaleMode : option string;
  rq_rotation : option dec;
  rq_opacity : option dec;
  rq_fade : option string;
  rq_fadeDuration : option dec;
  rq_volume : option dec
}.

(** The entry pushed on [resourcePaths]. *)
Definition toResourcePath (filePath : string) (r : reqResource) : resource :=
  {| type := str_or (rq_type r) "";
     path := filePath;
     duration := rq_duration r;
     startTime := rq_startTime r;
     transition := Some (str_or (rq_transition r) "none");
     transitionDuration := Some (num_or (rq_transitionDuration r) d0_5);
     position := Some (str_or (rq_position r) "center");
     scaleMode := Some (str_or (rq_scaleMode r) "fit");
     rotation := Some (num_or (rq_rotation r) (Dec.of_Z 0));
     opacity := Some (num_default (rq_opacity r) d100);
     fade := Some (str_or (rq_fade r) "none");
     fadeDuration := Some (num_or (rq_fadeDuration r) (Dec.of_Z 1));
     volume := Some (num_default (rq_volume r) d100) |}.

(** [x || d], then the defaults of the call of [composeVideo]. *)
Definition composeOptions (o : options) : options :=
  let resolution :=
    match width o, height o with
    | Some w, Some h =>
        if Dec.truthy w && Dec.truthy h
        then Dec.to_string w +:+ "x" +:+ Dec.to_string h
        else str_or (resolution o) "1280x720"
    | _, _ => str_or (resolution o) "1280x720"
    end in
  {| resolution := Some resolution;
     width := Some (num_or (width o) (Dec.of_Z 1280));
     height := Some (num_or (height o) (Dec.of_Z 720));
     fps := Some (num_or (fps o) (Dec.of_Z 25));
     videoCodec := Some (str_or (videoCodec o) "libx264");
     videoPreset := Some (str_or (videoPreset o) "medium");
     videoCrf := Some (num_default (videoCrf o) (Dec.of_Z 23));
     videoBitrate := Some (str_or (videoBitrate o) "2000k");
     audioCodec := Some (str_or (audioCodec o) "aac");
     audioBitrate := Some (str_or (audioBitrate o) "192k");
     audioSampleRate := Some (num_or (audioSampleRate o) (Dec.of_Z 44100));
     audioChannels := Some (num_or (audioChannels o) (Dec.of_Z 2));
     backgroundColor := Some (str_or (backgroundColor o) "#000000") |}.

Section Server.

(** [__dirname] of server.js. *)
Variable dirname : string.

Definition uploadsDir : string := Path.join dirname "uploads".
Definition outputDir : string := Path.join dirname "output".

(** *** [DELETE /api/files/delete] *)

Definition validDirectory (directory : option string) : bool :=
  match directory with
  | Some d => Str.truthy d && (String.eqb d "uploads" || String.eqb d "output")
  | None => false
  end.

Definition illegalName (filename : string) : bool :=
  Str.includes filename ".." || Str.includes filename "/" || Str.includes filename "\".

(** [directory === 'uploads' ? uploadsDir : outputDir] *)
Definition dirPathOf (directory : option string) : string :=
  if String.eqb (default "" directory) "uploads" then uploadsDir else outputDir.

(** The handler: the status of the response and the disk it leaves. *)
Definition deleteFile (fs : gmap string node) (directory filename : option string)
    : nat * gmap string node :=
  if negb (validDirectory directory) then (400, fs)
  else match filename with
  | None => (400, fs)
  | Some filename =>
      if negb (Str.truthy filename) then (400, fs)
      else if illegalName filename then (400, fs)
      else
        let dirPath := dirPathOf directory in
        let filePath := Path.join dirPath filename in
        if negb (Str.startsWith filePath dirPath) then (400, fs)
        else if negb (Disk.existsSync fs filePath) then (404, fs)
        else match Disk.unlinkSync fs filePath with
             | Some fs' => (200, fs')
             | None => (500, fs)
             end
  end.

(** *** [POST /api/compose] *)

(** [new URL(url)] does not throw. *)
Variable validUrl : string -> bool.

(** [downloadFromUrl]: the name of the file saved in [uploadsDir], or
    [None] when the promise is rejected. *)
Variable download : string -> option string.

(** [ffmpeg.composeVideo], encoder run included: the disk it leaves, and
    the command of a success or the error of a failure. *)
Variable composeVideoRun :
  gmap string node -> list resource -> string -> options -> gmap string node * result string.

(** [Date.now()], printed. *)
Variable now : string.

(** The [for] loop over [resources]: either the response of an early
    [return], or [resourcePaths], [tempFiles] and the disk. *)
Fixpoint collect (fs : gmap string node) (rs : list reqResource)
    (resourcePaths : list resource) (tempFiles : list string)
    : (response * gmap string node) + (list resource * list string * gmap string node) :=
  match rs with
  | [] => inr (resourcePaths, tempFiles, fs)
  | r :: rest =>
      match rq_type r with
      | None => inl (mkResponse 400 None, fs)
      | Some t =>
          if negb (Str.truthy t) then inl (mkResponse 400 None, fs)
          else if negb (String.eqb t "image" || String.eqb t "video" || String.eqb t "audio")
          then inl (mkResponse 400 None, fs)
          else if Str.truthy (str_or (rq_url r) "") then
            let url := str_or (rq_url r) "" in
            if negb (validUrl url) then inl (mkResponse 400 None, fs)
            else match download url with
                 | Some name =>
                     let filePath := Path.join uploadsDir name in
                     collect (<[filePath := File]> fs) rest
                       (resourcePaths ++ [toResourcePath filePath r])
                       (tempFiles ++ [filePath])
                 | None => inl (mkResponse 500 None, fs)
                 end
          else if Str.truthy (str_or (rq_filename r) "") then
            let filePath := Path.join uploadsDir (str_or (rq_filename r) "") in
            if negb (Disk.existsSync fs filePath) then inl (mkResponse 404 None, fs)
            else collect fs rest (resourcePaths ++ [toResourcePath filePath r]) tempFiles
          else inl (mkResponse 400 None, fs)
      end
  end.

(** [tempFiles.forEach]: every existing temporary file is unlinked; a
    failing unlink is caught. *)
Definition cleanup (tempFiles : list string) (fs : gmap string node) : gmap string node :=
  fold_left (fun fs tempFile =>
               if Disk.existsSync fs tempFile
               then match Disk.unlinkSync fs tempFile with
                    | Some fs' => fs'
                    | None => fs
                    end
               else fs) tempFiles fs.

(** [tempFiles] as the [catch] block sees it.  The [const tempFiles] is
    declared inside the [try] block, so the name is not bound in the
    [catch] block: [typeof tempFiles] is ['undefined'] there. *)
Definition tempFilesInCatch (tempFiles : list string) : option (list string) := None.

(** The [catch] block. *)
Definition composeCatch (tempFiles : list string) (fs : gmap string node)
    : response * gmap string node :=
  match tempFilesInCatch tempFiles with
  | Some visible => (mkResponse 500 None, cleanup visible fs)
  | None => (mkResponse 500 None, fs)
  end.

(** The handler: the response and the disk it leaves. *)
Definition compose (fs : gmap string node) (resources : option (list reqResource))
    (o : options) : response * gmap string node :=
  match resources with
  | None | Some [] => (mkResponse 400 None, fs)
  | Some rs =>
      match collect fs rs [] [] with
      | inl early => early
      | inr (resourcePaths, tempFiles, fs) =>
          let outputFilename := "composed_" +:+ now +:+ ".mp4" in
          let outputPath := Path.join outputDir outputFilename in
          match composeVideoRun fs resourcePaths outputPath (composeOptions o) with
          | (fs, OK cmd) => (mkResponse 200 (Some cmd), cleanup tempFiles fs)
          | (fs, Throw _) => composeCatch tempFiles fs
          end
      end
  end.

End Server.

(** ** The builder in closed form

    What the three loops of [composeVideo] leave in [args],
    [filterComplex], [videoInputs] and [audioInputs], written by recursion
    on the lists of resources, the first of them being read as input [n]. *)

Section ClosedForm.

Variable to_radians : dec -> dec.
Variable o : options.
Variable h : Host.

Fixpoint imageFrags (n : nat) (imgs : list resource) : list string :=
  match imgs with
  | [] => []
  | img :: rest => imageFilter to_radians o n img :: imageFrags (S n) rest
  end.

Fixpoint videoFrags (n : nat) (vids : list resource) : list string :=
  match vids with
  | [] => []
  | vid :: rest => videoFilter to_radians o n vid :: videoFrags (S n) rest
  end.

Fixpoint audioFrags (n : nat) (auds : list resource) : list string :=
  match auds with
  | [] => []
  | aud :: rest =>
      match audioFilters aud with
      | [] => audioFrags (S n) rest
      | _ :: _ => audioFilter n aud :: audioFrags (S n) rest
      end
  end.

Fixpoint imageInputs (n : nat) (imgs : list resource) : list videoInput :=
  match imgs with
  | [] => []
  | img :: rest => mkVideoInput n (Some (imageDuration img)) :: imageInputs (S n) rest
  end.

Fixpoint videoInputsOf (n : nat) (vids : list resource) : list videoInput :=
  match vids with
  | [] => []
  | vid :: rest => mkVideoInput n (duration vid) :: videoInputsOf (S n) rest
  end.

Fixpoint audioInputsOf (n : nat) (auds : list resource) : list audioInput :=
  match auds with
  | [] => []
  | aud :: rest =>
      mkAudioInput n (match audioFilters aud with [] => None | _ :: _ => Some n end)
        :: audioInputsOf (S n) rest
  end.

(** The arguments of one input: an image is read as it is, a video or an
    audio after its seek and duration flags. *)
Definition imageArgs (img : resource) : list string := ["-i"; path_resolve h (path img)].
Definition seekedArgs (r : resource) : list string :=
  seekArgs r ++ ["-i"; path_resolve h (path r)].

Definition inputArgs (images videos audios : list resource) : list string :=
  concat (map imageArgs images) ++ concat (map seekedArgs videos)
    ++ concat (map seekedArgs audios).

(** The fragments of the three loops, in input order. *)
Definition fragments (images videos audios : list resource) : list string :=
  imageFrags 0 images ++ videoFrags (length images) videos
    ++ audioFrags (length images + length videos) audios.

Definition visualInputs (images videos : list resource) : list videoInput :=
  imageInputs 0 images ++ videoInputsOf (length images) videos.

(** The [filterComplex] array at the call of the encoder. *)
Definition graph (images videos audios : list resource) : list string :=
  mixAudio (audioInputsOf (length images + length videos) audios)
    (connectVideo (visualInputs images videos) (fragments images videos audios)).

(** The argument list after the inputs. *)
Definition outputArgs (images videos audios : list resource) (outputPath : string)
    : list string :=
  match graph images videos audios with
  | [] => []
  | fc => ["-filter_complex"; Str.join ";" fc]
  end
  ++ videoCodecArgs o
  ++ mapArgs o images videos (visualInputs images videos)
       (audioInputsOf (length images + length videos) audios)
  ++ [path_resolve h outputPath].

(** The local variables at the call of the encoder. *)
Definition plan (images videos audios : list resource) (outputPath : string) : build :=
  {| args := ["-y"] ++ inputArgs images videos audios
               ++ outputArgs images videos audios outputPath;
     filterComplex := graph images videos audios;
     inputIndex := length images + length videos + length audios;
     videoInputs := visualInputs images videos;
     audioInputs := audioInputsOf (length images + length videos) audios |}.

End ClosedForm.

(** The text of the [-filter_complex] argument. *)
Definition filterGraphText (b : build) : string := Str.join ";" (filterComplex b).

(** A host on which every file exists and every call succeeds. *)
Definition plainHost : Host :=
  {| FS := unit;
     existsSync := fun _ _ => true;
     mkdirSync := fun fs _ => Some fs;
     writeFileSync := fun fs _ => Some fs;
     unlinkSync := fun fs _ => Some fs;
     path_resolve := fun p => p;
     path_dirname := fun _ => "/app/output";
     path_join := Path.join |}.

(** Another such host, run from the directory [/srv]. *)
Definition otherHost : Host :=
  {| FS := unit;
     existsSync := fun _ _ => true;
     mkdirSync := fun fs _ => Some fs;
     writeFileSync := fun fs _ => Some fs;
     unlinkSync := fun fs _ => Some fs;
     path_resolve := fun p => "/srv/" +:+ p;
     path_dirname := fun _ => "/srv";
     path_join := Path.join |}.

(** A host without any file, on which nothing can be written. *)
Definition bareHost : Host :=
  {| FS := unit;
     existsSync := fun _ _ => false;
     mkdirSync := fun _ _ => None;
     writeFileSync := fun _ _ => None;
     unlinkSync := fun _ _ => None;
     path_resolve := fun p => "/srv/" +:+ p;
     path_dirname := fun _ => "/srv";
     path_join := Path.join |}.

Definition noOptions : options :=
  mkOptions None None None None None None None None None None None None None.

Definition plainResource (t p : string) : resource :=
  mkResource t p None None None None None None None None None None None.

(** The resources of one kind, in their order in the list. *)
Definition imagesOf (rs : list resource) : list resource := filter (isType "image") rs.
Definition videosOf (rs : list resource) : list resource := filter (isType "video") rs.
Definition audiosOf (rs : list resource) : list resource := filter (isType "audio") rs.

(** A resource is visual when it is an image or a video. *)
Definition isVisual (r : resource) : bool := isType "image" r || isType "video" r.

(** The request has an image or a video. *)
Definition hasVisual (resources : option (list resource)) : bool :=
  match resources with
  | Some rs => existsb isVisual rs
  | None => false
  end.

(** An image whose [duration] is absent or zero, given three seconds. *)
Definition withDefaultDuration (r : resource) : resource :=
  if isType "image" r && negb (match duration r with Some d => Dec.truthy d | None => false end)
  then {| type := type r; path := path r; duration := Some (Dec.of_Z 3);
          startTime := startTime r; transition := transition r;
          transitionDuration := transitionDuration r; position := position r;
          scaleMode := scaleMode r; rotation := rotation r; opacity := opacity r;
          fade := fade r; fadeDuration := fadeDuration r; volume := volume r |}
  else r.

(** The example of the specification: two images of three seconds with a
    fade of half a second, one audio at volume 50, 1280x720 at 25 fps. *)
Definition exampleImage (p : string) : resource :=
  {| type := "image"; path := p; duration := Some (Dec.of_Z 3); startTime := None;
     transition := Some "fade"; transitionDuration := Some d0_5; position := None;
     scaleMode := None; rotation := None; opacity := None; fade := None;
     fadeDuration := None; volume := None |}.

Definition exampleAudio (p : string) : resource :=
  {| type := "audio"; path := p; duration := None; startTime := None;
     transition := None; transitionDuration := None; position := None;
     scaleMode := None; rotation := None; opacity := None; fade := None;
     fadeDuration := None; volume := Some (Dec.of_Z 50) |}.

Definition exampleOptions : options :=
  {| width := None; height := None; resolution := Some "1280x720";
     fps := Some (Dec.of_Z 25); videoCodec := None; videoPreset := None; videoCrf := None;
     videoBitrate := None; audioCodec := None; audioBitrate := None;
     audioSampleRate := None; audioChannels := None; backgroundColor := None |}.

Definition exampleResources : list resource :=
  [exampleImage "/app/uploads/a.png"; exampleImage "/app/uploads/b.png";
   exampleAudio "/app/uploads/c.mp3"].

Definition exampleFragment (i : string) : string :=
  "[" +:+ i +:+ ":v]loop=-1:size=1:start=0,scale=1280:720:force_original_aspect_ratio=decrease"
  +:+ ",pad=1280:720:(ow-iw)/2:(oh-ih)/2:color=0x000000,setsar=1,fps=25:round=up"
  +:+ ",trim=duration=3,fade=t=in:st=0:d=0.5,fade=t=out:st=2.5:d=0.5[v" +:+ i +:+ "]".

(** The values of the [-map] flags of an argument list. *)
Fixpoint mapTargets (a : list string) : list string :=
  match a with
  | [] => []
  | x :: rest =>
      match rest with
      | y :: _ => if String.eqb x "-map" then y :: mapTargets rest else mapTargets rest
      | [] => []
      end
  end.

(** A video read from second 1.5 for 4 seconds, and an audio read for 10
    seconds. *)
Definition seekedVideo : resource :=
  {| type := "video"; path := "/app/uploads/v.mp4"; duration := Some (Dec.of_Z 4);
     startTime := Some (mkDec 15 1); transition := None; transitionDuration := None;
     position := None; scaleMode := None; rotation := None; opacity := None; fade := None;
     fadeDuration := None; volume := None |}.

Definition seekedAudio : resource :=
  {| type := "audio"; path := "/app/uploads/m.mp3"; duration := Some (Dec.of_Z 10);
     startTime := None; transition := None; transitionDuration := None;
     position := None; scaleMode := None; rotation := None; opacity := None; fade := None;
     fadeDuration := None; volume := None |}.

(** The disk as a host of [composeVideo], run from the root directory with
    the output directory of the server. *)
Definition diskHost (outputDirectory : string) : Host :=
  {| FS := gmap string node;
     existsSync := Disk.existsSync;
     mkdirSync := fun fs d => Some (<[d := Dir]> fs);
     writeFileSync := fun fs p => Some (<[p := File]> fs);
     unlinkSync := Disk.unlinkSync;
     path_resolve := Path.normalize;
     path_dirname := fun _ => outputDirectory;
     path_join := Path.join |}.

(** [composeVideo] followed by the encoder, whose run is [encoder]: the
    text of the command on exit code 0, an error otherwise. *)
Definition composeVideoOn (encoder : list string -> result string)
    (fs : gmap string node) (rs : list resource) (outputPath : string) (o : options)
    : gmap string node * result string :=
  match composeVideo (fun d => d) o (diskHost "/app/output") fs (Some rs) outputPath with
  | OK (fs', b) =>
      match encoder (args b) with
      | OK cmd => (<[Path.normalize outputPath := File]> fs', OK cmd)
      | Throw e => (fs', Throw e)
      end
  | Throw e => (fs, Throw e)
  end.

(** A request for one remote resource of the given kind. *)
Definition remoteResource (t url : string) : reqResource :=
  {| rq_type := Some t; rq_url := Some url; rq_filename := None; rq_duration := Some (Dec.of_Z 3);
     rq_startTime := None; rq_transition := None; rq_transitionDuration := None;
     rq_position := None; rq_scaleMode := None; rq_rotation := None; rq_opacity := None;
     rq_fade := None; rq_fadeDuration := None; rq_volume := None |}.

(** The disk of a fresh server in [/app]. *)
Definition freshDisk : gmap string node :=
  <["/app/uploads" := Dir]> (<["/app/output" := Dir]> (<["/app" := Dir]> ∅)).

Definition downloadedName : string := "downloaded_1700000000000-42.png".

(** The stack of [Path.normalizeSegs] once [segs] are read. *)
Fixpoint stackOf (allowAboveRoot : bool) (segs stack : list string) : list string :=
  match segs with
  | [] => stack
  | seg :: rest =>
      if String.eqb seg "" || String.eqb seg "." then stackOf allowAboveRoot rest stack
      else if Path.isDots seg then
        match stack with
        | top :: below =>
            if Path.isDots top
            then stackOf allowAboveRoot rest (if allowAboveRoot then seg :: stack else stack)
            else stackOf allowAboveRoot rest below
        | [] => stackOf allowAboveRoot rest (if allowAboveRoot then [seg] else [])
        end
      else stackOf allowAboveRoot rest (seg :: stack)
  end.

(** The segments of an absolute directory, as [normalize] keeps them. *)
Definition segsOf (dir : string) : list string :=
  rev (stackOf false (Str.split "/" dir) []).

(** A path segment that [normalize] keeps as it is. *)
Definition cleanSeg (seg : string) : bool :=
  negb (String.eqb seg "" || String.eqb seg ".") && negb (Path.isDots seg).

Definition notChar (c : ascii) (x : ascii) : bool := negb (Ascii.eqb x c).

(** A segment without a separator. *)
Definition plainSeg (seg : string) : bool := cleanSeg seg && Str.all (notChar "/") seg.

(** A disk with the server file and one uploaded clip. *)
Definition demoDisk : gmap string node :=
  <["/app/uploads/clip.mp4" := File]> (<["/app/server.js" := File]> freshDisk).

(** ** Reading the graph text *)

(** The non-empty suffixes of a string, the string itself first. *)
Fixpoint suffixes (s : string) : list string :=
  match s with
  | EmptyString => []
  | String _ s' => s :: suffixes s'
  end.

(** The non-empty proper suffixes of a pattern. *)
Definition properSuffixes (pat : string) : list string :=
  match pat with
  | EmptyString => []
  | String _ p => suffixes p
  end.

(** [s] does not start in the middle of [pat]: no non-empty proper suffix
    of [pat] is a prefix of [s]. *)
Definition headFree (pat s : string) : bool :=
  forallb (fun q => negb (Str.startsWith s q)) (properSuffixes pat).

(** A piece of text that neither holds nor completes a [concat=] or an
    [amix=]. *)
Definition quietb (s : string) : bool :=
  headFree "concat=" s && (Str.count s "concat=" =? 0)%nat
  && headFree "amix=" s && (Str.count s "amix=" =? 0)%nat.

(** The characters of the filter text between two pad labels. *)
Definition graphChar (c : ascii) : bool :=
  Str.includes "abcdefghijklmnopqrstuvwxyz0123456789=:,()/*+-_." (String c "").

(** A literal piece of a filter chain. *)
Definition chainLiteral (s : string) : bool := Str.all graphChar s && quietb s.

(** The output pad of a filter chain: its text from the last [[] on. *)
Fixpoint outPad (chain : string) : string :=
  match chain with
  | EmptyString => ""
  | String c rest =>
      if Str.all (notChar "[") rest
      then (if Ascii.eqb c "[" then chain else "")
      else outPad rest
  end.

(** A background colour that holds neither [[] nor [=]: the two
    characters that every pad label and every operator of the graph is
    written with.  The colour names and hexadecimal codes of ffmpeg are
    of this kind. *)
Definition colorChar (c : ascii) : bool := notChar "[" c && notChar "=" c.

Definition colorOK (o : options) : bool :=
  Str.all colorChar (str_or (backgroundColor o) "#000000").

(** A background colour that holds no [[]. *)
Definition padFree (o : options) : bool :=
  Str.all (notChar "[") (str_or (backgroundColor o) "#000000").

(** The characters of a printed number. *)
Definition numChar (c : ascii) : bool := Str.includes "0123456789.-" (String c "").

Definition quiet (s : string) : Prop := quietb s = true.

(** A property of texts that the pieces of a filter chain have and that
    concatenation and the removal of trailing white space keep. *)
Class Piece (Q : string -> Prop) : Prop := {
  piece_app : forall a b, Q a -> Q b -> Q (a +:+ b);
  piece_literal : forall s, chainLiteral s = true -> Q s;
  piece_number : forall s, Str.all numChar s = true -> Q s;
  piece_trimEnd : forall s, Q s -> Q (Str.trimEnd s)
}.

(** [headFree] and the number of occurrences, together. *)
Definition tally (pat s : string) (k : nat) : Prop :=
  headFree pat s = true /\ Str.count s pat = k.

(** The stream of input [idx] that a chain reads. *)
Definition videoStream (idx : nat) : string := "[" +:+ pretty idx +:+ ":v]".
Definition audioStream (idx : nat) : string := "[" +:+ pretty idx +:+ ":a]".
Definition alabel (idx : nat) : string := "[a" +:+ pretty idx +:+ "]".

Section Chains.

Variable to_radians : dec -> dec.
Variable o : options.

(** The filters of an image between its stream and its pad. *)
Definition imageChain (img : resource) : string :=
  let transition := str_or (transition img) "none" in
  let transitionDuration := num_or (transitionDuration img) d0_5 in
  "loop=-1:size=1:start=0"
  +:+ "," +:+ Str.trimEnd (buildScaleAndPositionFilter to_radians o "" img
                             (resolvedWidth o) (resolvedHeight o))
  +:+ ",setsar=1,fps=" +:+ Dec.to_string (num_or (fps o) (Dec.of_Z 25))
  +:+ ":round=up,trim=duration=" +:+ Dec.to_string (imageDuration img)
  +:+ (if negb (String.eqb transition "none") && Dec.pos transitionDuration
       then buildTransitionFilter o transition transitionDuration (imageDuration img)
              (resolvedWidth o) (resolvedHeight o)
       else "").

(** The filters of a video between its stream and its pad. *)
Definition videoChain (vid : resource) : string :=
  let transition := str_or (transition vid) "none" in
  let transitionDuration := num_or (transitionDuration vid) d0_5 in
  buildScaleAndPositionFilter to_radians o "" vid (resolvedWidth o) (resolvedHeight o)
  +:+ ",setsar=1,fps=" +:+ Dec.to_string (num_or (fps o) (Dec.of_Z 25))
  +:+ (if negb (String.eqb transition "none") && Dec.pos transitionDuration
       then buildTransitionFilter o transition transitionDuration
              (num_or (duration vid) (Dec.of_Z 5)) (resolvedWidth o) (resolvedHeight o)
       else "").

(** The fragment of a visual resource read as input [idx]. *)
Definition visualFragment (idx : nat) (r : resource) : string :=
  if isType "image" r then imageFilter to_radians o idx r
  else videoFilter to_radians o idx r.

Definition visualChain (r : resource) : string :=
  if isType "image" r then imageChain r else videoChain r.

End Chains.

(** The concatenation of the pads [[v0]] ... [[v(n-1)]]. *)
Definition concatOf (n : nat) : string :=
  Str.concat (map vlabel (seq 0 n)) +:+ "concat=n=" +:+ pretty n +:+ ":v=1:a=0[outv]".

(** The pad under which the mix reads an audio resource that is input
    [idx]: its filtered pad, or its raw stream when it has no filter. *)
Definition audioPad (idx : nat) (aud : resource) : string :=
  match audioFilters aud with
  | [] => audioStream idx
  | _ :: _ => alabel idx
  end.

Fixpoint audioPads (n : nat) (auds : list resource) : list string :=
  match auds with
  | [] => []
  | aud :: rest => audioPad n aud :: audioPads (S n) rest
  end.

(** The mix of the audio resources, the first being input [n]. *)
Definition amixOf (n : nat) (auds : list resource) : string :=
  Str.concat (audioPads n auds) +:+ "amix=inputs=" +:+ pretty (length auds)
    +:+ ":duration=longest:dropout_transition=2[outa]".

(** The pads of the filtered audio resources. *)
Fixpoint filteredAudioPads (n : nat) (auds : list resource) : list string :=
  match auds with
  | [] => []
  | aud :: rest =>
      match audioFilters aud with
      | [] => filteredAudioPads (S n) rest
      | _ :: _ => alabel n :: filteredAudioPads (S n) rest
      end
  end.

(** The output pads of the chains of a graph, in the order of the chains. *)
Definition expectedPads (visuals audios : list resource) : list string :=
  match visuals with
  | [_] => ["[outv]"] ++ filteredAudioPads 1 audios
  | _ => map vlabel (seq 0 (length visuals))
         ++ filteredAudioPads (length visuals) audios ++ ["[outv]"]
  end
  ++ match audios with
     | [] => []
     | _ :: _ => ["[outa]"]
     end.

(** The fragments of the visual resources, the first being input [n]. *)
Fixpoint visualFrags (to_radians : dec -> dec) (o : options) (n : nat) (l : list resource)
    : list string :=
  match l with
  | [] => []
  | r :: rest => visualFragment to_radians o n r :: visualFrags to_radians o (S n) rest
  end.

(** The single visual fragment once its pad is renamed. *)
Definition renamedFragment (to_radians : dec -> dec) (o : options) (r : resource) : string :=
  videoStream 0 +:+ visualChain to_radians o r +:+ "[outv]".

(** The mix chain of a graph, if any. *)
Definition amixPart (n : nat) (auds : list resource) : list string :=
  match auds with
  | [] => []
  | _ :: _ => [amixOf n auds]
  end.

(** The chains of a graph are head-free and hold [k] occurrences of the
    pattern in all. *)
Definition tallies (pat : string) (chains : list string) (k : nat) : Prop :=
  Forall (fun c => headFree pat c = true) chains
  /\ list_sum (map (fun c => Str.count c pat) chains) = k.

(** *** The order of the pads, in the words of the specification *)

(** The values of the [-i] flags: the files of the inputs, input 0 first. *)
Fixpoint inputPaths (a : list string) : list string :=
  match a with
  | [] => []
  | x :: rest =>
      match rest with
      | y :: _ => if String.eqb x "-i" then y :: inputPaths rest else inputPaths rest
      | [] => []
      end
  end.

Fixpoint indexOf (p : string) (l : list string) : nat :=
  match l with
  | [] => 0
  | x :: t => if String.eqb x p then 0 else S (indexOf p t)
  end.

(** The pad of a visual resource: [[v<i>]], [i] being the input that reads
    its file. *)
Definition padOf (h : Host) (b : build) (r : resource) : string :=
  vlabel (indexOf (path_resolve h (path r)) (inputPaths (args b))).

(** "A concat operator whose inputs are all visual pads in original
    resource order". *)
Definition concatInResourceOrder (h : Host) (rs : list resource) (b : build) : Prop :=
  In (Str.concat (map (padOf h b) (filter isVisual rs))
      +:+ "concat=n=" +:+ pretty (length (filter isVisual rs)) +:+ ":v=1:a=0[outv]")
     (filterComplex b).

(** A video listed before an image. *)
Definition videoThenImage : list resource :=
  [plainResource "video" "/app/uploads/clip.mp4";
   plainResource "image" "/app/uploads/photo.png"].

(** The audio part of the [-map] arguments. *)
Definition audioMapArgs (o : options) (images videos audios : list resource) : list string :=
  match audios with
  | _ :: _ => audioCodecArgs o ++ ["-map"; "[outa]"]
  | [] =>
      match videos with
      | _ :: _ => ["-map"; pretty (length images) +:+ ":a?"] ++ audioCodecArgs o
      | [] => []
      end
  end.

(** A request for one uploaded file, without [duration]. *)
Definition localResource (t filename : string) : reqResource :=
  {| rq_type := Some t; rq_url := None; rq_filename := Some filename; rq_duration := None;
     rq_startTime := None; rq_transition := None; rq_transitionDuration := None;
     rq_position := None; rq_scaleMode := None; rq_rotation := None; rq_opacity := None;
     rq_fade := None; rq_fadeDuration := None; rq_volume := None |}.

(** The disk of the server with one uploaded photo. *)
Definition photoDisk : gmap string node := <["/app/uploads/photo.png" := File]> freshDisk.

(** An image with a negative [duration]. *)
Definition negativeImage : resource :=
  {| type := "image"; path := "/app/uploads/photo.png"; duration := Some (Dec.of_Z (-2));
     startTime := None; transition := None; transitionDuration := None; position := None;
     scaleMode := None; rotation := None; opacity := None; fade := None;
     fadeDuration := None; volume := None |}.

(** *** The arguments of an input, in the words of the specification *)

(** The numbers that [String(x)] prints as the decimal that was read: at
    most fifteen digits once the zeros that end the fraction are dropped,
    and zero or a magnitude of at least 10^-6.  JavaScript prints a
    smaller number, and one from 10^21 on, with an exponent, and a number
    of more digits as the shortest text of the double nearest to it. *)
Definition plainNumber (d : dec) : bool :=
  let '(m, s) := Dec.strip_zeros (dscale d) (Z.abs_N (dmant d)) in
  (m =? 0)%N || ((m <? 10 ^ 15)%N && (10 ^ N.of_nat s <=? m * 10 ^ 6)%N).

(** [text] is what [String(x)] prints, as far as the model of the numbers
    tells: the decimal itself for a plain number. *)
Definition printedAs (x : option dec) (text : string) : Prop :=
  forall v, x = Some v -> plainNumber v = true -> text = Dec.to_string v.

(** "Any seek/duration flags": the flag and the printed number for a
    positive number, nothing for a number that is absent, zero or
    negative. *)
Definition expectedFlag (flag : string) (x : option dec) (text : string) : list string :=
  match x with
  | Some v => if (0 <? dmant v)%Z then [flag; text] else []
  | None => []
  end.

(** "Seek/duration flags immediately followed by the input path flag":
    the arguments of one input.  An image has no flags. *)
Definition inputGroup (h : Host) (r : resource) (group : list string) : Prop :=
  if isType "image" r then group = ["-i"; path_resolve h (path r)]
  else
    exists ssText tText,
      group = expectedFlag "-ss" (startTime r) ssText
              ++ expectedFlag "-t" (duration r) tText
              ++ ["-i"; path_resolve h (path r)]
      /\ printedAs (startTime r) ssText
      /\ printedAs (duration r) tText.

(** A video that starts at 2.5 seconds and has no duration. *)
Definition lateVideo : resource :=
  {| type := "video"; path := "/app/uploads/late.mp4"; duration := None;
     startTime := Some (mkDec 25 1); transition := None; transitionDuration := None;
     position := None; scaleMode := None; rotation := None; opacity := None; fade := None;
     fadeDuration := None; volume := None |}.

(** *** A background colour that carries graph text *)

(** The default options but for the background colour. *)
Definition colourOptions (colour : string) : options :=
  mkOptions None None None None None None None None None None None None (Some colour).

(** One uploaded photo. *)
Definition onePhoto : list resource := [plainResource "image" "/app/uploads/photo.png"].

(** "Pad labels are all distinct and the final video pad is [[outv]]",
    the pads being the output pads of the chains. *)
Definition padsAsSpecified (b : build) : Prop :=
  NoDup (map outPad (filterComplex b)) /\ In "[outv]" (map outPad (filterComplex b)).

(** A colour that closes the [pad] filter and opens a chain of its own. *)
Definition mixColour : string := ";[0:a]amix=inputs=1[outa]".

(** A colour without [=] that ends the chain it is written into with a
    pad of its own. *)
Definition padColour : string := "0x000000[outa];[0:v]null".

(** The chains of the graph as ffmpeg reads them from the emitted text. *)
Definition chainsOfText (b : build) : list string := Str.split ";" (filterGraphText b).

(** ** The request as the handler forwards it *)

(** The entry [toResourcePath] would push, had the handler copied the
    fields of the request without filling in a default. *)
Definition asGiven (filePath : string) (r : reqResource) : resource :=
  {| type := str_or (rq_type r) "";
     path := filePath;
     duration := rq_duration r;
     startTime := rq_startTime r;
     transition := rq_transition r;
     transitionDuration := rq_transitionDuration r;
     position := rq_position r;
     scaleMode := rq_scaleMode r;
     rotation := rq_rotation r;
     opacity := rq_opacity r;
     fade := rq_fade r;
     fadeDuration := rq_fadeDuration r;
     volume := rq_volume r |}.

(** A resource with the defaults of [composeVideo] written into its
    optional fields, as [toResourcePath] writes them. *)
Definition fillDefaults (r : resource) : resource :=
  {| type := type r;
     path := path r;
     duration := duration r;
     startTime := startTime r;
     transition := Some (str_or (transition r) "none");
     transitionDuration := Some (num_or (transitionDuration r) d0_5);
     position := Some (str_or (position r) "center");
     scaleMode := Some (str_or (scaleMode r) "fit");
     rotation := Some (num_or (rotation r) (Dec.of_Z 0));
     opacity := Some (num_default (opacity r) d100);
     fade := Some (str_or (fade r) "none");
     fadeDuration := Some (num_or (fadeDuration r) (Dec.of_Z 1));
     volume := Some (num_default (volume r) d100) |}.

(** The options of the request with the [resolution] text the handler
    computes, and nothing else filled in. *)
Definition withRequestResolution (o : options) : options :=
  {| width := width o; height := height o;
     resolution := resolution (composeOptions o);
     fps := fps o; videoCodec := videoCodec o; videoPreset := videoPreset o;
     videoCrf := videoCrf o; videoBitrate := videoBitrate o; audioCodec := audioCodec o;
     audioBitrate := audioBitrate o; audioSampleRate := audioSampleRate o;
     audioChannels := audioChannels o; backgroundColor := backgroundColor o |}.

(** A whole number of pixels. *)
Definition pixels (n : N) : dec := Dec.of_Z (Z.of_N n).

(** [Number.MAX_SAFE_INTEGER]: up to it a whole number is a JavaScript
    number, printed digit by digit. *)
Definition maxSafeInteger : N := 9007199254740991.

(** Options that give a resolution text only. *)
Definition resolutionOnly (r : string) : options :=
  mkOptions None None (Some r) None None None None None None None None None None.

(** Options that give a width and a height, and a resolution text. *)
Definition sizedOptions (w h : N) (r : option string) : options :=
  mkOptions (Some (pixels w)) (Some (pixels h)) r None None None None None None None None None
    None.

(** A request resource without a [type]. *)
Definition untypedResource : reqResource :=
  {| rq_type := None; rq_url := None; rq_filename := Some "photo.png"; rq_duration := None;
     rq_startTime := None; rq_transition := None; rq_transitionDuration := None;
     rq_position := None; rq_scaleMode := None; rq_rotation := None; rq_opacity := None;
     rq_fade := None; rq_fadeDuration := None; rq_volume := None |}.

(** The transitions that [buildTransitionFilter] knows, besides [none]. *)
Definition transitionNames : list string :=
  ["fade"; "fadein"; "fadeout"; "slideLeft"; "slideRight"; "slideUp"; "slideDown";
   "zoomIn"; "zoomOut"].

(** ** The other file handlers (server.js) *)

(** [fs.statSync]: what the path names; [None] when the call throws, the
    path being missing. *)
Definition statSync (fs : gmap string node) (p : string) : option node := fs !! p.

(** One element of [files] in the answer of [/api/files/list]. *)
Record fileInfo : Type := mkFileInfo {
  fi_name : string;
  fi_size : N;
  fi_sizeFormatted : string;
  fi_modified : Z;
  fi_isDirectory : bool;
  fi_url : string
}.

(** The answer of [/api/files/list]: the status and the fields of the
    body but [success] and [error]; an absent field is [None]. *)
Record listing : Type := mkListing {
  ls_status : nat;
  ls_files : option (list fileInfo);
  ls_directory : option string;
  ls_totalSize : option N;
  ls_totalSizeFormatted : option string
}.

(** The answer of [/api/files/clear], but [success], [message] and
    [error]. *)
Record clearing : Type := mkClearing {
  cl_status : nat;
  cl_deletedCount : option nat;
  cl_totalSize : option N;
  cl_totalSizeFormatted : option string
}.

(** [files.sort((a, b) => b.modified - a.modified)]: the sort of an array
    is stable, so an element stays before the later elements that compare
    equal to it. *)
Fixpoint insertNewest (x : fileInfo) (l : list fileInfo) : list fileInfo :=
  match l with
  | [] => [x]
  | y :: t => if (fi_modified y <=? fi_modified x)%Z then x :: l else y :: insertNewest x t
  end.

Fixpoint sortNewestFirst (l : list fileInfo) : list fileInfo :=
  match l with
  | [] => []
  | x :: t => insertNewest x (sortNewestFirst t)
  end.

(** Newest first: every element is at least as recent as the elements
    after it. *)
Fixpoint newestFirst (l : list fileInfo) : Prop :=
  match l with
  | [] => True
  | x :: t => Forall (fun y => (fi_modified y <= fi_modified x)%Z) t /\ newestFirst t
  end.

Section Files.

(** [__dirname] of server.js. *)
Variable dirname : string.

(** [fs.readdirSync]: the names of the entries of a directory, in the
    order of the platform; [None] when the call throws. *)
Variable readdirSync : gmap string node -> string -> option (list string).

(** [stats.size] and [stats.mtime] (in milliseconds) of a path. *)
Variable sizeOf : string -> N.
Variable mtimeOf : string -> Z.

(** [formatFileSize], a floating point computation. *)
Variable formatFileSize : N -> string.

(** *** [GET /api/files/list] *)

(** The object the [map] callback returns for one name. *)
Definition fileInfoOf (directory dirPath filename : string) (n : node) : fileInfo :=
  let filePath := Path.join dirPath filename in
  {| fi_name := filename;
     fi_size := sizeOf filePath;
     fi_sizeFormatted := formatFileSize (sizeOf filePath);
     fi_modified := mtimeOf filePath;
     fi_isDirectory := match n with Dir => true | File => false end;
     fi_url := "/" +:+ directory +:+ "/" +:+ filename |}.

(** [fs.readdirSync(dirPath).map(...)], left by the first [statSync] that
    throws. *)
Fixpoint statAll (fs : gmap string node) (directory dirPath : string) (names : list string)
    : option (list fileInfo) :=
  match names with
  | [] => Some []
  | filename :: rest =>
      match statSync fs (Path.join dirPath filename) with
      | Some n =>
          match statAll fs directory dirPath rest with
          | Some infos => Some (fileInfoOf directory dirPath filename n :: infos)
          | None => None
          end
      | None => None
      end
  end.

(** [files.reduce((sum, file) => sum + file.size, 0)] *)
Definition totalSizeOf (files : list fileInfo) : N :=
  fold_left (fun sum file => (sum + fi_size file)%N) files 0%N.

Definition listFiles (fs : gmap string node) (directory : option string) : listing :=
  if negb (validDirectory directory) then mkListing 400 None None None None
  else
    let dirPath := dirPathOf dirname directory in
    if negb (Disk.existsSync fs dirPath) then mkListing 200 (Some []) None None None
    else
      match readdirSync fs dirPath with
      | None => mkListing 500 None None None None
      | Some names =>
          match statAll fs (default "" directory) dirPath names with
          | None => mkListing 500 None None None None
          | Some infos =>
              let files :=
                sortNewestFirst (filter (fun file => negb (fi_isDirectory file)) infos) in
              mkListing 200 (Some files) directory (Some (totalSizeOf files))
                (Some (formatFileSize (totalSizeOf files)))
          end
      end.

(** *** [DELETE /api/files/clear] *)

(** [files.forEach]: the disk it leaves, with [deletedCount] and
    [totalSize], or with [None] when a call threw and left the loop. *)
Fixpoint clearLoop (fs : gmap string node) (dirPath : string) (files : list string)
    (deletedCount : nat) (totalSize : N) : gmap string node * option (nat * N) :=
  match files with
  | [] => (fs, Some (deletedCount, totalSize))
  | filename :: rest =>
      let filePath := Path.join dirPath filename in
      match statSync fs filePath with
      | None => (fs, None)
      | Some Dir => clearLoop fs dirPath rest deletedCount totalSize
      | Some File =>
          match Disk.unlinkSync fs filePath with
          | Some fs' =>
              clearLoop fs' dirPath rest (S deletedCount) (totalSize + sizeOf filePath)%N
          | None => (fs, None)
          end
      end
  end.

Definition clearFiles (fs : gmap string node) (directory : option string)
    : clearing * gmap string node :=
  if negb (validDirectory directory) then (mkClearing 400 None None None, fs)
  else
    let dirPath := dirPathOf dirname directory in
    if negb (Disk.existsSync fs dirPath) then (mkClearing 200 None None None, fs)
    else
      match readdirSync fs dirPath with
      | None => (mkClearing 500 None None None, fs)
      | Some files =>
          match clearLoop fs dirPath files 0 0%N with
          | (fs', Some (deletedCount, totalSize)) =>
              (mkClearing 200 (Some deletedCount) (Some totalSize)
                 (Some (formatFileSize totalSize)), fs')
          | (fs', None) => (mkClearing 500 None None None, fs')
          end
      end.

End Files.

(** The name of a path directly inside a directory. *)
Definition childName (dir p : string) : option string :=
  if Str.startsWith p (dir +:+ "/") then
    let name := Str.drop (String.length dir + 1) p in
    if plainSeg name then Some name else None
  else None.

(** A [readdirSync] for the disk of the model: the entries directly inside
    a directory; it throws on a file and on a missing path. *)
Definition diskReaddir (fs : gmap string node) (dir : string) : option (list string) :=
  match fs !! dir with
  | Some Dir => Some (omap (childName dir) (map_to_list fs).*1)
  | _ => None
  end.

(** What [readdirSync] is taken to do: on a directory it returns, without
    repetition, the names of the entries directly inside it, a name holding
    no separator and being neither empty, [.] nor [..]. *)
Definition readdirContract (readdirSync : gmap string node -> string -> option (list string))
    : Prop :=
  forall fs dir,
    match readdirSync fs dir with
    | Some names =>
        NoDup names
        /\ forall name,
             name ∈ names <-> plainSeg name = true /\ is_Some (fs !! (dir +:+ "/" +:+ name))
    | None => fs !! dir <> Some Dir
    end.

(** The regular files directly inside a directory. *)
Definition isFileIn (fs : gmap string node) (dir name : string) : bool :=
  match fs !! (dir +:+ "/" +:+ name) with
  | Some File => true
  | _ => false
  end.

(** The names among [names] of the regular files of a directory, and the
    sum of their sizes. *)
Definition filesAmong (fs : gmap string node) (dir : string) (names : list string)
    : list string :=
  List.filter (isFileIn fs dir) names.

Definition sizeSum (sizeOf : string -> N) (dir : string) (names : list string) : N :=
  fold_right (fun name sum => (sizeOf (dir +:+ "/" +:+ name) + sum)%N) 0%N names.

(** File sizes and dates for the examples: every file of 1000 bytes,
    dated by the length of its path. *)
Definition demoSize (p : string) : N := 1000.
Definition demoTime (p : string) : Z := Z.of_nat (String.length p).
Definition demoFormat (n : N) : string := pretty n +:+ " B".

(** A disk with two uploads and a directory among them. *)
Definition uploadsDisk : gmap string node :=
  <["/app/uploads/b.jpeg" := File]>
    (<["/app/uploads/keep" := Dir]> (<["/app/uploads/a.mp4" := File]> demoDisk)).

(** ** The path of the encoder (lib/ffmpeg.js, [getFFmpegPath]) *)

Definition commonPaths : list string :=
  ["C:\ffmpeg\bin\ffmpeg.exe";
   "C:\Program Files\ffmpeg\bin\ffmpeg.exe";
   "C:\Program Files (x86)\ffmpeg\bin\ffmpeg.exe";
   "D:\ffmpeg\bin\ffmpeg.exe";
   "E:\ffmpeg\bin\ffmpeg.exe"].

(** [process.env.FFMPEG_PATH] and [process.env.PATH] are the two optional
    texts; [path.delimiter] is the colon of POSIX. *)
Definition getFFmpegPath (envFFmpegPath envPath : option string) (existsSync : string -> bool)
    : string :=
  if Str.truthy (str_or envFFmpegPath "") then str_or envFFmpegPath ""
  else
    match List.find existsSync commonPaths with
    | Some ffmpegPath => ffmpegPath
    | None =>
        let pathEnv := str_or envPath "" in
        let pathDirs := Str.split ":" pathEnv in
        match List.find existsSync (map (fun dir => Path.join dir "ffmpeg.exe") pathDirs) with
        | Some ffmpegPath => ffmpegPath
        | None => "ffmpeg"
        end
    end.

(** The paths [getFFmpegPath] probes, in the order in which it probes
    them: the five Windows paths, then [ffmpeg.exe] in every directory of
    [PATH]. *)
Definition ffmpegCandidates (envPath : option string) : list string :=
  commonPaths ++ map (fun dir => Path.join dir "ffmpeg.exe") (Str.split ":" (str_or envPath "")).

(** ** The extension of a download (server.js, [downloadFromUrl]) *)

(** The characters of ASCII.  On a text made of them the white space that
    [trim] removes is the white space of [Str.is_space]. *)
Definition asciiChar (c : ascii) : bool := Nat.ltb (nat_of_ascii c) 128.

(** ASCII letters in lower case; the other characters are kept. *)
Definition lowerChar (c : ascii) : ascii :=
  let n := nat_of_ascii c in
  if Nat.leb 65 n && Nat.leb n 90 then ascii_of_nat (n + 32) else c.

Fixpoint toLowerCase (s : string) : string :=
  match s with
  | EmptyString => ""
  | String c s' => String (lowerChar c) (toLowerCase s')
  end.

Definition mimeToExt : list (string * string) :=
  [("video/mp4", ".mp4"); ("video/avi", ".avi"); ("video/quicktime", ".mov");
   ("video/x-msvideo", ".avi"); ("video/webm", ".webm"); ("image/jpeg", ".jpg");
   ("image/jpg", ".jpg"); ("image/png", ".png"); ("image/gif", ".gif");
   ("image/webp", ".webp"); ("image/bmp", ".bmp"); ("audio/mpeg", ".mp3");
   ("audio/mp3", ".mp3"); ("audio/wav", ".wav"); ("audio/aac", ".aac");
   ("audio/ogg", ".ogg")].

(** The members every object literal inherits from [Object.prototype]. *)
Definition inheritedKeys : list string :=
  ["constructor"; "__defineGetter__"; "__defineSetter__"; "hasOwnProperty";
   "__lookupGetter__"; "__lookupSetter__"; "isPrototypeOf"; "propertyIsEnumerable";
   "toString"; "valueOf"; "__proto__"; "toLocaleString"].

Fixpoint assoc (k : string) (l : list (string * string)) : option string :=
  match l with
  | [] => None
  | (k', v) :: t => if String.eqb k k' then Some v else assoc k t
  end.

(** The value of [ext]: a text, or the inherited member a lookup in
    [mimeToExt] found. *)
Inductive extValue : Type :=
| ExtText (s : string)
| ExtInherited (key : string).

(** [mimeToExt[k]]; [None] is [undefined]. *)
Definition mimeLookup (k : string) : option extValue :=
  match assoc k mimeToExt with
  | Some e => Some (ExtText e)
  | None => if existsb (String.eqb k) inheritedKeys then Some (ExtInherited k) else None
  end.

(** [ext], from [pathExt], the value of [path.extname(urlObj.pathname)],
    and from the [content-type] header of the response. *)
Definition chooseExt (pathExt : string) (contentType : option string) : extValue :=
  let ext := hd "" (Str.split "?" pathExt) in
  if Str.truthy ext then ExtText ext
  else
    let contentTypeBase :=
      if Str.truthy (str_or contentType "")
      then Str.trim (hd "" (Str.split ";" (str_or contentType "")))
      else "" in
    match mimeLookup contentTypeBase with
    | Some v => v
    | None =>
        match contentType with
        | Some ct =>
            match mimeLookup ct with
            | Some v => v
            | None => ExtText ".jpg"
            end
        | None => ExtText ".jpg"
        end
    end.

(** [/\.(jpg|jpeg|png|gif|webp|bmp)$/i.test(ext)]; the text of an
    inherited member, a function or an object, ends in a bracket. *)
Definition isImageExt (ext : extValue) : bool :=
  match ext with
  | ExtText s =>
      existsb (fun e => Str.endsWith (toLowerCase s) ("." +:+ e))
        ["jpg"; "jpeg"; "png"; "gif"; "webp"; "bmp"]
  | ExtInherited _ => false
  end.

(** ** The page (public/app.js) *)

(** [detectResourceType]; its caller passes the path of a URL, which is
    ASCII. *)
Definition imageExts : list string := ["jpg"; "jpeg"; "png"; "gif"; "bmp"; "webp"].
Definition videoExts : list string :=
  ["mp4"; "avi"; "mov"; "mkv"; "flv"; "webm"; "m4v"; "3gp"; "wmv"].
Definition audioExts : list string := ["mp3"; "wav"; "aac"; "ogg"; "m4a"; "flac"].

(** [includes] of an array of texts. *)
Definition includesText (l : list string) (x : string) : bool := existsb (String.eqb x) l.

(** [filename.toLowerCase().split('.').pop()] *)
Definition extensionOf (filename : string) : string :=
  default "" (last (Str.split "." (toLowerCase filename))).

Definition detectResourceType (filename : string) : string :=
  let ext := extensionOf filename in
  if includesText imageExts ext then "image"
  else if includesText videoExts ext then "video"
  else if includesText audioExts ext then "audio"
  else "unknown".

(** The part of the page state that [removeResource] updates: the list of
    resources and [editingResourceIndex], [None] being [null]. *)
Record pageState (A : Type) : Type := mkPageState {
  ps_resources : list A;
  ps_editing : option nat
}.
Arguments mkPageState {A} _ _.
Arguments ps_resources {A} _.
Arguments ps_editing {A} _.

(** [removeResource(index)].  Without a resource at [index] the [splice]
    removes nothing and reading [resource.originalName] throws. *)
Definition removeResource {A : Type} (st : pageState A) (index : nat) : result (pageState A) :=
  match ps_resources st !! index with
  | None => Throw "TypeError"
  | Some _ =>
      OK {| ps_resources := delete index (ps_resources st);
            ps_editing :=
              match ps_editing st with
              | None => None
              | Some e =>
                  if (e =? index)%nat then None
                  else if (index <? e)%nat then Some (e - 1)
                  else Some e
              end |}
  end.

(** * Properties *)

(** ** The JavaScript primitives on small inputs *)

Example to_string_half : Dec.to_string (mkDec 5 1) = "0.5".
Proof. reflexivity. Qed.
Example to_string_neg : Dec.to_string (mkDec (-1250) 3) = "-1.25".
Proof. reflexivity. Qed.
Example to_string_small : Dec.to_string (mkDec 5 2) = "0.05".
Proof. reflexivity. Qed.
Example to_string_int : Dec.to_string (Dec.sub (Dec.of_Z 3) (mkDec 5 1)) = "2.5".
Proof. reflexivity. Qed.
Example split_x : Str.split "x" "1280x720" = ["1280"; "720"].
Proof. reflexivity. Qed.
Example replace_first : Str.replace "a[v0]b[v0]" "[v0]" "[outv]" = "a[outv]b[v0]".
Proof. reflexivity. Qed.
Example trim_ex : Str.trim "  ab c  " = "ab c".
Proof. reflexivity. Qed.
Example endsWith_ex : Str.endsWith "abc[v0]" "[v0]" = true.
Proof. reflexivity. Qed.
Example parseInt_ex : ParseInt.parseInt "  720p" = Some 720%Z.
Proof. reflexivity. Qed.
Example parseInt_hex : ParseInt.parseInt "0X10" = Some 16%Z.
Proof. reflexivity. Qed.
Example parseInt_nan : ParseInt.parseInt "px" = None.
Proof. reflexivity. Qed.
Example normalize_ex : Path.normalize "/app/./uploads/../output//x.mp4" = "/app/output/x.mp4".
Proof. reflexivity. Qed.
Example join_ex : Path.join "/app/uploads" "../server.js" = "/app/server.js".
Proof. reflexivity. Qed.
Example count_ex : Str.count "[v0][v1]concat=n=2:v=1:a=0[outv]" "concat=" = 1.
Proof. reflexivity. Qed.
Example outPad_ex : outPad "[2:a]volume=0.5[a2]" = "[a2]".
Proof. reflexivity. Qed.
Example bareHost_ex :
  composeVideo (fun d => d) noOptions bareHost tt (Some [plainResource "image" "a.png"]) "o.mp4"
  = Throw Err.mkdirFailed.
Proof. reflexivity. Qed.

(** ** Strings *)

Module StrFacts.

Lemma app_nil_l (a : string) : "" +:+ a = a.
Proof. reflexivity. Qed.

Lemma app_cons x (a b : string) : String x a +:+ b = String x (a +:+ b).
Proof. reflexivity. Qed.

Ltac app_step := rewrite ?app_nil_l, ?app_cons; simpl.

Lemma app_assoc (a b c : string) : (a +:+ b) +:+ c = a +:+ (b +:+ c).
Proof. induction a as [|x a IH]; app_step; [reflexivity|f_equal; exact IH]. Qed.

Lemma app_nil_r (a : string) : a +:+ "" = a.
Proof. induction a as [|x a IH]; app_step; [reflexivity|f_equal; exact IH]. Qed.

Lemma length_app (a b : string) :
  String.length (a +:+ b) = String.length a + String.length b.
Proof. induction a as [|x a IH]; app_step; [reflexivity|f_equal; exact IH]. Qed.

Lemma all_app f (a b : string) : Str.all f (a +:+ b) = Str.all f a && Str.all f b.
Proof.
  induction a as [|x a IH]; app_step; [reflexivity|].
  rewrite IH, andb_assoc. reflexivity.
Qed.

Lemma all_drop f n (s : string) : Str.all f s = true -> Str.all f (Str.drop n s) = true.
Proof.
  revert s. induction n as [|n IH]; intros s Hs; [destruct s; exact Hs|].
  destruct s as [|x s]; [reflexivity|]. simpl in *.
  apply andb_true_iff in Hs as [_ Hs]. apply IH. exact Hs.
Qed.

Lemma drop_app (a b : string) n :
  Str.drop (String.length a + n) (a +:+ b) = Str.drop n b.
Proof. induction a as [|x a IH]; app_step; [reflexivity|exact IH]. Qed.

Lemma startsWith_app (p s : string) : Str.startsWith (p +:+ s) p = true.
Proof.
  induction p as [|x p IH]; app_step; [destruct s; reflexivity|].
  rewrite Ascii.eqb_refl. exact IH.
Qed.

Lemma startsWith_inv (s p : string) :
  Str.startsWith s p = true -> exists t, s = p +:+ t.
Proof.
  revert s. induction p as [|x p IH]; intros s Hs.
  - exists s. reflexivity.
  - destruct s as [|y s]; [discriminate|]. simpl in Hs.
    destruct (Ascii.eqb_spec x y) as [->|]; [|discriminate].
    destruct (IH s Hs) as [t ->]. exists t. reflexivity.
Qed.

Lemma drop_length_app (a b : string) : Str.drop (String.length a) (a +:+ b) = b.
Proof. induction a as [|x a IH]; app_step; [destruct b; reflexivity|exact IH]. Qed.

(** [endsWith] looks at the end only. *)
Lemma endsWith_app (a b p : string) :
  String.length p <= String.length b ->
  Str.endsWith (a +:+ b) p = Str.endsWith b p.
Proof.
  intros Hlen. unfold Str.endsWith. rewrite length_app.
  destruct (Nat.leb_spec (String.length p) (String.length b)) as [_|]; [|lia].
  destruct (Nat.leb_spec (String.length p) (String.length a + String.length b)) as [_|];
    [|lia].
  replace (String.length a + String.length b - String.length p)
    with (String.length a + (String.length b - String.length p)) by lia.
  rewrite drop_app. reflexivity.
Qed.

Lemma endsWith_self (a p : string) : Str.endsWith (a +:+ p) p = true.
Proof.
  rewrite endsWith_app by lia. unfold Str.endsWith.
  rewrite Nat.leb_refl, Nat.sub_diag. simpl.
  destruct p; apply String.eqb_refl.
Qed.

Lemma endsWith_char_free (s : string) c :
  Str.all (notChar c) s = true -> Str.endsWith s (String c "") = false.
Proof.
  intros Hs. unfold Str.endsWith.
  destruct (Nat.leb (String.length (String c "")) (String.length s)); [|reflexivity].
  apply String.eqb_neq. intros Heq.
  pose proof (all_drop _ (String.length s - String.length (String c "")) s Hs) as Hd.
  rewrite Heq in Hd. simpl in Hd. unfold notChar in Hd.
  rewrite Ascii.eqb_refl in Hd. discriminate.
Qed.

Lemma includes_char (s : string) c :
  Str.includes s (String c "") = false -> Str.all (notChar c) s = true.
Proof.
  induction s as [|x s IH]; intros Hs; [reflexivity|].
  simpl in Hs. simpl. unfold notChar at 1.
  rewrite (Ascii.eqb_sym x c).
  destruct (Ascii.eqb c x); [destruct s; discriminate|].
  simpl. apply IH. exact Hs.
Qed.

Lemma includes_self (s : string) : Str.includes s s = true.
Proof.
  destruct s as [|x s]; [reflexivity|].
  simpl. rewrite Ascii.eqb_refl.
  assert (Hp : Str.startsWith s s = true).
  { pose proof (startsWith_app s "") as H. rewrite app_nil_r in H. exact H. }
  rewrite Hp. reflexivity.
Qed.

Lemma split_nonempty c (s : string) : Str.split c s <> [].
Proof.
  destruct s as [|x s]; simpl; [discriminate|].
  destruct (Ascii.eqb x c); [discriminate|].
  destruct (Str.split c s); discriminate.
Qed.

Lemma split_app_sep c (a b : string) :
  Str.split c (a +:+ String c b) = Str.split c a ++ Str.split c b.
Proof.
  induction a as [|x a IH]; app_step.
  - rewrite Ascii.eqb_refl. reflexivity.
  - destruct (Ascii.eqb x c); [rewrite IH; reflexivity|].
    rewrite IH. pose proof (split_nonempty c a) as Hne.
    destruct (Str.split c a); [contradiction|reflexivity].
Qed.

Lemma split_free c (s : string) : Str.all (notChar c) s = true -> Str.split c s = [s].
Proof.
  induction s as [|x s IH]; intros Hs; [reflexivity|].
  simpl in *. apply andb_true_iff in Hs as [Hx Hs].
  unfold notChar in Hx. apply negb_true_iff in Hx. rewrite Hx, (IH Hs). reflexivity.
Qed.

Lemma split_all c (s : string) :
  Forall (fun seg => Str.all (notChar c) seg = true) (Str.split c s).
Proof.
  induction s as [|x s IH]; simpl; [repeat constructor|].
  destruct (Ascii.eqb x c) eqn:Hx; [constructor; [reflexivity|exact IH]|].
  destruct (Str.split c s) as [|y t]; [repeat constructor; simpl|].
  - unfold notChar. rewrite Hx. reflexivity.
  - inversion IH; subst. constructor; [|assumption].
    simpl. unfold notChar at 1. rewrite Hx. simpl. assumption.
Qed.

Lemma join_cons sep x y (l : list string) :
  Str.join sep (x :: y :: l) = x +:+ sep +:+ Str.join sep (y :: l).
Proof. reflexivity. Qed.

Lemma join_snoc sep (l : list string) x :
  l <> [] -> Str.join sep (l ++ [x]) = Str.join sep l +:+ sep +:+ x.
Proof.
  induction l as [|y l IH]; intros Hne; [contradiction|].
  destruct l as [|z l]; [reflexivity|].
  change ((y :: z :: l) ++ [x]) with (y :: ((z :: l) ++ [x])).
  change ((z :: l) ++ [x]) with (z :: (l ++ [x])) at 1.
  rewrite join_cons. change (z :: (l ++ [x])) with ((z :: l) ++ [x]).
  rewrite IH by discriminate. rewrite join_cons, !app_assoc. reflexivity.
Qed.

Lemma split_join c (l : list string) :
  l <> [] -> Forall (fun seg => Str.all (notChar c) seg = true) l ->
  Str.split c (Str.join (String c "") l) = l.
Proof.
  induction l as [|x l IH]; intros Hne Hall; [contradiction|].
  inversion Hall as [|? ? Hx Hl]; subst.
  destruct l as [|y l]; [apply split_free; exact Hx|].
  rewrite join_cons. change (String c "" +:+ Str.join (String c "") (y :: l))
    with (String c (Str.join (String c "") (y :: l))).
  rewrite split_app_sep, (split_free c x Hx), IH by (discriminate || assumption).
  reflexivity.
Qed.

End StrFacts.

(** ** Paths *)

Module PathFacts.

Import StrFacts.

Lemma normalizeSegs_stackOf a segs st :
  Path.normalizeSegs a segs st = rev (stackOf a segs st).
Proof.
  revert st. induction segs as [|seg rest IH]; intros st; simpl; [reflexivity|].
  destruct (String.eqb seg "" || String.eqb seg "."); [apply IH|].
  destruct (Path.isDots seg); [|apply IH].
  destruct st as [|top below]; [apply IH|].
  destruct (Path.isDots top); apply IH.
Qed.

Lemma stackOf_app a xs ys st :
  stackOf a (xs ++ ys) st = stackOf a ys (stackOf a xs st).
Proof.
  revert st. induction xs as [|seg rest IH]; intros st; simpl; [reflexivity|].
  destruct (String.eqb seg "" || String.eqb seg "."); [apply IH|].
  destruct (Path.isDots seg); [|apply IH].
  destruct st as [|top below]; [apply IH|].
  destruct (Path.isDots top); apply IH.
Qed.

Lemma stackOf_push a seg st :
  cleanSeg seg = true -> stackOf a [seg] st = seg :: st.
Proof.
  unfold cleanSeg. intros Hc. apply andb_true_iff in Hc as [H1 H2].
  apply negb_true_iff in H1, H2. simpl. rewrite H1, H2. reflexivity.
Qed.

Lemma stackOf_clean a xs st :
  Forall (fun seg => cleanSeg seg = true) xs -> stackOf a xs st = rev xs ++ st.
Proof.
  revert st. induction xs as [|seg rest IH]; intros st Hall; [reflexivity|].
  inversion Hall as [|? ? Hseg Hrest]; subst.
  change (seg :: rest) with ([seg] ++ rest).
  rewrite stackOf_app, (stackOf_push a seg st Hseg), (IH _ Hrest).
  simpl. rewrite <- List.app_assoc. reflexivity.
Qed.

Lemma plainSeg_clean seg : plainSeg seg = true -> cleanSeg seg = true.
Proof. unfold plainSeg. intros H. apply andb_true_iff in H as [H _]. exact H. Qed.

Lemma plainSeg_free seg : plainSeg seg = true -> Str.all (notChar "/") seg = true.
Proof. unfold plainSeg. intros H. apply andb_true_iff in H as [_ H]. exact H. Qed.

(** Without [allowAboveRoot] the stack only ever holds clean segments. *)
Lemma stackOf_plain segs st :
  Forall (fun seg => Str.all (notChar "/") seg = true) segs ->
  Forall (fun seg => plainSeg seg = true) st ->
  Forall (fun seg => plainSeg seg = true) (stackOf false segs st).
Proof.
  revert st. induction segs as [|seg rest IH]; intros st Hsegs Hst; [exact Hst|].
  inversion Hsegs as [|? ? Hseg Hrest]; subst. simpl.
  destruct (String.eqb seg "" || String.eqb seg ".") eqn:H1; [apply IH; assumption|].
  destruct (Path.isDots seg) eqn:H2.
  - destruct st as [|top below]; [apply IH; assumption|].
    inversion Hst; subst.
    destruct (Path.isDots top); apply IH; assumption.
  - apply IH; [assumption|]. constructor; [|assumption].
    unfold plainSeg, cleanSeg. rewrite H1, H2, Hseg. reflexivity.
Qed.

Lemma plain_nonempty seg : plainSeg seg = true -> seg <> "".
Proof. intros H ->. discriminate. Qed.

Lemma join_last_nonempty (l : list string) x :
  x <> "" -> Str.join "/" (l ++ [x]) <> "".
Proof.
  intros Hx. destruct l as [|y l]; [exact Hx|].
  rewrite join_snoc by discriminate. intros Heq.
  apply (f_equal String.length) in Heq. rewrite !length_app in Heq. simpl in Heq. lia.
Qed.

Lemma segsOf_plain dir : Forall (fun seg => plainSeg seg = true) (segsOf dir).
Proof.
  unfold segsOf. apply Forall_rev. apply stackOf_plain; [apply split_all|constructor].
Qed.

Lemma normalize_absolute dir leaf :
  Str.startsWith dir "/" = true ->
  Str.all (notChar "/") leaf = true -> leaf <> "" ->
  stackOf false [leaf] (stackOf false (Str.split "/" dir) []) <> [] ->
  Path.join dir leaf
  = "/" +:+ Str.join "/" (rev (stackOf false [leaf] (stackOf false (Str.split "/" dir) []))).
Proof.
  intros Habs Hfree Hne Hstack.
  apply startsWith_inv in Habs as [t ->].
  rewrite app_cons, app_nil_l in *.
  unfold Path.join.
  destruct leaf as [|c leaf']; [contradiction|].
  set (leaf := String c leaf') in *.
  rewrite app_cons. unfold Path.normalize.
  assert (Habs : Str.startsWith (String "/" (t +:+ "/" +:+ leaf)) "/" = true).
  { simpl. destruct (t +:+ "/" +:+ leaf); reflexivity. }
  assert (Htrail : Str.endsWith (String "/" (t +:+ "/" +:+ leaf)) "/" = false).
  { rewrite <- app_cons, <- StrFacts.app_assoc, endsWith_app by (simpl; lia).
    apply endsWith_char_free. exact Hfree. }
  rewrite Habs, Htrail. simpl negb.
  assert (Hsplit : Str.split "/" (String "/" (t +:+ "/" +:+ leaf))
                   = Str.split "/" (String "/" t) ++ [leaf]).
  { rewrite <- app_cons. change ("/" +:+ leaf) with (String "/" leaf).
    rewrite split_app_sep, (split_free "/" leaf Hfree). reflexivity. }
  rewrite Hsplit, normalizeSegs_stackOf, stackOf_app.
  destruct (Str.join "/" (rev (stackOf false [leaf]
              (stackOf false (Str.split "/" (String "/" t)) [])))) eqn:Hq; [|reflexivity].
  exfalso.
  destruct (stackOf false [leaf] (stackOf false (Str.split "/" (String "/" t)) []))
    as [|top below] eqn:Hst; [contradiction|].
  assert (Hplain : Forall (fun seg => plainSeg seg = true) (top :: below)).
  { rewrite <- Hst. apply stackOf_plain; [repeat constructor; exact Hfree|].
    apply stackOf_plain; [apply split_all|constructor]. }
  inversion Hplain as [|? ? Htop _]; subst.
  simpl in Hq. revert Hq. apply join_last_nonempty. apply plain_nonempty. exact Htop.
Qed.

(** A plain name joined to an absolute directory is appended to the
    normalized directory. *)
Lemma join_plain dir leaf :
  Str.startsWith dir "/" = true -> plainSeg leaf = true ->
  Path.join dir leaf = "/" +:+ Str.join "/" (segsOf dir ++ [leaf]).
Proof.
  intros Habs Hplain.
  rewrite normalize_absolute;
    [|assumption|apply plainSeg_free; assumption|apply plain_nonempty; assumption|].
  - rewrite stackOf_push by (apply plainSeg_clean; assumption). reflexivity.
  - rewrite stackOf_push by (apply plainSeg_clean; assumption). discriminate.
Qed.

Lemma segsOf_normalized (l : list string) :
  l <> [] -> Forall (fun seg => plainSeg seg = true) l ->
  segsOf ("/" +:+ Str.join "/" l) = l.
Proof.
  intros Hne Hall. unfold segsOf.
  change ("/" +:+ Str.join "/" l) with ("" +:+ String "/" (Str.join "/" l)).
  rewrite split_app_sep, split_join;
    [|assumption|eapply Forall_impl; [exact Hall|intros ? ?; apply plainSeg_free; assumption]].
  change (Str.split "/" "" ++ l) with ("" :: l).
  change (stackOf false ("" :: l) []) with (stackOf false l []).
  rewrite stackOf_clean, List.app_nil_r, rev_involutive; [reflexivity|].
  eapply Forall_impl; [exact Hall|]. intros ? ?. apply plainSeg_clean. assumption.
Qed.

(** Inside a directory made by [path.join] a plain name is a direct
    child, and ["."] is the directory itself. *)
Lemma join_child root sub name :
  Str.startsWith root "/" = true -> plainSeg sub = true -> plainSeg name = true ->
  Path.join (Path.join root sub) name = Path.join root sub +:+ "/" +:+ name.
Proof.
  intros Habs Hsub Hname.
  rewrite (join_plain root sub Habs Hsub).
  set (l := segsOf root ++ [sub]).
  assert (Hl : l <> []) by (unfold l; destruct (segsOf root); discriminate).
  assert (Hall : Forall (fun seg => plainSeg seg = true) l).
  { unfold l. apply Forall_app. split; [apply segsOf_plain|repeat constructor; exact Hsub]. }
  rewrite join_plain by (reflexivity || assumption).
  rewrite (segsOf_normalized l Hl Hall), join_snoc by assumption.
  rewrite <- !StrFacts.app_assoc. reflexivity.
Qed.

Lemma join_dot root sub :
  Str.startsWith root "/" = true -> plainSeg sub = true ->
  Path.join (Path.join root sub) "." = Path.join root sub.
Proof.
  intros Habs Hsub.
  rewrite (join_plain root sub Habs Hsub).
  set (l := segsOf root ++ [sub]).
  assert (Hl : l <> []) by (unfold l; destruct (segsOf root); discriminate).
  assert (Hall : Forall (fun seg => plainSeg seg = true) l).
  { unfold l. apply Forall_app. split; [apply segsOf_plain|repeat constructor; exact Hsub]. }
  pose proof (segsOf_normalized l Hl Hall) as Hsegs. unfold segsOf in Hsegs.
  rewrite normalize_absolute; try reflexivity; try discriminate.
  - change (stackOf false ["."] ?st) with st. rewrite Hsegs. reflexivity.
  - change (stackOf false ["."] ?st) with st. intros Hnil.
    rewrite Hnil in Hsegs. simpl in Hsegs. congruence.
Qed.

End PathFacts.

(** ** Occurrences of a pattern in a text *)

Module CountFacts.

Import StrFacts.

Lemma suffixes_tail q0 q s :
  In (String q0 q) (suffixes s) -> q <> "" -> In q (suffixes s).
Proof.
  induction s as [|c s IH]; intros Hin Hq; [destruct Hin|].
  simpl in Hin. destruct Hin as [Heq|Hin].
  - injection Heq as _ ->. right. destruct q; [contradiction|left; reflexivity].
  - right. apply IH; assumption.
Qed.

Lemma suffixes_nonempty q s : In q (suffixes s) -> q <> "".
Proof.
  induction s as [|c s IH]; intros Hin; [destruct Hin|].
  destruct Hin as [<-|Hin]; [discriminate|apply IH; exact Hin].
Qed.

Section Pattern.

Variable pat : string.

Lemma startsWith_nil_l q : q <> "" -> Str.startsWith "" q = false.
Proof. destruct q; [contradiction|reflexivity]. Qed.

Lemma headFree_spec s :
  headFree pat s = true <->
  forall q, In q (properSuffixes pat) -> Str.startsWith s q = false.
Proof.
  unfold headFree. rewrite forallb_forall. split; intros H q Hq.
  - apply negb_true_iff. apply H. exact Hq.
  - apply negb_true_iff. apply H. exact Hq.
Qed.

(** Past a text that is head-free, a suffix of the pattern starts in
    [a +:+ b] exactly when it starts in [a]. *)
Lemma startsWith_suffix_app a b q :
  headFree pat b = true -> In q (properSuffixes pat) ->
  Str.startsWith (a +:+ b) q = Str.startsWith a q.
Proof.
  intros Hb. revert q. induction a as [|c a IH]; intros q Hq.
  - rewrite app_nil_l. rewrite (proj1 (headFree_spec b) Hb q Hq).
    symmetry. apply startsWith_nil_l.
    destruct pat; [destruct Hq|]. eapply suffixes_nonempty. exact Hq.
  - rewrite app_cons. destruct q as [|q0 q]; [reflexivity|]. simpl.
    destruct (Ascii.eqb q0 c); [|reflexivity].
    destruct q as [|q1 q]; [reflexivity|].
    apply IH. destruct pat; [destruct Hq|].
    eapply suffixes_tail; [exact Hq|discriminate].
Qed.

Lemma startsWith_pat_app c a b :
  headFree pat b = true ->
  Str.startsWith (String c a +:+ b) pat = Str.startsWith (String c a) pat.
Proof.
  intros Hb. rewrite app_cons. destruct pat as [|p0 p] eqn:Hpat; [reflexivity|]. simpl.
  destruct (Ascii.eqb p0 c); [|reflexivity].
  destruct p as [|p1 p]; [reflexivity|].
  rewrite <- Hpat in Hb.
  apply (startsWith_suffix_app a b (String p1 p) Hb).
  rewrite Hpat. left. reflexivity.
Qed.

Lemma count_nil : pat <> "" -> Str.count "" pat = 0.
Proof. destruct pat; [contradiction|reflexivity]. Qed.

(** Occurrences add up over a concatenation whose second part is
    head-free. *)
Lemma count_app a b :
  pat <> "" -> headFree pat b = true ->
  Str.count (a +:+ b) pat = Str.count a pat + Str.count b pat.
Proof.
  intros Hpat Hb. induction a as [|c a IH].
  - rewrite app_nil_l, (count_nil Hpat). reflexivity.
  - change (Str.count (String c a +:+ b) pat)
      with ((if Str.startsWith (String c a +:+ b) pat then 1 else 0)
            + Str.count (a +:+ b) pat).
    rewrite (startsWith_pat_app c a b Hb), IH. simpl. lia.
Qed.

Lemma headFree_app a b :
  headFree pat b = true -> headFree pat (a +:+ b) = headFree pat a.
Proof.
  intros Hb. unfold headFree.
  assert (H : forall l, (forall q, In q l -> In q (properSuffixes pat)) ->
            forallb (fun q => negb (Str.startsWith (a +:+ b) q)) l
            = forallb (fun q => negb (Str.startsWith a q)) l).
  { induction l as [|q l IH]; intros Hl; [reflexivity|].
    simpl. rewrite (startsWith_suffix_app a b q Hb) by (apply Hl; left; reflexivity).
    rewrite IH; [reflexivity|]. intros q' Hq'. apply Hl. right. exact Hq'. }
  apply H. auto.
Qed.

(** What starts a text starts every text that it begins; so the
    beginning of a head-free text without an occurrence is one. *)
Lemma startsWith_prefix a b q :
  Str.startsWith a q = true -> Str.startsWith (a +:+ b) q = true.
Proof.
  revert a. induction q as [|q0 q IH]; intros a Ha; [destruct (a +:+ b); reflexivity|].
  destruct a as [|c a]; [discriminate|]. rewrite app_cons. simpl in *.
  destruct (Ascii.eqb q0 c); [apply IH; exact Ha|discriminate].
Qed.

Lemma headFree_prefix a b : headFree pat (a +:+ b) = true -> headFree pat a = true.
Proof.
  rewrite !headFree_spec. intros H q Hq.
  destruct (Str.startsWith a q) eqn:Ha; [|reflexivity].
  rewrite <- (H q Hq). symmetry. apply startsWith_prefix. exact Ha.
Qed.

Lemma count_prefix a b : Str.count (a +:+ b) pat = 0 -> Str.count a pat = 0.
Proof.
  induction a as [|c a IH]; intros H.
  - destruct pat; [|reflexivity]. rewrite app_nil_l in H. destruct b; discriminate.
  - change (Str.count (String c a +:+ b) pat)
      with ((if Str.startsWith (String c a +:+ b) pat then 1 else 0)
            + Str.count (a +:+ b) pat) in H.
    change (Str.count (String c a) pat)
      with ((if Str.startsWith (String c a) pat then 1 else 0) + Str.count a pat).
    destruct (Str.startsWith (String c a) pat) eqn:Hs.
    + rewrite (startsWith_prefix _ b _ Hs) in H. discriminate.
    + rewrite IH; [reflexivity|]. destruct (Str.startsWith (String c a +:+ b) pat); [discriminate|].
      exact H.
Qed.

(** A text without the last character of the pattern holds no occurrence
    and is head-free. *)
Variable e : ascii.
Hypothesis pat_ends :
  forallb (fun q => negb (Str.all (notChar e) q)) (suffixes pat) = true.

Lemma free_startsWith s q :
  Str.all (notChar e) s = true -> In q (suffixes pat) -> Str.startsWith s q = false.
Proof.
  intros Hs Hq. destruct (Str.startsWith s q) eqn:Hsw; [|reflexivity].
  apply startsWith_inv in Hsw as [t ->].
  rewrite all_app in Hs. apply andb_true_iff in Hs as [Hs _].
  rewrite forallb_forall in pat_ends. apply pat_ends in Hq.
  rewrite Hs in Hq. discriminate.
Qed.

Lemma free_headFree s : Str.all (notChar e) s = true -> headFree pat s = true.
Proof.
  intros Hs. apply headFree_spec. intros q Hq. apply free_startsWith; [exact Hs|].
  destruct pat; [destruct Hq|]. right. exact Hq.
Qed.

Lemma free_count s : pat <> "" -> Str.all (notChar e) s = true -> Str.count s pat = 0.
Proof.
  intros Hpat. induction s as [|c s IH]; intros Hs.
  - apply count_nil. exact Hpat.
  - change (Str.count (String c s) pat)
      with ((if Str.startsWith (String c s) pat then 1 else 0) + Str.count s pat).
    rewrite free_startsWith by first [exact Hs|destruct pat; [contradiction|left; reflexivity]].
    simpl in Hs. apply andb_true_iff in Hs as [_ Hs]. rewrite (IH Hs). reflexivity.
Qed.

End Pattern.

End CountFacts.

(** ** Printed numbers *)

Module NumFacts.

Import StrFacts.

Lemma pretty_N_char_num x : numChar (pretty_N_char x) = true.
Proof. unfold pretty_N_char. repeat case_match; reflexivity. Qed.

Lemma pretty_N_go_num (n : N) : forall s,
  Str.all numChar s = true -> Str.all numChar (pretty_N_go n s) = true.
Proof.
  induction (N.lt_wf_0 n) as [n _ IH]. intros s Hs.
  destruct (decide (n = 0)%N) as [->|Hn]; [rewrite pretty_N_go_0; exact Hs|].
  rewrite pretty_N_go_step by lia. apply IH.
  - apply N.div_lt; lia.
  - simpl. rewrite pretty_N_char_num, Hs. reflexivity.
Qed.

Lemma pretty_N_num (n : N) : Str.all numChar (pretty n) = true.
Proof.
  unfold pretty, pretty_N. destruct (decide (n = 0)%N); [reflexivity|].
  apply pretty_N_go_num. reflexivity.
Qed.

Lemma pretty_nat_num (n : nat) : Str.all numChar (pretty n) = true.
Proof. apply pretty_N_num. Qed.

Lemma zeros_num n : Str.all numChar (Dec.zeros n) = true.
Proof. induction n as [|n IH]; [reflexivity|]. simpl. exact IH. Qed.

Lemma to_string_num d : Str.all numChar (Dec.to_string d) = true.
Proof.
  unfold Dec.to_string. destruct (Dec.strip_zeros _ _) as [m s].
  rewrite !all_app, pretty_N_num.
  assert (Hsign : Str.all numChar (if (dmant d <? 0)%Z then "-" else "") = true)
    by (destruct (dmant d <? 0)%Z; reflexivity).
  rewrite Hsign. destruct s as [|s]; [reflexivity|].
  unfold Dec.pad. rewrite !all_app, zeros_num, pretty_N_num. reflexivity.
Qed.

Lemma all_mono (P Q : ascii -> bool) s :
  (forall c, P c = true -> Q c = true) -> Str.all P s = true -> Str.all Q s = true.
Proof.
  intros HPQ. induction s as [|c s IH]; intros Hs; [reflexivity|].
  simpl in *. apply andb_true_iff in Hs as [Hc Hs].
  rewrite (HPQ c Hc), (IH Hs). reflexivity.
Qed.

Lemma numChar_graphChar c : numChar c = true -> graphChar c = true.
Proof. destruct c as [[] [] [] [] [] [] [] []]; vm_compute; congruence. Qed.

Lemma numChar_not_eq c : numChar c = true -> notChar "=" c = true.
Proof. destruct c as [[] [] [] [] [] [] [] []]; vm_compute; congruence. Qed.

Lemma graphChar_not_bracket c : graphChar c = true -> notChar "[" c = true.
Proof. destruct c as [[] [] [] [] [] [] [] []]; vm_compute; congruence. Qed.

Lemma colorChar_not_bracket c : colorChar c = true -> notChar "[" c = true.
Proof. unfold colorChar. intros H. apply andb_true_iff in H as [H _]. exact H. Qed.

Lemma colorChar_not_eq c : colorChar c = true -> notChar "=" c = true.
Proof. unfold colorChar. intros H. apply andb_true_iff in H as [_ H]. exact H. Qed.

(** [trimEnd] keeps the beginning of a text. *)
Lemma trimEnd_prefix s : exists t, s = Str.trimEnd s +:+ t.
Proof.
  induction s as [|c s [t IH]]; [exists ""; reflexivity|].
  simpl. destruct (Str.trimEnd s) as [|x y] eqn:He.
  - destruct (Str.is_space c).
    + exists (String c s). reflexivity.
    + exists s. reflexivity.
  - exists t. rewrite app_cons. f_equal. exact IH.
Qed.

Lemma all_trimEnd P s : Str.all P s = true -> Str.all P (Str.trimEnd s) = true.
Proof.
  intros Hs. destruct (trimEnd_prefix s) as [t Ht]. rewrite Ht, all_app in Hs.
  apply andb_true_iff in Hs as [Hs _]. exact Hs.
Qed.

Lemma trimEnd_head c s :
  Str.is_space c = false -> exists t, Str.trimEnd (String c s) = String c t.
Proof. intros Hc. simpl. destruct (Str.trimEnd s); rewrite ?Hc; eauto. Qed.

End NumFacts.

(** ** Pieces of a filter chain *)

Module PieceFacts.

Import StrFacts CountFacts NumFacts.

Lemma concat_ends :
  forallb (fun q => negb (Str.all (notChar "=") q)) (suffixes "concat=") = true.
Proof. reflexivity. Qed.

Lemma amix_ends :
  forallb (fun q => negb (Str.all (notChar "=") q)) (suffixes "amix=") = true.
Proof. reflexivity. Qed.

Lemma quiet_parts s :
  quiet s <->
  (headFree "concat=" s = true /\ Str.count s "concat=" = 0)
  /\ (headFree "amix=" s = true /\ Str.count s "amix=" = 0).
Proof.
  unfold quiet, quietb. rewrite !andb_true_iff, !Nat.eqb_eq. tauto.
Qed.

Lemma quiet_app a b : quiet a -> quiet b -> quiet (a +:+ b).
Proof.
  rewrite !quiet_parts. intros [[Ha1 Ha2] [Ha3 Ha4]] [[Hb1 Hb2] [Hb3 Hb4]].
  rewrite !headFree_app, !count_app by (assumption || discriminate).
  repeat split; (assumption || lia).
Qed.

(** A text without [=] is quiet. *)
Lemma quiet_free s : Str.all (notChar "=") s = true -> quiet s.
Proof.
  intros Hs. apply quiet_parts. repeat split.
  - apply (free_headFree "concat=" "=" concat_ends s Hs).
  - apply (free_count "concat=" "=" concat_ends s); [discriminate|exact Hs].
  - apply (free_headFree "amix=" "=" amix_ends s Hs).
  - apply (free_count "amix=" "=" amix_ends s); [discriminate|exact Hs].
Qed.

(** The beginning of a quiet text is quiet. *)
Lemma quiet_prefix a b : quiet (a +:+ b) -> quiet a.
Proof.
  rewrite !quiet_parts. intros [[H1 H2] [H3 H4]].
  repeat split; eauto using headFree_prefix, count_prefix.
Qed.

#[export] Instance quiet_piece : Piece quiet.
Proof.
  split.
  - exact quiet_app.
  - intros s Hs. unfold chainLiteral in Hs. apply andb_true_iff in Hs as [_ Hs]. exact Hs.
  - intros s Hs. apply quiet_free. eapply all_mono; [exact numChar_not_eq|exact Hs].
  - intros s Hs. destruct (trimEnd_prefix s) as [t Ht]. rewrite Ht in Hs.
    apply quiet_prefix in Hs. exact Hs.
Qed.

(** Every character of the text is in a class that holds the characters of
    the graph. *)
Lemma all_piece (P : ascii -> bool) :
  (forall c, graphChar c = true -> P c = true) ->
  Piece (fun s => Str.all P s = true).
Proof.
  intros HP. split.
  - intros a b Ha Hb. rewrite all_app, Ha, Hb. reflexivity.
  - intros s Hs. unfold chainLiteral in Hs. apply andb_true_iff in Hs as [Hs _].
    eapply all_mono; [exact HP|exact Hs].
  - intros s Hs. eapply all_mono; [|exact Hs].
    intros c Hc. apply HP, numChar_graphChar, Hc.
  - intros s Hs. apply all_trimEnd. exact Hs.
Qed.

#[export] Instance no_bracket_piece : Piece (fun s => Str.all (notChar "[") s = true) :=
  all_piece _ graphChar_not_bracket.

(** The pieces that the builders put together. *)
Ltac piece :=
  repeat match goal with
    | |- _ (if ?c then _ else _) => destruct c
    | |- _ (_ +:+ _) => apply piece_app
    | |- _ (Dec.to_string _) => apply piece_number, to_string_num
    | |- _ (pretty _) => apply piece_number, pretty_nat_num
    | |- _ => assumption
    | |- _ ?s => apply piece_literal; vm_compute; reflexivity
    end.

Section Builders.

Variable Q : string -> Prop.
Context {QP : Piece Q}.
Variable to_radians : dec -> dec.
Variable o : options.
Hypothesis Qbg : Q (bgColorHex o).

Lemma padOffsets_piece p : Q (fst (padOffsets p)) /\ Q (snd (padOffsets p)).
Proof.
  unfold padOffsets.
  repeat destruct (String.eqb _ _); cbn [fst snd]; split; piece.
Qed.

Lemma scalePosition_piece r w hh :
  Q (buildScaleAndPositionFilter to_radians o "" r w hh).
Proof.
  unfold buildScaleAndPositionFilter. cbv zeta.
  destruct (padOffsets_piece (str_or (position r) "center")) as [HX HY].
  piece.
Qed.

Lemma repad_piece : Q (repad o).
Proof. unfold repad. piece. Qed.

Lemma scaleExpr_piece a b c : Q (scaleExpr a b c).
Proof. unfold scaleExpr. piece. Qed.

Lemma transition_piece t td total w hh : Q (buildTransitionFilter o t td total w hh).
Proof.
  unfold buildTransitionFilter. cbv zeta.
  pose proof repad_piece as Hrepad.
  pose proof (scaleExpr_piece d0_5 d1_0 td) as Hin.
  pose proof (scaleExpr_piece d1_5 d1_0 td) as Hout.
  piece.
Qed.

End Builders.

End PieceFacts.

(** ** Trimming, replacing, and the pad of a chain *)

Module EditFacts.

Import StrFacts NumFacts.

Lemma trimStart_id s :
  Str.all (fun c => negb (Str.is_space c)) s = true -> Str.trimStart s = s.
Proof.
  destruct s as [|c s]; [reflexivity|]. simpl. intros H.
  apply andb_true_iff in H as [Hc _]. apply negb_true_iff in Hc. rewrite Hc. reflexivity.
Qed.

Lemma trimEnd_id s :
  Str.all (fun c => negb (Str.is_space c)) s = true -> Str.trimEnd s = s.
Proof.
  induction s as [|c s IH]; [reflexivity|]. simpl. intros H.
  apply andb_true_iff in H as [Hc Hs]. apply negb_true_iff in Hc.
  rewrite (IH Hs). destruct s; [rewrite Hc|]; reflexivity.
Qed.

Lemma trim_id s :
  Str.all (fun c => negb (Str.is_space c)) s = true -> Str.trim s = s.
Proof. intros H. unfold Str.trim. rewrite (trimStart_id s H). apply trimEnd_id, H. Qed.

Lemma all_replace P s pat rep :
  Str.all P s = true -> Str.all P rep = true -> Str.all P (Str.replace s pat rep) = true.
Proof.
  intros Hs Hrep. induction s as [|c s IH].
  - simpl. destruct (Str.startsWith "" pat); [|reflexivity].
    rewrite all_app, Hrep. apply all_drop. reflexivity.
  - simpl. destruct (Str.startsWith (String c s) pat).
    + rewrite all_app, Hrep. apply all_drop. exact Hs.
    + simpl in *. apply andb_true_iff in Hs as [Hc Hs]. rewrite Hc, (IH Hs). reflexivity.
Qed.

(** A pattern at the end of a text that does not hold its first character
    is the one that [replace] rewrites. *)
Lemma replace_at_end a p0 p rep :
  Str.all (notChar p0) a = true ->
  Str.replace (a +:+ String p0 p) (String p0 p) rep = a +:+ rep.
Proof.
  intros Ha. induction a as [|c a IH].
  - rewrite !app_nil_l. simpl. rewrite Ascii.eqb_refl.
    pose proof (startsWith_app p "") as Hp. rewrite app_nil_r in Hp. rewrite Hp.
    pose proof (drop_length_app p "") as Hd. rewrite app_nil_r in Hd. rewrite Hd.
    apply app_nil_r.
  - simpl in Ha. apply andb_true_iff in Ha as [Hc Ha].
    rewrite !app_cons. simpl.
    unfold notChar in Hc. apply negb_true_iff in Hc. rewrite Ascii.eqb_sym in Hc.
    rewrite Hc, (IH Ha). reflexivity.
Qed.

Lemma drop_split n s :
  n <= String.length s -> exists y, s = y +:+ Str.drop n s.
Proof.
  revert s. induction n as [|n IH]; intros s Hn.
  - exists "". destruct s; reflexivity.
  - destruct s as [|c s]; [simpl in Hn; lia|]. simpl in Hn.
    destruct (IH s) as [y Hy]; [lia|]. exists (String c y).
    rewrite app_cons. simpl. f_equal. exact Hy.
Qed.

Lemma endsWith_inv s p : Str.endsWith s p = true -> exists y, s = y +:+ p.
Proof.
  unfold Str.endsWith.
  destruct (Nat.leb_spec (String.length p) (String.length s)) as [Hle|]; [|discriminate].
  intros Heq. apply String.eqb_eq in Heq.
  destruct (drop_split (String.length s - String.length p) s) as [y Hy]; [lia|].
  exists y. rewrite Heq in Hy. exact Hy.
Qed.

(** The pad of a chain is its last label. *)
Lemma outPad_label y l :
  Str.all (notChar "[") l = true -> outPad (y +:+ String "[" l) = String "[" l.
Proof.
  intros Hl. induction y as [|c y IH].
  - rewrite app_nil_l. simpl. rewrite Hl. reflexivity.
  - rewrite app_cons. simpl. rewrite all_app. simpl.
    rewrite andb_false_r. exact IH.
Qed.

Lemma label_tail_free (t : string) (n : nat) :
  Str.all (notChar "[") t = true ->
  Str.all (notChar "[") (t +:+ pretty n +:+ "]") = true.
Proof.
  intros Ht. rewrite !all_app, Ht.
  rewrite (all_mono numChar (notChar "[") (pretty n)); [reflexivity| |apply pretty_nat_num].
  intros c Hc. apply graphChar_not_bracket, numChar_graphChar, Hc.
Qed.

Lemma outPad_vlabel y (n : nat) : outPad (y +:+ vlabel n) = vlabel n.
Proof. apply (outPad_label y ("v" +:+ pretty n +:+ "]")), label_tail_free. reflexivity. Qed.

Lemma outPad_alabel y (n : nat) : outPad (y +:+ alabel n) = alabel n.
Proof. apply (outPad_label y ("a" +:+ pretty n +:+ "]")), label_tail_free. reflexivity. Qed.

Lemma outPad_outv y : outPad (y +:+ "[outv]") = "[outv]".
Proof. apply outPad_label. reflexivity. Qed.

Lemma outPad_outa y : outPad (y +:+ "[outa]") = "[outa]".
Proof. apply outPad_label. reflexivity. Qed.

End EditFacts.

(** ** The fragments of the resources *)

Module ChainFacts.

Import StrFacts CountFacts NumFacts PieceFacts EditFacts.

Ltac assoc := rewrite ?StrFacts.app_assoc, ?app_nil_l.

Section Fragments.

Variable to_radians : dec -> dec.
Variable o : options.

Lemma colorOK_padFree : colorOK o = true -> padFree o = true.
Proof. apply all_mono. exact colorChar_not_bracket. Qed.

Lemma bg_quiet : colorOK o = true -> quiet (bgColorHex o).
Proof.
  intros color. apply quiet_free. unfold bgColorHex. apply all_replace; [|reflexivity].
  eapply all_mono; [exact colorChar_not_eq|exact color].
Qed.

Lemma bg_no_bracket : padFree o = true -> Str.all (notChar "[") (bgColorHex o) = true.
Proof. intros pads. unfold bgColorHex. apply all_replace; [exact pads|reflexivity]. Qed.

Lemma scalePosition_label lbl r w hh :
  buildScaleAndPositionFilter to_radians o lbl r w hh
  = lbl +:+ buildScaleAndPositionFilter to_radians o "" r w hh.
Proof.
  unfold buildScaleAndPositionFilter. cbv zeta.
  repeat match goal with |- context [if ?c then _ else _] => destruct c end;
    assoc; reflexivity.
Qed.

Lemma scalePosition_truthy r w hh :
  Str.truthy (buildScaleAndPositionFilter to_radians o "" r w hh) = true.
Proof.
  unfold buildScaleAndPositionFilter. cbv zeta.
  repeat match goal with |- context [if ?c then _ else _] => destruct c end;
    assoc; reflexivity.
Qed.

(** The text starts with [scale=], so that [trim] only removes white
    space at its end, and leaves some text. *)
Lemma scalePosition_head r w hh :
  exists t, buildScaleAndPositionFilter to_radians o "" r w hh = String "s" t.
Proof.
  unfold buildScaleAndPositionFilter. cbv zeta.
  repeat match goal with |- context [if ?c then _ else _] => destruct c end;
    eexists; reflexivity.
Qed.

Lemma scalePosition_trim r w hh :
  Str.trim (buildScaleAndPositionFilter to_radians o "" r w hh)
  = Str.trimEnd (buildScaleAndPositionFilter to_radians o "" r w hh)
  /\ Str.truthy (Str.trim (buildScaleAndPositionFilter to_radians o "" r w hh)) = true.
Proof.
  destruct (scalePosition_head r w hh) as [t ->]. unfold Str.trim.
  change (Str.trimStart (String "s" t)) with (String "s" t).
  split; [reflexivity|].
  destruct (trimEnd_head "s" t eq_refl) as [t' ->]. reflexivity.
Qed.

Lemma imageFilter_chain idx img :
  imageFilter to_radians o idx img
  = videoStream idx +:+ imageChain to_radians o img +:+ vlabel idx.
Proof.
  unfold imageFilter, imageChain, videoStream, vlabel. cbv zeta.
  destruct (scalePosition_trim img (resolvedWidth o) (resolvedHeight o)) as [Htrim Hsome].
  rewrite Hsome, Htrim, scalePosition_truthy. cbn [andb].
  destruct (negb _ && Dec.pos _); assoc; rewrite ?app_nil_r; reflexivity.
Qed.

Lemma videoFilter_chain idx vid :
  videoFilter to_radians o idx vid
  = videoStream idx +:+ videoChain to_radians o vid +:+ vlabel idx.
Proof.
  unfold videoFilter, videoChain, vlabel. cbv zeta.
  rewrite scalePosition_label. fold (videoStream idx).
  destruct (negb _ && Dec.pos _); assoc; rewrite ?app_nil_r; reflexivity.
Qed.

Lemma visualFragment_chain idx r :
  visualFragment to_radians o idx r
  = videoStream idx +:+ visualChain to_radians o r +:+ vlabel idx.
Proof.
  unfold visualFragment, visualChain.
  destruct (isType "image" r); [apply imageFilter_chain|apply videoFilter_chain].
Qed.

Section Pieces.

Variable Q : string -> Prop.
Context {QP : Piece Q}.
Hypothesis Qbg : Q (bgColorHex o).

Lemma imageChain_piece img : Q (imageChain to_radians o img).
Proof.
  unfold imageChain. cbv zeta.
  pose proof (piece_trimEnd _
                (scalePosition_piece Q to_radians o Qbg img (resolvedWidth o) (resolvedHeight o))).
  pose proof (transition_piece Q o Qbg (str_or (transition img) "none")
                (num_or (transitionDuration img) d0_5) (imageDuration img)
                (resolvedWidth o) (resolvedHeight o)).
  piece.
Qed.

Lemma videoChain_piece vid : Q (videoChain to_radians o vid).
Proof.
  unfold videoChain. cbv zeta.
  pose proof (scalePosition_piece Q to_radians o Qbg vid (resolvedWidth o) (resolvedHeight o)).
  pose proof (transition_piece Q o Qbg (str_or (transition vid) "none")
                (num_or (transitionDuration vid) d0_5) (num_or (duration vid) (Dec.of_Z 5))
                (resolvedWidth o) (resolvedHeight o)).
  piece.
Qed.

Lemma visualChain_piece r : Q (visualChain to_radians o r).
Proof.
  unfold visualChain. destruct (isType "image" r);
    [apply imageChain_piece|apply videoChain_piece].
Qed.

End Pieces.

End Fragments.

Lemma audioFilters_piece (Q : string -> Prop) {QP : Piece Q} aud :
  Q (Str.join "," (audioFilters aud)).
Proof.
  unfold audioFilters. cbv zeta.
  repeat match goal with |- context [if ?c then _ else _] => destruct c end;
    cbn [app Str.join]; piece.
Qed.

End ChainFacts.

(** ** The assembled graph *)

Module GraphFacts.

Import StrFacts CountFacts NumFacts PieceFacts EditFacts ChainFacts.

Lemma imageInputs_index n imgs : map index (imageInputs n imgs) = seq n (length imgs).
Proof. revert n. induction imgs as [|x l IH]; intros n; simpl; [|rewrite IH]; reflexivity. Qed.

Lemma videoInputsOf_index n vids : map index (videoInputsOf n vids) = seq n (length vids).
Proof. revert n. induction vids as [|x l IH]; intros n; simpl; [|rewrite IH]; reflexivity. Qed.

Lemma visualInputs_index images videos :
  map index (visualInputs images videos) = seq 0 (length images + length videos).
Proof.
  unfold visualInputs. rewrite map_app, imageInputs_index, videoInputsOf_index, seq_app.
  reflexivity.
Qed.

Lemma visualInputs_length images videos :
  length (visualInputs images videos) = length images + length videos.
Proof.
  rewrite <- (length_map index), visualInputs_index, length_seq. reflexivity.
Qed.

Lemma concatFilter_visualInputs images videos :
  concatFilter (visualInputs images videos) = concatOf (length images + length videos).
Proof.
  unfold concatFilter, concatOf.
  rewrite visualInputs_length, <- visualInputs_index, map_map. reflexivity.
Qed.

Lemma audioInputsOf_labels n auds : map audioLabel (audioInputsOf n auds) = audioPads n auds.
Proof.
  revert n. induction auds as [|x l IH]; intros n; [reflexivity|].
  simpl. rewrite IH. f_equal. unfold audioLabel, audioPad. simpl.
  destruct (audioFilters x); reflexivity.
Qed.

Lemma audioInputsOf_length n auds : length (audioInputsOf n auds) = length auds.
Proof. revert n. induction auds as [|x l IH]; intros n; simpl; [|rewrite IH]; reflexivity. Qed.

Lemma amixFilter_audioInputsOf n auds :
  amixFilter (audioInputsOf n auds) = amixOf n auds.
Proof.
  unfold amixFilter, amixOf. rewrite audioInputsOf_labels, audioInputsOf_length. reflexivity.
Qed.

Lemma video_not_image r : isType "video" r = true -> isType "image" r = false.
Proof.
  unfold isType. intros H. apply String.eqb_eq in H. rewrite H. reflexivity.
Qed.

Lemma filter_all t rs : Forall (fun r => isType t r = true) (filter (isType t) rs).
Proof.
  apply Forall_forall. intros r Hin. apply list_elem_of_filter in Hin.
  destruct Hin as [Hr _]. apply Is_true_true. exact Hr.
Qed.

Section Frags.

Variable to_radians : dec -> dec.
Variable o : options.

Lemma imageFrags_visual n imgs :
  Forall (fun r => isType "image" r = true) imgs ->
  imageFrags to_radians o n imgs = visualFrags to_radians o n imgs.
Proof.
  intros Hall. revert n. induction Hall as [|r l Hr _ IH]; intros n; [reflexivity|].
  simpl. unfold visualFragment at 1. rewrite Hr, IH. reflexivity.
Qed.

Lemma videoFrags_visual n vids :
  Forall (fun r => isType "video" r = true) vids ->
  videoFrags to_radians o n vids = visualFrags to_radians o n vids.
Proof.
  intros Hall. revert n. induction Hall as [|r l Hr _ IH]; intros n; [reflexivity|].
  simpl. unfold visualFragment at 1. rewrite (video_not_image r Hr), IH. reflexivity.
Qed.

Lemma visualFrags_app n l1 l2 :
  visualFrags to_radians o n (l1 ++ l2)
  = visualFrags to_radians o n l1 ++ visualFrags to_radians o (n + length l1) l2.
Proof.
  revert n. induction l1 as [|r l IH]; intros n; simpl.
  - rewrite Nat.add_0_r. reflexivity.
  - rewrite IH. do 3 f_equal. lia.
Qed.

(** The fragments of the loops over the images and the videos are the
    fragments of the visual resources, images first. *)
Lemma fragments_visual rs :
  fragments to_radians o (imagesOf rs) (videosOf rs) (audiosOf rs)
  = visualFrags to_radians o 0 (imagesOf rs ++ videosOf rs)
    ++ audioFrags (length (imagesOf rs ++ videosOf rs)) (audiosOf rs).
Proof.
  unfold fragments. rewrite visualFrags_app, List.length_app, <- List.app_assoc.
  rewrite imageFrags_visual by apply filter_all.
  rewrite videoFrags_visual by apply filter_all. reflexivity.
Qed.

Lemma visualFrags_lookup n l k r :
  l !! k = Some r ->
  visualFrags to_radians o n l !! k = Some (visualFragment to_radians o (n + k) r).
Proof.
  revert n k. induction l as [|x l IH]; intros n k Hk; [discriminate|].
  destruct k as [|k]; simpl in *.
  - injection Hk as ->. rewrite Nat.add_0_r. reflexivity.
  - rewrite (IH (S n) k Hk). do 2 f_equal. lia.
Qed.

Lemma visualFragment_ends idx r :
  exists body, visualFragment to_radians o idx r = body +:+ vlabel idx.
Proof.
  unfold visualFragment, imageFilter, videoFilter. cbv zeta.
  destruct (isType "image" r); eexists; unfold vlabel; reflexivity.
Qed.

Lemma visualFrags_pads n l :
  map outPad (visualFrags to_radians o n l) = map vlabel (seq n (length l)).
Proof.
  revert n. induction l as [|r l IH]; intros n; [reflexivity|].
  simpl. rewrite IH. f_equal.
  destruct (visualFragment_ends n r) as [body ->]. apply outPad_vlabel.
Qed.

End Frags.

Lemma audioFilter_ends idx aud : exists body, audioFilter idx aud = body +:+ alabel idx.
Proof.
  unfold audioFilter, alabel.
  exists (("[" +:+ pretty idx +:+ ":a]") +:+ Str.join "," (audioFilters aud)).
  assoc. reflexivity.
Qed.

Lemma audioFrags_pads n auds : map outPad (audioFrags n auds) = filteredAudioPads n auds.
Proof.
  revert n. induction auds as [|a l IH]; intros n; [reflexivity|].
  cbn [audioFrags filteredAudioPads]. destruct (audioFilters a); [apply IH|].
  cbn [map]. rewrite IH. f_equal.
  destruct (audioFilter_ends n a) as [body ->]. apply outPad_alabel.
Qed.

Lemma alabel_not_vlabel i j : alabel i <> vlabel j.
Proof.
  unfold alabel, vlabel. intros H.
  change (String "[" (String "a" (pretty i +:+ "]"))
          = String "[" (String "v" (pretty j +:+ "]"))) in H.
  discriminate.
Qed.

Lemma audioFrags_not_visual n auds j :
  Forall (fun x => Str.endsWith x (vlabel j) = false) (audioFrags n auds).
Proof.
  revert n. induction auds as [|a l IH]; intros n; [constructor|].
  cbn [audioFrags]. destruct (audioFilters a); [apply IH|].
  constructor; [|apply IH].
  destruct (Str.endsWith (audioFilter n a) (vlabel j)) eqn:He; [|reflexivity].
  exfalso. apply endsWith_inv in He as [y Hy].
  pose proof (outPad_vlabel y j) as Hv. rewrite <- Hy in Hv.
  destruct (audioFilter_ends n a) as [body Hb]. rewrite Hb, outPad_alabel in Hv.
  exact (alabel_not_vlabel n j Hv).
Qed.

Lemma renameLast_none label fc :
  Forall (fun x => Str.endsWith x label = false) fc -> renameLast label fc = (false, fc).
Proof.
  induction 1 as [|x l Hx _ IH]; [reflexivity|].
  simpl. rewrite IH, Hx. reflexivity.
Qed.

Lemma renameLast_head label x fc :
  Str.endsWith x label = true ->
  Forall (fun y => Str.endsWith y label = false) fc ->
  renameLast label (x :: fc) = (true, Str.replace x label "[outv]" :: fc).
Proof.
  intros Hx Hfc. simpl. rewrite (renameLast_none label fc Hfc), Hx. reflexivity.
Qed.

End GraphFacts.

(** ** Counting the operators of a graph *)

Module TallyFacts.

Import StrFacts CountFacts NumFacts PieceFacts EditFacts ChainFacts GraphFacts.

Lemma headFree_nil pat : headFree pat "" = true.
Proof.
  apply headFree_spec. intros q Hq. apply startsWith_nil_l.
  destruct pat; [destruct Hq|]. eapply suffixes_nonempty, Hq.
Qed.

Lemma tally_app pat a b k1 k2 :
  pat <> "" -> tally pat a k1 -> tally pat b k2 -> tally pat (a +:+ b) (k1 + k2).
Proof.
  intros Hpat [Ha1 Ha2] [Hb1 Hb2]. split.
  - rewrite headFree_app; assumption.
  - rewrite count_app by assumption. lia.
Qed.

Lemma quiet_tally s : quiet s <-> tally "concat=" s 0 /\ tally "amix=" s 0.
Proof. apply quiet_parts. Qed.

Lemma tally_join pat chains :
  pat <> "" -> tally pat ";" 0 ->
  Forall (fun c => headFree pat c = true) chains ->
  tally pat (Str.join ";" chains) (list_sum (map (fun c => Str.count c pat) chains)).
Proof.
  intros Hpat Hsep Hall. induction Hall as [|x l Hx Hl IH].
  - split; [apply headFree_nil|apply count_nil; exact Hpat].
  - destruct l as [|y l].
    + simpl. rewrite Nat.add_0_r. split; [exact Hx|reflexivity].
    + rewrite join_cons. cbn [map list_sum].
      apply tally_app; [exact Hpat|split; [exact Hx|reflexivity]|].
      apply (tally_app pat ";" _ 0 _ Hpat Hsep IH).
Qed.

Lemma list_sum_zero (l : list nat) : Forall (fun k => k = 0) l -> list_sum l = 0.
Proof. induction 1 as [|x l -> _ IH]; [reflexivity|exact IH]. Qed.

(** A graph of quiet chains holds no operator. *)
Lemma quiet_join chains : Forall quiet chains -> quiet (Str.join ";" chains).
Proof.
  intros Hall. apply quiet_tally. split.
  - replace 0 with (list_sum (map (fun c => Str.count c "concat=") chains)).
    + apply tally_join; [discriminate|split; reflexivity|].
      eapply Forall_impl; [exact Hall|]. intros c Hc. apply quiet_tally in Hc. apply Hc.
    + apply list_sum_zero, Forall_map.
      eapply Forall_impl; [exact Hall|]. intros c Hc. apply quiet_tally in Hc. apply Hc.
  - replace 0 with (list_sum (map (fun c => Str.count c "amix=") chains)).
    + apply tally_join; [discriminate|split; reflexivity|].
      eapply Forall_impl; [exact Hall|]. intros c Hc. apply quiet_tally in Hc. apply Hc.
    + apply list_sum_zero, Forall_map.
      eapply Forall_impl; [exact Hall|]. intros c Hc. apply quiet_tally in Hc. apply Hc.
Qed.

Lemma quiet_concat l : Forall quiet l -> quiet (Str.concat l).
Proof.
  induction 1 as [|x l Hx _ IH]; [reflexivity|].
  simpl. apply quiet_app; assumption.
Qed.

Ltac quiet_pieces :=
  repeat match goal with
    | |- quiet (_ +:+ _) => apply quiet_app
    | |- quiet (pretty _) => apply (piece_number (Q := quiet)), pretty_nat_num
    | |- quiet _ => assumption
    | |- quiet _ => vm_compute; reflexivity
    end.

Lemma videoStream_quiet idx : quiet (videoStream idx).
Proof. unfold videoStream. quiet_pieces. Qed.

Lemma audioStream_quiet idx : quiet (audioStream idx).
Proof. unfold audioStream. quiet_pieces. Qed.

Lemma vlabel_quiet idx : quiet (vlabel idx).
Proof. unfold vlabel. quiet_pieces. Qed.

Lemma alabel_quiet idx : quiet (alabel idx).
Proof. unfold alabel. quiet_pieces. Qed.

Lemma audioFilter_quiet idx aud : quiet (audioFilter idx aud).
Proof.
  unfold audioFilter.
  pose proof (audioFilters_piece quiet aud).
  quiet_pieces.
Qed.

Lemma audioFrags_quiet n auds : Forall quiet (audioFrags n auds).
Proof.
  revert n. induction auds as [|a l IH]; intros n; [constructor|].
  cbn [audioFrags]. destruct (audioFilters a); [apply IH|].
  constructor; [apply audioFilter_quiet|apply IH].
Qed.

Lemma audioPads_quiet n auds : Forall quiet (audioPads n auds).
Proof.
  revert n. induction auds as [|a l IH]; intros n; constructor; [|apply IH].
  unfold audioPad. destruct (audioFilters a); [apply audioStream_quiet|apply alabel_quiet].
Qed.

(** The concat chain holds one [concat=] and no [amix=]; the mix chain one
    [amix=] and no [concat=]. *)
Lemma concatOf_tally n : tally "concat=" (concatOf n) 1 /\ tally "amix=" (concatOf n) 0.
Proof.
  unfold concatOf.
  assert (Hl : quiet (Str.concat (map vlabel (seq 0 n)))).
  { apply quiet_concat, Forall_map, Forall_forall. intros k _. apply vlabel_quiet. }
  assert (Ht : quiet (pretty n +:+ ":v=1:a=0[outv]")) by quiet_pieces.
  apply quiet_tally in Hl as [Hl1 Hl2]. apply quiet_tally in Ht as [Ht1 Ht2].
  split.
  - apply (tally_app "concat=" _ _ 0 1); [discriminate|exact Hl1|].
    apply (tally_app "concat=" "concat=n=" _ 1 0); [discriminate|split; reflexivity|exact Ht1].
  - apply (tally_app "amix=" _ _ 0 0); [discriminate|exact Hl2|].
    apply (tally_app "amix=" "concat=n=" _ 0 0); [discriminate|split; reflexivity|exact Ht2].
Qed.

Lemma amixOf_tally n auds :
  tally "amix=" (amixOf n auds) 1 /\ tally "concat=" (amixOf n auds) 0.
Proof.
  unfold amixOf.
  assert (Hl : quiet (Str.concat (audioPads n auds)))
    by apply quiet_concat, audioPads_quiet.
  assert (Ht : quiet (pretty (length auds) +:+ ":duration=longest:dropout_transition=2[outa]"))
    by quiet_pieces.
  apply quiet_tally in Hl as [Hl1 Hl2]. apply quiet_tally in Ht as [Ht1 Ht2].
  split.
  - apply (tally_app "amix=" _ _ 0 1); [discriminate|exact Hl2|].
    apply (tally_app "amix=" "amix=inputs=" _ 1 0); [discriminate|split; reflexivity|exact Ht2].
  - apply (tally_app "concat=" _ _ 0 0); [discriminate|exact Hl1|].
    apply (tally_app "concat=" "amix=inputs=" _ 0 0);
      [discriminate|split; reflexivity|exact Ht1].
Qed.

Section Colour.

Variable to_radians : dec -> dec.
Variable o : options.
Hypothesis color : colorOK o = true.
Hypothesis pads : padFree o = true.

Lemma visualFragment_quiet idx r : quiet (visualFragment to_radians o idx r).
Proof.
  rewrite (visualFragment_chain to_radians o).
  pose proof (videoStream_quiet idx). pose proof (vlabel_quiet idx).
  pose proof (visualChain_piece to_radians o quiet (bg_quiet o color) r).
  quiet_pieces.
Qed.

Lemma visualFrags_quiet n l : Forall quiet (visualFrags to_radians o n l).
Proof.
  revert n. induction l as [|r l IH]; intros n; constructor;
    [apply visualFragment_quiet|apply IH].
Qed.

Lemma renamedFragment_quiet r : quiet (renamedFragment to_radians o r).
Proof.
  unfold renamedFragment.
  pose proof (videoStream_quiet 0).
  pose proof (visualChain_piece to_radians o quiet (bg_quiet o color) r).
  quiet_pieces.
Qed.

(** The renaming of the single fragment rewrites its pad. *)
Lemma rename_single r :
  Str.replace (visualFragment to_radians o 0 r) (vlabel 0) "[outv]"
  = renamedFragment to_radians o r.
Proof.
  rewrite (visualFragment_chain to_radians o). unfold renamedFragment.
  change (videoStream 0) with (String "[" "0:v]").
  change (vlabel 0) with (String "[" "v0]").
  set (chain := visualChain to_radians o r).
  assert (Hchain : Str.all (notChar "[") ("0:v]" +:+ chain) = true).
  { rewrite all_app. simpl.
    apply (visualChain_piece to_radians o
             (fun s => Str.all (notChar "[") s = true) (bg_no_bracket o pads) r). }
  replace (String "[" "0:v]" +:+ chain +:+ String "[" "v0]")
    with (String "[" (("0:v]" +:+ chain) +:+ String "[" "v0]"))
    by (rewrite StrFacts.app_assoc; reflexivity).
  change (Str.replace (String "[" (("0:v]" +:+ chain) +:+ String "[" "v0]"))
            (String "[" "v0]") "[outv]")
    with (String "[" (Str.replace (("0:v]" +:+ chain) +:+ String "[" "v0]")
                        (String "[" "v0]") "[outv]")).
  rewrite (replace_at_end _ "[" "v0]" "[outv]" Hchain), StrFacts.app_assoc. reflexivity.
Qed.

End Colour.

End TallyFacts.

(** ** The shape of the graph *)

Module ShapeFacts.

Import StrFacts CountFacts NumFacts PieceFacts EditFacts ChainFacts GraphFacts TallyFacts.

Lemma tallies_app pat l1 l2 k1 k2 :
  tallies pat l1 k1 -> tallies pat l2 k2 -> tallies pat (l1 ++ l2) (k1 + k2).
Proof.
  intros [H1 E1] [H2 E2]. split.
  - apply Forall_app. split; assumption.
  - rewrite map_app, list_sum_app, E1, E2. reflexivity.
Qed.

Lemma tallies_one pat c k : tally pat c k -> tallies pat [c] k.
Proof.
  intros [H E]. split; [repeat constructor; exact H|].
  simpl. rewrite E. lia.
Qed.

Lemma tallies_nil pat : tallies pat [] 0.
Proof. split; [constructor|reflexivity]. Qed.

Lemma tallies_quiet l :
  Forall quiet l -> tallies "concat=" l 0 /\ tallies "amix=" l 0.
Proof.
  intros Hall. split; split;
    try (eapply Forall_impl; [exact Hall|]; intros c Hc; apply quiet_tally in Hc; apply Hc);
    apply list_sum_zero, Forall_map;
    (eapply Forall_impl; [exact Hall|]); intros c Hc; apply quiet_tally in Hc; apply Hc.
Qed.

Lemma tallies_count pat l k :
  pat <> "" -> tally pat ";" 0 -> tallies pat l k -> Str.count (Str.join ";" l) pat = k.
Proof.
  intros Hpat Hsep [Hall Hsum].
  destruct (tally_join pat l Hpat Hsep Hall) as [_ Hcount]. rewrite Hcount. exact Hsum.
Qed.

Lemma amixPart_tallies n auds :
  tallies "concat=" (amixPart n auds) 0
  /\ tallies "amix=" (amixPart n auds) (match auds with [] => 0 | _ :: _ => 1 end).
Proof.
  destruct auds as [|a l]; [split; apply tallies_nil|].
  destruct (amixOf_tally n (a :: l)) as [Ha Hc].
  split; apply tallies_one; assumption.
Qed.

Lemma mixAudio_part n auds fc :
  mixAudio (audioInputsOf n auds) fc = fc ++ amixPart n auds.
Proof.
  destruct auds as [|a l]; [symmetry; apply List.app_nil_r|].
  pose proof (amixFilter_audioInputsOf n (a :: l)) as Hmix.
  unfold amixPart. rewrite <- Hmix. reflexivity.
Qed.

Section Shape.

Variable to_radians : dec -> dec.
Variable o : options.

Lemma graph_several rs :
  2 <= length (imagesOf rs ++ videosOf rs) ->
  graph to_radians o (imagesOf rs) (videosOf rs) (audiosOf rs)
  = (visualFrags to_radians o 0 (imagesOf rs ++ videosOf rs)
     ++ audioFrags (length (imagesOf rs ++ videosOf rs)) (audiosOf rs))
    ++ [concatOf (length (imagesOf rs ++ videosOf rs))]
    ++ amixPart (length (imagesOf rs ++ videosOf rs)) (audiosOf rs).
Proof.
  intros Hlen. unfold graph.
  rewrite mixAudio_part, fragments_visual.
  rewrite !List.length_app in *.
  rewrite <- concatFilter_visualInputs.
  pose proof (visualInputs_length (imagesOf rs) (videosOf rs)) as Hvis.
  unfold connectVideo.
  destruct (visualInputs (imagesOf rs) (videosOf rs)) as [|x [|y l]];
    simpl in Hvis; try lia.
  rewrite <- !List.app_assoc. reflexivity.
Qed.

Hypothesis pads : padFree o = true.

Lemma graph_single rs v :
  imagesOf rs ++ videosOf rs = [v] ->
  graph to_radians o (imagesOf rs) (videosOf rs) (audiosOf rs)
  = (renamedFragment to_radians o v :: audioFrags 1 (audiosOf rs))
    ++ amixPart 1 (audiosOf rs).
Proof.
  intros Hv. unfold graph.
  rewrite mixAudio_part, fragments_visual.
  pose proof (visualInputs_index (imagesOf rs) (videosOf rs)) as Hidx.
  rewrite <- (List.length_app (imagesOf rs) (videosOf rs)) in *.
  rewrite Hv in *. cbn [length seq visualFrags app] in *.
  unfold connectVideo.
  destruct (visualInputs (imagesOf rs) (videosOf rs)) as [|x [|y l]]; try discriminate.
  injection Hidx as Hx. rewrite Hx.
  rewrite renameLast_head.
  - cbn [snd]. rewrite (rename_single to_radians o pads). reflexivity.
  - destruct (visualFragment_ends to_radians o 0 v) as [body ->]. apply endsWith_self.
  - apply audioFrags_not_visual.
Qed.

End Shape.

End ShapeFacts.

(** ** The loops in closed form *)

Section LoopFacts.

Variable to_radians : dec -> dec.
Variable o : options.
Variable h : Host.
Variable fs : FS h.

Lemma forImages_closed imgs b b' :
  forImages to_radians o h fs imgs b = OK b' ->
  b' = {| args := args b ++ concat (map (imageArgs h) imgs);
          filterComplex := filterComplex b ++ imageFrags to_radians o (inputIndex b) imgs;
          inputIndex := inputIndex b + length imgs;
          videoInputs := videoInputs b ++ imageInputs (inputIndex b) imgs;
          audioInputs := audioInputs b |}.
Proof.
  revert b. induction imgs as [|img rest IH]; intros b Hrun; simpl in Hrun.
  - inversion Hrun; subst. destruct b'; simpl.
    rewrite !app_nil_r, Nat.add_0_r. reflexivity.
  - unfold processImage in Hrun at 1.
    destruct (negb (existsSync h fs (path_resolve h (path img)))); [discriminate|].
    simpl in Hrun. apply IH in Hrun. subst b'. simpl.
    rewrite <- !app_assoc. simpl. f_equal. lia.
Qed.

Lemma forVideos_closed vids b :
  fold_left (processVideo to_radians o h) vids b =
  {| args := args b ++ concat (map (seekedArgs h) vids);
     filterComplex := filterComplex b ++ videoFrags to_radians o (inputIndex b) vids;
     inputIndex := inputIndex b + length vids;
     videoInputs := videoInputs b ++ videoInputsOf (inputIndex b) vids;
     audioInputs := audioInputs b |}.
Proof.
  revert b. induction vids as [|vid rest IH]; intros b; simpl.
  - destruct b; simpl. rewrite !app_nil_r, Nat.add_0_r. reflexivity.
  - rewrite IH. unfold processVideo, seekedArgs. simpl.
    rewrite <- !app_assoc. simpl. f_equal. lia.
Qed.

Lemma forAudios_closed auds b :
  fold_left (processAudio h) auds b =
  {| args := args b ++ concat (map (seekedArgs h) auds);
     filterComplex := filterComplex b ++ audioFrags (inputIndex b) auds;
     inputIndex := inputIndex b + length auds;
     videoInputs := videoInputs b;
     audioInputs := audioInputs b ++ audioInputsOf (inputIndex b) auds |}.
Proof.
  revert b. induction auds as [|aud rest IH]; intros b; simpl.
  - destruct b; simpl. rewrite !app_nil_r, Nat.add_0_r. reflexivity.
  - rewrite IH. unfold processAudio, seekedArgs.
    destruct (audioFilters aud) as [|f fs']; simpl;
      rewrite <- !app_assoc; simpl; f_equal; lia.
Qed.

End LoopFacts.

(** ** What a successful run of the builder returns *)

Section Inversion.

Variable to_radians : dec -> dec.
Variable o : options.
Variable h : Host.

Lemma prepareOutput_then fs out (A : Type) (k : FS h -> result A) r :
  (fs0 ← prepareOutput h fs out; k fs0) = OK r ->
  exists fs0, prepareOutput h fs out = OK fs0 /\ k fs0 = OK r.
Proof.
  destruct (prepareOutput h fs out) as [fs0|e]; simpl; [|discriminate].
  intros Hk. exists fs0. split; [reflexivity|exact Hk].
Qed.

(** A run that reaches the encoder was given a list with an image or a
    video, and hands over the closed form [plan]. *)
Lemma composeVideo_OK fs resources out fs' b :
  composeVideo to_radians o h fs resources out = OK (fs', b) ->
  exists rs,
    resources = Some rs /\ rs <> [] /\
    (imagesOf rs <> [] \/ videosOf rs <> []) /\
    b = plan to_radians o h (imagesOf rs) (videosOf rs) (audiosOf rs) out.
Proof.
  unfold composeVideo. intros Hrun.
  apply prepareOutput_then in Hrun as (fs0 & _ & Hrun).
  destruct resources as [[|r rs]|]; try discriminate.
  exists (r :: rs). split; [reflexivity|]. split; [discriminate|].
  fold (imagesOf (r :: rs)) (videosOf (r :: rs)) (audiosOf (r :: rs)) in Hrun.
  destruct (negb (forallb _ _)); [discriminate|].
  destruct ((length (imagesOf (r :: rs)) =? 0)%nat
            && (length (videosOf (r :: rs)) =? 0)%nat) eqn:Hvis; [discriminate|].
  split.
  { apply andb_false_iff in Hvis as [Hi|Hv]; [left|right];
      apply Nat.eqb_neq in Hi || apply Nat.eqb_neq in Hv;
      intros Heq; rewrite Heq in *; simpl in *; congruence. }
  destruct (forImages to_radians o h fs0 (imagesOf (r :: rs)) _) as [b1|e] eqn:Himg;
    simpl in Hrun; [|discriminate].
  apply forImages_closed in Himg. simpl in Himg.
  rewrite forAudios_closed, forVideos_closed in Hrun. subst b1. simpl in Hrun.
  inversion Hrun; subst fs' b; clear Hrun.
  unfold plan, outputArgs, inputArgs, graph, fragments, visualInputs. simpl.
  rewrite <- !app_assoc. simpl.
  destruct (mixAudio _ _); simpl; rewrite <- ?app_assoc; reflexivity.
Qed.

End Inversion.

(** ** Rejected requests *)

Lemma existsb_isVisual_filters rs :
  existsb isVisual rs = false -> imagesOf rs = [] /\ videosOf rs = [].
Proof.
  induction rs as [|r rs IH]; simpl; [auto|].
  unfold isVisual at 1. intros Hno.
  apply orb_false_iff in Hno as [Hr Hrs]. apply orb_false_iff in Hr as [Hi Hv].
  destruct (IH Hrs) as [IHi IHv].
  unfold imagesOf, videosOf in *. rewrite !filter_cons.
  split.
  - destruct (decide _) as [Ht|_]; [|assumption].
    rewrite Hi in Ht. contradiction.
  - destruct (decide _) as [Ht|_]; [|assumption].
    rewrite Hv in Ht. contradiction.
Qed.

(** C8. [composeVideo] throws when the resource list is missing or empty,
    and when it holds neither an image nor a video (audio only); it does so
    before [executeFFmpeg] is called, the call being the [OK] result. *)
Theorem composeVideo_rejects_without_visual
    (to_radians : dec -> dec) (o : options) (h : Host) (fs : FS h)
    (resources : option (list resource)) (outputPath : string) :
  hasVisual resources = false ->
  exists e, composeVideo to_radians o h fs resources outputPath = Throw e.
Proof.
  intros Hno.
  destruct (composeVideo to_radians o h fs resources outputPath) as [[fs' b]|e] eqn:Hrun;
    [|eauto].
  apply composeVideo_OK in Hrun as (rs & -> & _ & Hvis & _).
  simpl in Hno. apply existsb_isVisual_filters in Hno as [Hi Hv].
  destruct Hvis; contradiction.
Qed.

Lemma composeVideo_rejects_without_visual_witness :
  (exists e, composeVideo (fun d => d) noOptions plainHost tt None "/app/output/o.mp4" = Throw e)
  /\ (exists e, composeVideo (fun d => d) noOptions plainHost tt (Some [])
                  "/app/output/o.mp4" = Throw e)
  /\ (exists e, composeVideo (fun d => d) noOptions plainHost tt
                  (Some [plainResource "audio" "/app/uploads/a.mp3"])
                  "/app/output/o.mp4" = Throw e).
Proof.
  split; [|split]; apply composeVideo_rejects_without_visual; reflexivity.
Defined.

(** On a host whose output directory is fine, the two errors are the ones
    of the source: the empty list and the missing visual content. *)
Lemma composeVideo_errors_plain (to_radians : dec -> dec) :
  composeVideo to_radians noOptions plainHost tt (Some []) "/app/output/o.mp4"
    = Throw Err.emptyResources
  /\ composeVideo to_radians noOptions plainHost tt None "/app/output/o.mp4"
    = Throw Err.emptyResources
  /\ composeVideo to_radians noOptions plainHost tt
       (Some [plainResource "audio" "/app/uploads/a.mp3"]) "/app/output/o.mp4"
    = Throw Err.noVisual.
Proof. repeat split. Qed.

(** ** Images without a duration *)

Lemma withDefaultDuration_type r t : isType t (withDefaultDuration r) = isType t r.
Proof. unfold withDefaultDuration. destruct (_ && _); reflexivity. Qed.

Lemma withDefaultDuration_path r : path (withDefaultDuration r) = path r.
Proof. unfold withDefaultDuration. destruct (_ && _); reflexivity. Qed.

Lemma withDefaultDuration_transition r :
  transition (withDefaultDuration r) = transition r
  /\ transitionDuration (withDefaultDuration r) = transitionDuration r.
Proof. unfold withDefaultDuration. destruct (_ && _); split; reflexivity. Qed.

Lemma withDefaultDuration_other r :
  isType "image" r = false -> withDefaultDuration r = r.
Proof. unfold withDefaultDuration. intros ->. reflexivity. Qed.

Lemma filter_isType_default t rs :
  filter (isType t) (map withDefaultDuration rs) = map withDefaultDuration (filter (isType t) rs).
Proof.
  induction rs as [|r rs IH]; [reflexivity|].
  cbn [map]. rewrite !filter_cons, withDefaultDuration_type.
  destruct (decide _); cbn [map]; rewrite IH; reflexivity.
Qed.

Lemma map_default_not_image t rs :
  String.eqb t "image" = false ->
  map withDefaultDuration (filter (isType t) rs) = filter (isType t) rs.
Proof.
  intros Ht. induction rs as [|r rs IH]; [reflexivity|].
  rewrite filter_cons. destruct (decide _) as [Hr|Hr]; [|exact IH].
  cbn [map]. rewrite IH. f_equal. apply withDefaultDuration_other.
  unfold isType in *. destruct (String.eqb_spec (type r) t) as [->|]; [|contradiction].
  exact Ht.
Qed.

Lemma imageDuration_default r : imageDuration (withDefaultDuration r) = imageDuration r.
Proof.
  unfold withDefaultDuration, imageDuration, num_or.
  destruct (isType "image" r); simpl; [|reflexivity].
  destruct (duration r) as [d|] eqn:Hd; simpl; [|reflexivity].
  destruct (Dec.truthy d) eqn:Ht; simpl; rewrite ?Hd, ?Ht; reflexivity.
Qed.

Section DefaultDuration.

Variable to_radians : dec -> dec.
Variable o : options.
Variable h : Host.

Lemma buildScaleAndPositionFilter_default lbl r w hh :
  buildScaleAndPositionFilter to_radians o lbl (withDefaultDuration r) w hh
  = buildScaleAndPositionFilter to_radians o lbl r w hh.
Proof. unfold withDefaultDuration. destruct (_ && _); reflexivity. Qed.

Lemma imageFilter_default n r :
  imageFilter to_radians o n (withDefaultDuration r) = imageFilter to_radians o n r.
Proof.
  unfold imageFilter.
  rewrite imageDuration_default, buildScaleAndPositionFilter_default.
  destruct (withDefaultDuration_transition r) as [-> ->]. reflexivity.
Qed.

Lemma processImage_default fs b r :
  processImage to_radians o h fs b (withDefaultDuration r)
  = processImage to_radians o h fs b r.
Proof.
  unfold processImage.
  rewrite withDefaultDuration_path, imageFilter_default, imageDuration_default.
  reflexivity.
Qed.

Lemma forImages_default fs imgs b :
  forImages to_radians o h fs (map withDefaultDuration imgs) b
  = forImages to_radians o h fs imgs b.
Proof.
  revert b. induction imgs as [|img rest IH]; intros b; [reflexivity|].
  cbn [map forImages]. rewrite processImage_default.
  destruct (processImage _ _ _ _ _ _) as [b'|e]; simpl; [apply IH|reflexivity].
Qed.

(** C5, as the code has it.  An image whose [duration] is absent or zero
    is not rejected: [composeVideo] treats it exactly as the same image
    with a duration of three seconds ([img.duration || 3]). *)
Theorem composeVideo_defaults_image_duration
    (fs : FS h) (rs : list resource) (outputPath : string) :
  composeVideo to_radians o h fs (Some (map withDefaultDuration rs)) outputPath
  = composeVideo to_radians o h fs (Some rs) outputPath.
Proof.
  unfold composeVideo.
  destruct (prepareOutput h fs outputPath) as [fs0|e]; simpl; [|reflexivity].
  destruct rs as [|r rs]; [reflexivity|].
  cbn [map]. cbv beta iota.
  change (withDefaultDuration r :: map withDefaultDuration rs)
    with (map withDefaultDuration (r :: rs)).
  generalize (r :: rs). intros l.
  assert (Hex : forallb (fun r0 => existsSync h fs0 (path r0)) (map withDefaultDuration l)
                = forallb (fun r0 => existsSync h fs0 (path r0)) l).
  { induction l as [|x l IH]; [reflexivity|].
    cbn [map forallb]. rewrite withDefaultDuration_path, IH. reflexivity. }
  rewrite Hex, !filter_isType_default.
  rewrite (map_default_not_image "video"), (map_default_not_image "audio") by reflexivity.
  rewrite !length_map, forImages_default.
  unfold mapArgs. rewrite !length_map.
  reflexivity.
Qed.

End DefaultDuration.

(** Against the wording of C5 in the specification: an image without
    [duration] is not rejected, it reaches the encoder trimmed to three
    seconds. *)
Lemma image_without_duration_is_not_rejected :
  duration (plainResource "image" "/app/uploads/a.png") = None
  /\ ~ (exists e, composeVideo (fun d => d) noOptions plainHost tt
                    (Some [plainResource "image" "/app/uploads/a.png"])
                    "/app/output/o.mp4" = Throw e)
  /\ (exists b, composeVideo (fun d => d) noOptions plainHost tt
                  (Some [plainResource "image" "/app/uploads/a.png"])
                  "/app/output/o.mp4" = OK (tt, b)
        /\ Str.includes (filterGraphText b) "trim=duration=3[outv]" = true).
Proof.
  split; [reflexivity|]. split.
  - intros [e He]. vm_compute in He. discriminate.
  - eexists. split; [vm_compute; reflexivity|vm_compute; reflexivity].
Qed.

(** The handler of [/api/compose] forwards such an image as it is: the
    request is answered 200 after the encoder has run. *)
Lemma compose_accepts_image_without_duration :
  rq_duration (localResource "image" "photo.png") = None
  /\ status (fst (compose "/app" (fun _ => true) (fun _ => None)
                    (composeVideoOn (fun _ => OK "ffmpeg")) "1700000000001" photoDisk
                    (Some [localResource "image" "photo.png"]) noOptions)) = 200.
Proof. split; [reflexivity|vm_compute; reflexivity]. Qed.

(** A negative [duration] is neither rejected nor defaulted: it is printed
    into the [trim] filter. *)
Lemma image_negative_duration_passes :
  exists b,
    composeVideo (fun d => d) noOptions plainHost tt (Some [negativeImage])
      "/app/output/o.mp4" = OK (tt, b)
    /\ Str.includes (filterGraphText b) "trim=duration=-2[outv]" = true.
Proof. eexists. split; vm_compute; reflexivity. Qed.

(** ** The filter graph does not depend on the host *)

Lemma renameLast_length label fc :
  length (snd (renameLast label fc)) = length fc.
Proof.
  induction fc as [|x t IH]; [reflexivity|].
  simpl. destruct (renameLast label t) as [found t'] eqn:Ht. simpl in IH.
  destruct found; simpl; [congruence|].
  destruct (Str.endsWith x label); reflexivity.
Qed.

Section Graph.

Variable to_radians : dec -> dec.
Variable o : options.

Lemma fragments_length images videos audios :
  length images + length videos <= length (fragments to_radians o images videos audios).
Proof.
  unfold fragments. rewrite !length_app.
  assert (Hi : forall n l, length (imageFrags to_radians o n l) = length l).
  { intros n l. revert n. induction l; intros n; simpl; [|rewrite IHl]; reflexivity. }
  assert (Hv : forall n l, length (videoFrags to_radians o n l) = length l).
  { intros n l. revert n. induction l; intros n; simpl; [|rewrite IHl]; reflexivity. }
  rewrite Hi, Hv. lia.
Qed.

Lemma graph_nonempty images videos audios :
  images <> [] \/ videos <> [] ->
  graph to_radians o images videos audios <> [].
Proof.
  intros Hvis Hnil.
  assert (Hlen : 0 < length (fragments to_radians o images videos audios)).
  { pose proof (fragments_length images videos audios).
    destruct Hvis as [Hi|Hv]; [destruct images|destruct videos]; simpl in *;
      try congruence; lia. }
  assert (Hconn : 0 < length (connectVideo (visualInputs images videos)
                                (fragments to_radians o images videos audios))).
  { unfold connectVideo. destruct (visualInputs images videos) as [|v [|v' vs]];
      [assumption|rewrite renameLast_length; assumption|rewrite length_app; lia]. }
  unfold graph, mixAudio in Hnil.
  destruct (audioInputsOf _ audios).
  - rewrite Hnil in Hconn. simpl in Hconn. lia.
  - apply (f_equal (@length string)) in Hnil. rewrite length_app in Hnil.
    simpl in Hnil. lia.
Qed.

End Graph.

(** C6. Two runs of [composeVideo] on the same resources and options that
    both reach the encoder, on any two hosts (file system, working
    directory) and for any two output paths, build the same
    [filterComplex] array, hence the same text; and that text is the value
    of the [-filter_complex] argument of each run. *)
Theorem filter_graph_deterministic
    (to_radians : dec -> dec) (o : options) (resources : option (list resource))
    (h1 h2 : Host) (fs1 : FS h1) (fs2 : FS h2) (out1 out2 : string)
    (fs1' : FS h1) (fs2' : FS h2) (b1 b2 : build) :
  composeVideo to_radians o h1 fs1 resources out1 = OK (fs1', b1) ->
  composeVideo to_radians o h2 fs2 resources out2 = OK (fs2', b2) ->
  filterGraphText b1 = filterGraphText b2
  /\ (exists pre post, args b1 = pre ++ ["-filter_complex"; filterGraphText b1] ++ post)
  /\ (exists pre post, args b2 = pre ++ ["-filter_complex"; filterGraphText b2] ++ post).
Proof.
  intros H1 H2.
  apply composeVideo_OK in H1 as (rs1 & -> & _ & Hvis & ->).
  apply composeVideo_OK in H2 as (rs2 & [= <-] & _ & _ & ->).
  pose proof (graph_nonempty to_radians o _ _ (audiosOf rs1) Hvis) as Hne.
  split; [reflexivity|].
  split.
  - exists (["-y"] ++ inputArgs h1 (imagesOf rs1) (videosOf rs1) (audiosOf rs1)).
    eexists. unfold plan, outputArgs, filterGraphText. cbn [args filterComplex].
    destruct (graph to_radians o _ _ _) eqn:Hg; [congruence|].
    rewrite <- !app_assoc. reflexivity.
  - exists (["-y"] ++ inputArgs h2 (imagesOf rs1) (videosOf rs1) (audiosOf rs1)).
    eexists. unfold plan, outputArgs, filterGraphText. cbn [args filterComplex].
    destruct (graph to_radians o _ _ _) eqn:Hg; [congruence|].
    rewrite <- !app_assoc. reflexivity.
Qed.

Lemma filter_graph_deterministic_witness :
  exists b1 b2,
    composeVideo (fun d => d) exampleOptions plainHost tt (Some exampleResources)
      "/app/output/one.mp4" = OK (tt, b1)
    /\ composeVideo (fun d => d) exampleOptions otherHost
         tt (Some exampleResources) "two.mp4" = OK (tt, b2)
    /\ filterGraphText b1 = filterGraphText b2.
Proof.
  eexists. eexists. split; [vm_compute; reflexivity|]. split; [vm_compute; reflexivity|].
  eapply (filter_graph_deterministic (fun d => d) exampleOptions (Some exampleResources)
            plainHost otherHost tt tt "/app/output/one.mp4" "two.mp4" tt tt).
  - vm_compute. reflexivity.
  - vm_compute. reflexivity.
Defined.

(** ** The order of the arguments *)

Lemma in_concat_map_split {A B : Type} (f : A -> list B) (x : A) (l : list A) :
  In x l -> exists pre post, concat (map f l) = pre ++ f x ++ post.
Proof.
  induction l as [|y l IH]; intros Hin; [destruct Hin|].
  destruct Hin as [->|Hin].
  - exists [], (concat (map f l)). reflexivity.
  - destruct (IH Hin) as (pre & post & Heq).
    exists (f y ++ pre), post. simpl. rewrite Heq, <- app_assoc. reflexivity.
Qed.

Lemma in_filter_isType t (r : resource) rs :
  In r rs -> isType t r = true -> In r (filter (isType t) rs).
Proof.
  intros Hin Ht. apply list_elem_of_In, list_elem_of_filter.
  split; [rewrite Ht; exact I|apply list_elem_of_In; exact Hin].
Qed.

(** The flags the builder writes are the flags the specification asks
    for, with the numbers as they are printed. *)
Lemma seekArgs_expected (r : resource) :
  seekArgs r
  = expectedFlag "-ss" (startTime r) (Dec.to_string (num_default (startTime r) (Dec.of_Z 0)))
    ++ expectedFlag "-t" (duration r) (Dec.to_string (num_default (duration r) (Dec.of_Z 0))).
Proof.
  unfold seekArgs, expectedFlag, defined_pos, Dec.pos.
  destruct (startTime r) as [st|], (duration r) as [d|]; reflexivity.
Qed.

Lemma printedAs_default (x : option dec) :
  printedAs x (Dec.to_string (num_default x (Dec.of_Z 0))).
Proof. intros v -> _. reflexivity. Qed.

Lemma seekedArgs_group (h : Host) (r : resource) :
  isType "image" r = false -> inputGroup h r (seekedArgs h r).
Proof.
  intros Hkind. unfold inputGroup, seekedArgs. rewrite Hkind, seekArgs_expected.
  eexists. eexists. split; [rewrite <- app_assoc; reflexivity|].
  split; apply printedAs_default.
Qed.

Lemma imageArgs_group (h : Host) (r : resource) :
  isType "image" r = true -> inputGroup h r (imageArgs h r).
Proof. intros Hkind. unfold inputGroup. rewrite Hkind. reflexivity. Qed.

Lemma audio_not_image (r : resource) : isType "audio" r = true -> isType "image" r = false.
Proof. unfold isType. intros H. apply String.eqb_eq in H. rewrite H. reflexivity. Qed.

Lemma groups_of_kind (h : Host) (t : string) (f : resource -> list string) (rs : list resource) :
  (forall r, isType t r = true -> inputGroup h r (f r)) ->
  Forall2 (inputGroup h) (filter (isType t) rs) (map f (filter (isType t) rs)).
Proof.
  intros Hf. apply Forall2_fmap_r, Forall_Forall2_diag, Forall_forall.
  intros r Hin. apply Hf. apply list_elem_of_filter in Hin as [Hr _].
  apply Is_true_true. exact Hr.
Qed.

(** C7. In the argument list handed to the encoder the overwrite flag
    [-y] comes first and the resolved output path last.  Between them come
    the arguments of the inputs, one group per resource, and then the
    output section.  The group of a video or an audio resource is: [-ss]
    and the printed [startTime] when the resource has a positive
    [startTime], then [-t] and the printed [duration] when it has a
    positive [duration], then [-i] and the path of that resource, with
    nothing in between; a number that is absent, zero or negative gives no
    flag.  The group of an image is [-i] and its path. *)
Theorem seek_flags_precede_input
    (to_radians : dec -> dec) (o : options) (h : Host) (fs fs' : FS h)
    (rs : list resource) (outputPath : string) (b : build) :
  composeVideo to_radians o h fs (Some rs) outputPath = OK (fs', b) ->
  hd_error (args b) = Some "-y"
  /\ last (args b) = Some (path_resolve h outputPath)
  /\ (exists groups,
        args b = ["-y"] ++ concat groups
                 ++ outputArgs to_radians o h (imagesOf rs) (videosOf rs) (audiosOf rs)
                      outputPath
        /\ Forall2 (inputGroup h) (imagesOf rs ++ videosOf rs ++ audiosOf rs) groups)
  /\ forall r, In r rs -> isType "video" r || isType "audio" r = true ->
       exists pre ssText tText post,
         args b = pre ++ expectedFlag "-ss" (startTime r) ssText
                      ++ expectedFlag "-t" (duration r) tText
                      ++ ["-i"; path_resolve h (path r)] ++ post
         /\ printedAs (startTime r) ssText
         /\ printedAs (duration r) tText.
Proof.
  intros Hrun. apply composeVideo_OK in Hrun as (rs' & [= <-] & _ & _ & ->).
  unfold plan. cbn [args].
  split; [reflexivity|]. split.
  { unfold outputArgs. rewrite !app_assoc. apply last_snoc. }
  split.
  { exists (map (imageArgs h) (imagesOf rs) ++ map (seekedArgs h) (videosOf rs)
              ++ map (seekedArgs h) (audiosOf rs)).
    split.
    - unfold inputArgs. rewrite !concat_app, <- !app_assoc. reflexivity.
    - repeat apply Forall2_app; apply groups_of_kind; intros r Hr.
      + apply imageArgs_group. exact Hr.
      + apply seekedArgs_group, GraphFacts.video_not_image. exact Hr.
      + apply seekedArgs_group, audio_not_image. exact Hr. }
  intros r Hin Hkind. unfold inputArgs.
  assert (Hsplit : exists pre post, forall rest,
            concat (map (seekedArgs h) (videosOf rs))
            ++ concat (map (seekedArgs h) (audiosOf rs)) ++ rest
            = pre ++ seekedArgs h r ++ post ++ rest).
  { apply orb_true_iff in Hkind as [Hv|Ha].
    - destruct (in_concat_map_split (seekedArgs h) r (videosOf rs)
                  (in_filter_isType "video" r rs Hin Hv)) as (pre & post & ->).
      exists pre, (post ++ concat (map (seekedArgs h) (audiosOf rs))).
      intros rest. rewrite <- !app_assoc. reflexivity.
    - destruct (in_concat_map_split (seekedArgs h) r (audiosOf rs)
                  (in_filter_isType "audio" r rs Hin Ha)) as (pre & post & ->).
      exists (concat (map (seekedArgs h) (videosOf rs)) ++ pre), post.
      intros rest. rewrite <- !app_assoc. reflexivity. }
  destruct Hsplit as (pre & post & Heq).
  exists (["-y"] ++ concat (map (imageArgs h) (imagesOf rs)) ++ pre).
  exists (Dec.to_string (num_default (startTime r) (Dec.of_Z 0))).
  exists (Dec.to_string (num_default (duration r) (Dec.of_Z 0))).
  exists (post ++ outputArgs to_radians o h (imagesOf rs) (videosOf rs) (audiosOf rs)
                    outputPath).
  split; [|split; apply printedAs_default].
  rewrite <- !app_assoc, Heq. unfold seekedArgs. rewrite seekArgs_expected, <- !app_assoc.
  reflexivity.
Qed.

Lemma seek_flags_precede_input_witness :
  exists b,
    composeVideo (fun d => d) noOptions plainHost tt (Some [seekedAudio; seekedVideo; lateVideo])
      "/app/output/out.mp4" = OK (tt, b)
    /\ hd_error (args b) = Some "-y"
    /\ last (args b) = Some "/app/output/out.mp4"
    /\ (exists pre post,
          args b = pre ++ ["-ss"; "1.5"; "-t"; "4"; "-i"; "/app/uploads/v.mp4"] ++ post)
    /\ (exists pre post, args b = pre ++ ["-ss"; "2.5"; "-i"; "/app/uploads/late.mp4"] ++ post)
    /\ (exists pre post, args b = pre ++ ["-t"; "10"; "-i"; "/app/uploads/m.mp3"] ++ post).
Proof.
  eexists. split; [vm_compute; reflexivity|].
  match goal with |- context [args ?b] => set (built := b) end.
  destruct (seek_flags_precede_input (fun d => d) noOptions plainHost tt tt
              [seekedAudio; seekedVideo; lateVideo] "/app/output/out.mp4" built)
    as (Hhd & Hlast & _ & Hseek); [vm_compute; reflexivity|].
  split; [exact Hhd|]. split; [exact Hlast|].
  assert (Hgroup : forall r, In r [seekedAudio; seekedVideo; lateVideo] ->
            isType "video" r || isType "audio" r = true ->
            forall ssText tText,
              (forall v, startTime r = Some v -> ssText = Dec.to_string v) ->
              (forall v, duration r = Some v -> tText = Dec.to_string v) ->
              plainNumber (num_default (startTime r) (Dec.of_Z 0)) = true ->
              plainNumber (num_default (duration r) (Dec.of_Z 0)) = true ->
              exists pre post,
                args built = pre ++ (expectedFlag "-ss" (startTime r) ssText
                                 ++ expectedFlag "-t" (duration r) tText
                                 ++ ["-i"; path_resolve plainHost (path r)]) ++ post).
  { intros r Hin Hkind ssText tText Hss Ht Hp1 Hp2.
    destruct (Hseek r Hin Hkind) as (pre & ss & t & post & Heq & Hs & Hd).
    exists pre, post. rewrite Heq, <- !app_assoc.
    assert (Hflag : forall flag x a c,
              printedAs x a -> (forall v, x = Some v -> c = Dec.to_string v) ->
              plainNumber (num_default x (Dec.of_Z 0)) = true ->
              expectedFlag flag x a = expectedFlag flag x c).
    { intros flag [v|] a c Ha Hc Hp; [|reflexivity]. simpl.
      rewrite (Ha v eq_refl Hp), (Hc v eq_refl). reflexivity. }
    rewrite (Hflag "-ss" _ ss ssText Hs Hss Hp1), (Hflag "-t" _ t tText Hd Ht Hp2).
    reflexivity. }
  split; [|split].
  - apply (Hgroup seekedVideo ltac:(simpl; tauto) eq_refl "1.5" "4");
      (reflexivity || (intros v [= <-]; reflexivity)).
  - apply (Hgroup lateVideo ltac:(simpl; tauto) eq_refl "2.5" "");
      (reflexivity || (intros v [= <-]; reflexivity) || discriminate).
  - apply (Hgroup seekedAudio ltac:(simpl; tauto) eq_refl "" "10");
      (reflexivity || (intros v [= <-]; reflexivity) || discriminate).
Defined.

(** ** The example of the specification *)

(** C3, as the code has it.  Two images of three seconds with a fade of
    half a second and one audio at volume 50, at 1280x720 and 25 fps, give
    two visual fragments ending in [[v0]] and [[v1]], the audio fragment
    [[2:a]volume=0.5[a2]], the operator [concat=n=2:v=1:a=0[outv]] and an
    [amix] operator that turns [[a2]] into [[outa]]; the [-map] arguments
    are [[outv]] and [[outa]]. *)
Theorem example_two_images_one_audio (to_radians : dec -> dec) :
  exists b,
    composeVideo to_radians exampleOptions plainHost tt (Some exampleResources)
      "/app/output/composed.mp4" = OK (tt, b)
    /\ filterComplex b =
         [exampleFragment "0"; exampleFragment "1"; "[2:a]volume=0.5[a2]";
          "[v0][v1]concat=n=2:v=1:a=0[outv]";
          "[a2]amix=inputs=1:duration=longest:dropout_transition=2[outa]"]
    /\ Str.endsWith (exampleFragment "0") "[v0]" = true
    /\ Str.endsWith (exampleFragment "1") "[v1]" = true
    /\ mapTargets (args b) = ["[outv]"; "[outa]"]
    /\ args b =
         ["-y"; "-i"; "/app/uploads/a.png"; "-i"; "/app/uploads/b.png";
          "-i"; "/app/uploads/c.mp3"; "-filter_complex"; filterGraphText b;
          "-vcodec"; "libx264"; "-preset"; "medium"; "-crf"; "23";
          "-pix_fmt"; "yuv420p"; "-shortest"; "-map"; "[outv]";
          "-acodec"; "aac"; "-b:a"; "192k"; "-ar"; "44100"; "-ac"; "2";
          "-map"; "[outa]"; "/app/output/composed.mp4"].
Proof.
  eexists. split; [vm_compute; reflexivity|].
  repeat split; vm_compute; reflexivity.
Qed.

(** Against the wording of C3 in the specification: the audio pad the
    invocation maps is [[outa]], not [[a2]]. *)
Lemma example_does_not_map_a2 :
  ~ (exists b,
       composeVideo (fun d => d) exampleOptions plainHost tt (Some exampleResources)
         "/app/output/composed.mp4" = OK (tt, b)
       /\ mapTargets (args b) = ["[outv]"; "[a2]"]).
Proof.
  intros (b & Hrun & Hmap). vm_compute in Hrun.
  injection Hrun as <-. vm_compute in Hmap. discriminate.
Qed.

(** ** Temporary files of [/api/compose] *)

Section ComposeCleanup.

Variable dirname : string.
Variable validUrl : string -> bool.
Variable download : string -> option string.
Variable composeVideoRun :
  gmap string node -> list resource -> string -> options -> gmap string node * result string.
Variable now : string.

(** When [composeVideo] throws, the handler answers 500 and leaves the
    disk as [composeVideo] left it: no temporary file is removed. *)
Lemma compose_failure_cleans_nothing fs rs o resourcePaths tempFiles fs1 fs2 e :
  rs <> [] ->
  collect dirname validUrl download fs rs [] [] = inr (resourcePaths, tempFiles, fs1) ->
  composeVideoRun fs1 resourcePaths
    (Path.join (outputDir dirname) ("composed_" +:+ now +:+ ".mp4")) (composeOptions o)
    = (fs2, Throw e) ->
  compose dirname validUrl download composeVideoRun now fs (Some rs) o
    = (mkResponse 500 None, fs2).
Proof.
  intros Hne Hcollect Hrun. unfold compose.
  destruct rs as [|r rs]; [contradiction|].
  rewrite Hcollect, Hrun. reflexivity.
Qed.

Lemma cleanup_removes_file tempFiles : forall fs t,
  In t tempFiles -> cleanup tempFiles fs !! t <> Some File.
Proof.
  unfold cleanup.
  assert (Hkeep : forall l (fs : gmap string node) t,
            fs !! t <> Some File ->
            fold_left (fun fs0 tempFile =>
               if Disk.existsSync fs0 tempFile
               then match Disk.unlinkSync fs0 tempFile with
                    | Some fs' => fs'
                    | None => fs0
                    end
               else fs0) l fs !! t <> Some File).
  { induction l as [|x l IH]; intros fs t Hno; [exact Hno|].
    simpl. apply IH. destruct (Disk.existsSync fs x); [|exact Hno].
    unfold Disk.unlinkSync. destruct (fs !! x) as [[|]|] eqn:Hx; try exact Hno.
    destruct (decide (x = t)) as [->|Hneq].
    - rewrite lookup_delete_eq. discriminate.
    - rewrite lookup_delete_ne by exact Hneq. exact Hno. }
  induction tempFiles as [|x l IH]; intros fs t Hin; [destruct Hin|].
  simpl. destruct Hin as [->|Hin]; [|apply IH; exact Hin].
  apply Hkeep. unfold Disk.existsSync, Disk.unlinkSync.
  destruct (fs !! t) as [[|]|] eqn:Ht.
  - rewrite bool_decide_eq_true_2 by eauto. rewrite lookup_delete_eq. discriminate.
  - rewrite bool_decide_eq_true_2 by eauto. rewrite Ht. discriminate.
  - rewrite bool_decide_eq_false_2 by (intros [? ?]; congruence). rewrite Ht. discriminate.
Qed.

(** On the success path every temporary file is gone after the handler. *)
Lemma compose_success_cleans fs rs o resourcePaths tempFiles fs1 fs2 cmd :
  rs <> [] ->
  collect dirname validUrl download fs rs [] [] = inr (resourcePaths, tempFiles, fs1) ->
  composeVideoRun fs1 resourcePaths
    (Path.join (outputDir dirname) ("composed_" +:+ now +:+ ".mp4")) (composeOptions o)
    = (fs2, OK cmd) ->
  exists fs3,
    compose dirname validUrl download composeVideoRun now fs (Some rs) o
      = (mkResponse 200 (Some cmd), fs3)
    /\ forall t, In t tempFiles -> fs3 !! t <> Some File.
Proof.
  intros Hne Hcollect Hrun. unfold compose.
  destruct rs as [|r rs]; [contradiction|].
  rewrite Hcollect, Hrun. eexists. split; [reflexivity|].
  intros t Hin. apply cleanup_removes_file. exact Hin.
Qed.

End ComposeCleanup.

(** C9, at its failing input.  A request for one remote audio file: the
    download succeeds, [composeVideo] throws for want of an image or a video,
    the handler answers 500, and the downloaded file is still on the disk. *)
Theorem compose_failure_leaks_download :
  let run := compose "/app" (fun _ => true) (fun _ => Some downloadedName)
               (composeVideoOn (fun _ => OK "ffmpeg")) "1700000000001" freshDisk
               (Some [remoteResource "audio" "https://example.com/a.mp3"]) noOptions in
  status (fst run) = 500
  /\ freshDisk !! ("/app/uploads/" +:+ downloadedName) = None
  /\ snd run !! ("/app/uploads/" +:+ downloadedName) = Some File.
Proof. vm_compute. repeat split. Qed.

(** The same for an image whose encoder run fails. *)
Lemma compose_encoder_failure_leaks_download :
  let run := compose "/app" (fun _ => true) (fun _ => Some downloadedName)
               (composeVideoOn (fun _ => Throw "exit code 1")) "1700000000001" freshDisk
               (Some [remoteResource "image" "https://example.com/a.png"]) noOptions in
  status (fst run) = 500
  /\ snd run !! ("/app/uploads/" +:+ downloadedName) = Some File.
Proof. vm_compute. repeat split. Qed.

(** On success the same request leaves no downloaded file. *)
Lemma compose_success_removes_download :
  let run := compose "/app" (fun _ => true) (fun _ => Some downloadedName)
               (composeVideoOn (fun _ => OK "ffmpeg")) "1700000000001" freshDisk
               (Some [remoteResource "image" "https://example.com/a.png"]) noOptions in
  status (fst run) = 200
  /\ snd run !! ("/app/uploads/" +:+ downloadedName) = None.
Proof. vm_compute. repeat split. Qed.

(** ** [DELETE /api/files/delete] stays inside its directory *)

Section DeleteFile.

Import StrFacts PathFacts.

Variable dirname : string.
Hypothesis dirname_absolute : Str.startsWith dirname "/" = true.

Lemma legal_name f :
  Str.truthy f = true -> illegalName f = false -> f = "." \/ plainSeg f = true.
Proof.
  intros Hne Hlegal. unfold illegalName in Hlegal.
  apply orb_false_iff in Hlegal as [Hlegal _].
  apply orb_false_iff in Hlegal as [Hdots Hslash].
  apply includes_char in Hslash.
  destruct (String.eqb_spec f ".") as [->|Hdot]; [left; reflexivity|right].
  unfold plainSeg, cleanSeg, Path.isDots. rewrite Hslash.
  destruct (String.eqb_spec f "") as [->|_]; [discriminate|].
  destruct (String.eqb_spec f ".") as [|_]; [contradiction|].
  destruct (String.eqb_spec f "..") as [->|_]; [|reflexivity].
  rewrite includes_self in Hdots. discriminate.
Qed.

Lemma dirPathOf_cases directory :
  dirPathOf dirname directory = Path.join dirname "uploads"
  \/ dirPathOf dirname directory = Path.join dirname "output".
Proof. unfold dirPathOf, uploadsDir, outputDir. destruct (String.eqb _ _); auto. Qed.

Lemma dirPathOf_child directory name :
  plainSeg name = true ->
  Path.join (dirPathOf dirname directory) name
  = dirPathOf dirname directory +:+ "/" +:+ name.
Proof.
  intros Hname. destruct (dirPathOf_cases directory) as [-> | ->];
    apply join_child; (assumption || reflexivity).
Qed.

Lemma dirPathOf_dot directory :
  Path.join (dirPathOf dirname directory) "." = dirPathOf dirname directory.
Proof.
  destruct (dirPathOf_cases directory) as [-> | ->];
    apply join_dot; (assumption || reflexivity).
Qed.

(** C10, for an absolute [__dirname].  A file name with [..], [/] or [\],
    and a file name whose joined
    path does not start with the chosen directory, are answered 400 with
    the disk untouched.  And whenever the handler changes the disk, it
    answered 200 after removing one file that lies directly inside the
    uploads or the output directory: [<dir>/<name>], the name holding no
    separator. *)
Theorem deleteFile_confined :
  (forall fs directory f,
     illegalName f = true ->
     deleteFile dirname fs directory (Some f) = (400, fs))
  /\ (forall fs directory f,
        Str.startsWith (Path.join (dirPathOf dirname directory) f)
          (dirPathOf dirname directory) = false ->
        deleteFile dirname fs directory (Some f) = (400, fs))
  /\ (forall fs directory filename st fs',
        fs !! uploadsDir dirname <> Some File ->
        fs !! outputDir dirname <> Some File ->
        deleteFile dirname fs directory filename = (st, fs') ->
        fs' = fs
        \/ exists name,
             filename = Some name
             /\ Str.all (notChar "/") name = true
             /\ (directory = Some "uploads" \/ directory = Some "output")
             /\ fs !! (dirPathOf dirname directory +:+ "/" +:+ name) = Some File
             /\ fs' = delete (dirPathOf dirname directory +:+ "/" +:+ name) fs
             /\ st = 200).
Proof.
  split; [|split].
  - intros fs directory f Hbad. unfold deleteFile.
    destruct (negb (validDirectory directory)); [reflexivity|].
    destruct (negb (Str.truthy f)); [reflexivity|].
    rewrite Hbad. reflexivity.
  - intros fs directory f Hout. unfold deleteFile.
    destruct (negb (validDirectory directory)); [reflexivity|].
    destruct (negb (Str.truthy f)); [reflexivity|].
    destruct (illegalName f); [reflexivity|].
    rewrite Hout. reflexivity.
  - intros fs directory filename st fs' Hup Hout Hrun. unfold deleteFile in Hrun.
    destruct (validDirectory directory) eqn:Hdir; simpl in Hrun;
      [|injection Hrun as _ <-; left; reflexivity].
    destruct filename as [f|]; [|injection Hrun as _ <-; left; reflexivity].
    destruct (Str.truthy f) eqn:Hne; simpl in Hrun;
      [|injection Hrun as _ <-; left; reflexivity].
    destruct (illegalName f) eqn:Hlegal; [injection Hrun as _ <-; left; reflexivity|].
    destruct (negb (Str.startsWith _ _)); [injection Hrun as _ <-; left; reflexivity|].
    destruct (negb (Disk.existsSync fs _)); [injection Hrun as _ <-; left; reflexivity|].
    unfold Disk.unlinkSync in Hrun.
    destruct (fs !! Path.join (dirPathOf dirname directory) f) as [[|]|] eqn:Hnode;
      try (injection Hrun as _ <-; left; reflexivity).
    injection Hrun as <- <-.
    destruct (legal_name f Hne Hlegal) as [-> | Hplain].
    + exfalso. rewrite dirPathOf_dot in Hnode.
      unfold dirPathOf in Hnode. destruct (String.eqb _ _); contradiction.
    + right. exists f. rewrite dirPathOf_child in * by exact Hplain.
      split; [reflexivity|]. split; [apply plainSeg_free; exact Hplain|].
      split; [|auto].
      unfold validDirectory in Hdir. destruct directory as [d|]; [|discriminate].
      apply andb_true_iff in Hdir as [_ Hd]. apply orb_true_iff in Hd as [Hd|Hd];
        apply String.eqb_eq in Hd; subst; auto.
Qed.

End DeleteFile.

Lemma deleteFile_confined_witness :
  deleteFile "/app" demoDisk (Some "uploads") (Some "../server.js") = (400, demoDisk)
  /\ deleteFile "/app" demoDisk (Some "uploads") (Some "clip.mp4")
     = (200, delete "/app/uploads/clip.mp4" demoDisk)
  /\ (delete "/app/uploads/clip.mp4" demoDisk = demoDisk
      \/ exists name,
           Some "clip.mp4" = Some name
           /\ Str.all (notChar "/") name = true
           /\ (Some "uploads" = Some "uploads" \/ Some "uploads" = Some "output")
           /\ demoDisk !! (dirPathOf "/app" (Some "uploads") +:+ "/" +:+ name) = Some File
           /\ delete "/app/uploads/clip.mp4" demoDisk
              = delete (dirPathOf "/app" (Some "uploads") +:+ "/" +:+ name) demoDisk
           /\ 200 = 200).
Proof.
  destruct (deleteFile_confined "/app" eq_refl) as (Hbad & _ & Hin).
  split; [apply Hbad; reflexivity|].
  assert (Hrun : deleteFile "/app" demoDisk (Some "uploads") (Some "clip.mp4")
                 = (200, delete "/app/uploads/clip.mp4" demoDisk))
    by (vm_compute; reflexivity).
  split; [exact Hrun|].
  apply (Hin demoDisk (Some "uploads") (Some "clip.mp4") 200
           (delete "/app/uploads/clip.mp4" demoDisk)).
  - vm_compute. discriminate.
  - vm_compute. discriminate.
  - exact Hrun.
Defined.

(** ** One visual resource, or several *)

Section Concat.

Import StrFacts CountFacts NumFacts PieceFacts EditFacts ChainFacts GraphFacts TallyFacts
  ShapeFacts.

Variable to_radians : dec -> dec.
Variable o : options.
Hypothesis color : colorOK o = true.

Lemma single_concat_count rs v :
  imagesOf rs ++ videosOf rs = [v] ->
  Str.count (Str.join ";" (graph to_radians o (imagesOf rs) (videosOf rs) (audiosOf rs)))
    "concat=" = 0.
Proof.
  intros Hv. rewrite (graph_single to_radians o (colorOK_padFree o color) rs v Hv).
  apply tallies_count; [discriminate|split; reflexivity|].
  apply (tallies_app "concat=" _ _ 0 0); [|apply amixPart_tallies].
  apply tallies_quiet. constructor;
    [apply renamedFragment_quiet; exact color|apply audioFrags_quiet].
Qed.

Lemma several_concat_count rs :
  2 <= length (imagesOf rs ++ videosOf rs) ->
  Str.count (Str.join ";" (graph to_radians o (imagesOf rs) (videosOf rs) (audiosOf rs)))
    "concat=" = 1.
Proof.
  intros Hlen. rewrite (graph_several to_radians o rs Hlen).
  apply tallies_count; [discriminate|split; reflexivity|].
  apply (tallies_app "concat=" _ _ 0 1).
  - apply tallies_quiet, Forall_app. split;
      [apply visualFrags_quiet; exact color|apply audioFrags_quiet].
  - apply (tallies_app "concat=" _ _ 1 0); [|apply amixPart_tallies].
    apply tallies_one, concatOf_tally.
Qed.


End Concat.


(** What the builder does with a video listed before an image: the image
    is input 0, the video input 1, and the concat reads [[v0]] then [[v1]],
    the image before the video. *)
Lemma video_before_image_order :
  exists b,
    composeVideo (fun d => d) noOptions plainHost tt (Some videoThenImage)
      "/app/output/o.mp4" = OK (tt, b)
    /\ inputPaths (args b) = ["/app/uploads/photo.png"; "/app/uploads/clip.mp4"]
    /\ In "[v0][v1]concat=n=2:v=1:a=0[outv]" (filterComplex b)
    /\ map (padOf plainHost b) (filter isVisual videoThenImage) = ["[v1]"; "[v0]"].
Proof.
  eexists. split; [vm_compute; reflexivity|].
  split; [vm_compute; reflexivity|].
  split; [vm_compute; auto|vm_compute; reflexivity].
Qed.


(** What C1 leaves out.  The background colour is written into the
    graph as it is.  With the colour [[v0]] and one photo, [replace]
    rewrites the first [[v0]] of the fragment, the one of the colour, and
    the fragment still ends in [[v0]]; with a colour that holds [concat=]
    the text of the graph of one photo holds a [concat=]. *)
Lemma colour_text_reaches_graph :
  (exists b,
     composeVideo (fun d => d) (colourOptions "[v0]") plainHost tt (Some onePhoto)
       "/app/output/o.mp4" = OK (tt, b)
     /\ hd_error (filterComplex b)
        = Some ("[0:v]loop=-1:size=1:start=0,scale=1280:720:force_original_aspect_ratio=decrease"
                +:+ ",pad=1280:720:(ow-iw)/2:(oh-ih)/2:color=[outv]"
                +:+ ",setsar=1,fps=25:round=up,trim=duration=3[v0]"))
  /\ (exists b,
        composeVideo (fun d => d) (colourOptions "red,concat=n=1") plainHost tt (Some onePhoto)
          "/app/output/o.mp4" = OK (tt, b)
        /\ Str.count (filterGraphText b) "concat=" = 1).
Proof. split; eexists; (split; [vm_compute; reflexivity|]); vm_compute; reflexivity. Qed.

(** ** The arguments after the inputs *)

Section PlanArgs.

Import GraphFacts.

Variable to_radians : dec -> dec.
Variable o : options.
Variable h : Host.

Lemma plan_args images videos audios outputPath :
  images <> [] \/ videos <> [] ->
  args (plan to_radians o h images videos audios outputPath)
  = ["-y"] ++ inputArgs h images videos audios
    ++ ["-filter_complex"; Str.join ";" (graph to_radians o images videos audios)]
    ++ videoCodecArgs o ++ ["-map"; "[outv]"]
    ++ audioMapArgs o images videos audios ++ [path_resolve h outputPath].
Proof.
  intros Hvis. unfold plan, outputArgs, mapArgs, audioMapArgs. cbn [args].
  pose proof (graph_nonempty to_radians o images videos audios Hvis) as Hne.
  destruct (graph to_radians o images videos audios) as [|c g]; [contradiction|].
  pose proof (visualInputs_length images videos) as Hlen.
  destruct (visualInputs images videos) as [|x l].
  { exfalso. simpl in Hlen.
    destruct Hvis as [Hi|Hv]; [destruct images|destruct videos]; simpl in *;
      congruence || lia. }
  destruct audios as [|a auds]; cbn [audioInputsOf];
    rewrite <- ?List.app_assoc; reflexivity.
Qed.

End PlanArgs.

(** ** The pads of the graph *)

Section Pads.

Import StrFacts CountFacts NumFacts PieceFacts EditFacts ChainFacts GraphFacts TallyFacts
  ShapeFacts.

Lemma app_inj_r (a b c : string) : a +:+ c = b +:+ c -> a = b.
Proof.
  intros Heq.
  assert (Hlen : String.length a = String.length b).
  { apply (f_equal String.length) in Heq. rewrite !StrFacts.length_app in Heq. lia. }
  revert b Heq Hlen. induction a as [|x a IH]; intros [|y b] Heq Hlen;
    try discriminate; [reflexivity|].
  rewrite !app_cons in Heq. injection Heq as -> Heq. f_equal.
  apply IH; [exact Heq|simpl in Hlen; lia].
Qed.

Lemma vlabel_inj i j : vlabel i = vlabel j -> i = j.
Proof.
  unfold vlabel. intros Heq. apply (inj (String.app "[v")) in Heq.
  apply app_inj_r in Heq. apply (inj pretty) in Heq. exact Heq.
Qed.

Lemma alabel_inj i j : alabel i = alabel j -> i = j.
Proof.
  unfold alabel. intros Heq. apply (inj (String.app "[a")) in Heq.
  apply app_inj_r in Heq. apply (inj pretty) in Heq. exact Heq.
Qed.

Lemma vlabel_not_out k : vlabel k <> "[outv]" /\ vlabel k <> "[outa]".
Proof.
  unfold vlabel. change ("[v" +:+ pretty k +:+ "]") with (String "[" (String "v" (pretty k +:+ "]"))).
  split; discriminate.
Qed.

Lemma alabel_not_out k : alabel k <> "[outv]" /\ alabel k <> "[outa]".
Proof.
  unfold alabel. change ("[a" +:+ pretty k +:+ "]") with (String "[" (String "a" (pretty k +:+ "]"))).
  split; discriminate.
Qed.

Lemma vlabels_elem x n m : x ∈ map vlabel (seq n m) -> exists k, x = vlabel k.
Proof.
  intros Hx. apply list_elem_of_In, List.in_map_iff in Hx as (k & <- & _). eauto.
Qed.

Lemma vlabels_NoDup n m : NoDup (map vlabel (seq n m)).
Proof.
  apply NoDup_ListNoDup, List.NoDup_map_NoDup_ForallPairs; [|apply List.seq_NoDup].
  intros i j _ _ Heq. apply vlabel_inj. exact Heq.
Qed.

Lemma filteredAudioPads_elem x n auds :
  x ∈ filteredAudioPads n auds -> exists k, n <= k /\ x = alabel k.
Proof.
  revert n. induction auds as [|a l IH]; intros n Hx; [inversion Hx|].
  cbn [filteredAudioPads] in Hx.
  destruct (audioFilters a).
  - destruct (IH _ Hx) as (k & Hk & ->). exists k. split; [lia|reflexivity].
  - apply elem_of_cons in Hx as [->|Hx]; [exists n; split; [lia|reflexivity]|].
    destruct (IH _ Hx) as (k & Hk & ->). exists k. split; [lia|reflexivity].
Qed.

Lemma filteredAudioPads_NoDup n auds : NoDup (filteredAudioPads n auds).
Proof.
  revert n. induction auds as [|a l IH]; intros n; [constructor|].
  cbn [filteredAudioPads]. destruct (audioFilters a); [apply IH|].
  constructor; [|apply IH].
  intros Hin. apply filteredAudioPads_elem in Hin as (k & Hk & Heq).
  apply alabel_inj in Heq. lia.
Qed.

Lemma concatOf_pad n : outPad (concatOf n) = "[outv]".
Proof.
  unfold concatOf. change ":v=1:a=0[outv]" with (":v=1:a=0" +:+ "[outv]").
  rewrite <- !StrFacts.app_assoc. apply outPad_outv.
Qed.

Lemma amixOf_pad n auds : outPad (amixOf n auds) = "[outa]".
Proof.
  unfold amixOf.
  change ":duration=longest:dropout_transition=2[outa]"
    with (":duration=longest:dropout_transition=2" +:+ "[outa]").
  rewrite <- !StrFacts.app_assoc. apply outPad_outa.
Qed.

Lemma amixPart_pads n auds :
  map outPad (amixPart n auds) = match auds with [] => [] | _ :: _ => ["[outa]"] end.
Proof. destruct auds; [reflexivity|]. simpl. rewrite amixOf_pad. reflexivity. Qed.

Lemma expectedPads_NoDup visuals audios :
  visuals <> [] -> NoDup (expectedPads visuals audios).
Proof.
  intros Hne. unfold expectedPads.
  assert (Houta : forall l : list string,
            NoDup l -> "[outa]" ∉ l ->
            NoDup (l ++ match audios with [] => [] | _ :: _ => ["[outa]"] end)).
  { intros l Hl Hno. destruct audios; [rewrite List.app_nil_r; exact Hl|].
    apply NoDup_app. split; [exact Hl|]. split; [|apply NoDup_singleton].
    intros x Hx Hx'. apply list_elem_of_singleton in Hx'. subst. contradiction. }
  destruct visuals as [|v [|v' vs]]; [contradiction| |].
  - apply Houta.
    + constructor; [|apply filteredAudioPads_NoDup].
      intros Hin. apply filteredAudioPads_elem in Hin as (k & _ & Heq).
      symmetry in Heq. apply alabel_not_out in Heq. exact Heq.
    + intros Hin. apply elem_of_cons in Hin as [Heq|Hin]; [discriminate|].
      apply filteredAudioPads_elem in Hin as (k & _ & Heq).
      symmetry in Heq. apply alabel_not_out in Heq. exact Heq.
  - apply Houta; clear Houta.
    + apply NoDup_app. split; [apply vlabels_NoDup|]. split.
      * intros x Hx Hx'. apply vlabels_elem in Hx as (k & ->).
        apply elem_of_app in Hx' as [Hx'|Hx'].
        -- apply filteredAudioPads_elem in Hx' as (j & _ & Heq).
           symmetry in Heq. exact (alabel_not_vlabel j k Heq).
        -- apply list_elem_of_singleton in Hx'. apply vlabel_not_out in Hx'. exact Hx'.
      * apply NoDup_app. split; [apply filteredAudioPads_NoDup|].
        split; [|apply NoDup_singleton].
        intros x Hx Hx'. apply list_elem_of_singleton in Hx'. subst.
        apply filteredAudioPads_elem in Hx as (k & _ & Heq).
        symmetry in Heq. apply alabel_not_out in Heq. exact Heq.
    + intros Hin. apply elem_of_app in Hin as [Hin|Hin].
      * apply vlabels_elem in Hin as (k & Heq).
        symmetry in Heq. apply vlabel_not_out in Heq. exact Heq.
      * apply elem_of_app in Hin as [Hin|Hin].
        -- apply filteredAudioPads_elem in Hin as (k & _ & Heq).
           symmetry in Heq. apply alabel_not_out in Heq. exact Heq.
        -- apply list_elem_of_singleton in Hin. discriminate.
Qed.

End Pads.

Section GraphPads.

Import StrFacts CountFacts NumFacts PieceFacts EditFacts ChainFacts GraphFacts TallyFacts
  ShapeFacts.

Variable to_radians : dec -> dec.
Variable o : options.
Hypothesis pads : padFree o = true.

Lemma visuals_cases (l : list resource) :
  l <> [] -> (exists v, l = [v]) \/ 2 <= length l.
Proof.
  destruct l as [|v [|v' l]]; [contradiction|left; eauto|right; simpl; lia].
Qed.

Lemma visuals_nonempty rs :
  imagesOf rs <> [] \/ videosOf rs <> [] -> imagesOf rs ++ videosOf rs <> [].
Proof.
  intros [Hi|Hv] Hnil; apply app_eq_nil in Hnil as [? ?]; contradiction.
Qed.

Lemma graph_pads rs :
  imagesOf rs <> [] \/ videosOf rs <> [] ->
  map outPad (graph to_radians o (imagesOf rs) (videosOf rs) (audiosOf rs))
  = expectedPads (imagesOf rs ++ videosOf rs) (audiosOf rs).
Proof.
  intros Hvis. unfold expectedPads.
  destruct (visuals_cases _ (visuals_nonempty rs Hvis)) as [[v Hv]|Hlen].
  - rewrite (graph_single to_radians o pads rs v Hv), Hv.
    rewrite map_app, amixPart_pads. cbn [map].
    rewrite audioFrags_pads. unfold renamedFragment.
    rewrite <- StrFacts.app_assoc, outPad_outv. reflexivity.
  - rewrite (graph_several to_radians o rs Hlen).
    rewrite !map_app, amixPart_pads, visualFrags_pads, audioFrags_pads. cbn [map].
    rewrite concatOf_pad, <- !List.app_assoc.
    destruct (imagesOf rs ++ videosOf rs) as [|v [|v' l]]; simpl in Hlen; try lia.
    rewrite <- !List.app_assoc. reflexivity.
Qed.

(** C2, as the code has it, for a background colour that holds no [[].
    The output pads of the chains of the graph are [[v0]], ...,
    [[v(n-1)]] (input indices) for the visual fragments when there are
    several, [[a<k>]] for the filtered audio inputs, [[outv]] and, with an
    audio resource, [[outa]]; they are pairwise distinct; the final video
    pad is [[outv]] with one visual resource as with several, and it is the
    pad the invocation maps. *)
Theorem pad_labels_distinct
    (h : Host) (fs fs' : FS h) (rs : list resource) (outputPath : string) (b : build) :
  composeVideo to_radians o h fs (Some rs) outputPath = OK (fs', b) ->
  map outPad (filterComplex b) = expectedPads (imagesOf rs ++ videosOf rs) (audiosOf rs)
  /\ NoDup (map outPad (filterComplex b))
  /\ In "[outv]" (map outPad (filterComplex b))
  /\ exists pre post, args b = pre ++ ["-map"; "[outv]"] ++ post.
Proof.
  intros Hrun. apply composeVideo_OK in Hrun as (rs' & [= <-] & _ & Hvis & ->).
  cbn [filterComplex plan].
  pose proof (graph_pads rs Hvis) as Hpads.
  split; [exact Hpads|]. split; [|split].
  - rewrite Hpads. apply expectedPads_NoDup, visuals_nonempty, Hvis.
  - rewrite Hpads. unfold expectedPads.
    destruct (imagesOf rs ++ videosOf rs) as [|v [|v' l]]; rewrite !List.in_app_iff;
      simpl; auto.
  - rewrite plan_args by exact Hvis.
    exists (["-y"] ++ inputArgs h (imagesOf rs) (videosOf rs) (audiosOf rs)
              ++ ["-filter_complex";
                  Str.join ";" (graph to_radians o (imagesOf rs) (videosOf rs) (audiosOf rs))]
              ++ videoCodecArgs o).
    eexists. rewrite <- !List.app_assoc. reflexivity.
Qed.

End GraphPads.

Lemma pad_labels_distinct_witness :
  exists b,
    composeVideo (fun d => d) exampleOptions plainHost tt (Some exampleResources)
      "/app/output/o.mp4" = OK (tt, b)
    /\ map outPad (filterComplex b) = ["[v0]"; "[v1]"; "[a2]"; "[outv]"; "[outa]"]
    /\ NoDup (map outPad (filterComplex b))
    /\ In "[outv]" (map outPad (filterComplex b))
    /\ exists pre post, args b = pre ++ ["-map"; "[outv]"] ++ post.
Proof.
  eexists. split; [vm_compute; reflexivity|].
  match goal with
  | |- context [filterComplex ?b] =>
      destruct (pad_labels_distinct (fun d => d) exampleOptions eq_refl
                  plainHost tt tt exampleResources "/app/output/o.mp4" b)
        as (Hpads & Hnodup & Hin & Hmap); [vm_compute; reflexivity|]
  end.
  split; [vm_compute; reflexivity|]. split; [exact Hnodup|]. split; [exact Hin|exact Hmap].
Defined.

(** Against C2 for every background colour: with the colour [[v0]] and
    one photo the renaming of the pad rewrites the colour, so that the
    only chain of the graph ends in [[v0]], and no chain ends in [[outv]],
    the pad that the invocation maps. *)
Lemma pad_colour_loses_outv :
  exists b,
    composeVideo (fun d => d) (colourOptions "[v0]") plainHost tt (Some onePhoto)
      "/app/output/o.mp4" = OK (tt, b)
    /\ map outPad (filterComplex b) = ["[v0]"]
    /\ mapTargets (args b) = ["[outv]"]
    /\ ~ padsAsSpecified b.
Proof.
  eexists. split; [vm_compute; reflexivity|].
  split; [vm_compute; reflexivity|]. split; [vm_compute; reflexivity|].
  intros [_ Hin]. vm_compute in Hin. destruct Hin as [Hin|[]]. discriminate.
Qed.

(** ** The audio mix *)

Section Amix.

Import StrFacts CountFacts NumFacts PieceFacts EditFacts ChainFacts GraphFacts TallyFacts
  ShapeFacts.

Variable to_radians : dec -> dec.
Variable o : options.
Hypothesis color : colorOK o = true.

Lemma graph_amix_count rs :
  imagesOf rs <> [] \/ videosOf rs <> [] ->
  Str.count (Str.join ";" (graph to_radians o (imagesOf rs) (videosOf rs) (audiosOf rs)))
    "amix=" = match audiosOf rs with [] => 0 | _ :: _ => 1 end.
Proof.
  intros Hvis.
  apply tallies_count; [discriminate|split; reflexivity|].
  destruct (visuals_cases _ (visuals_nonempty rs Hvis)) as [[v Hv]|Hlen].
  - rewrite (graph_single to_radians o (colorOK_padFree o color) rs v Hv).
    apply (tallies_app "amix=" _ _ 0); [|apply amixPart_tallies].
    apply tallies_quiet. constructor;
      [apply renamedFragment_quiet; exact color|apply audioFrags_quiet].
  - rewrite (graph_several to_radians o rs Hlen).
    apply (tallies_app "amix=" _ _ 0).
    + apply tallies_quiet, Forall_app. split;
        [apply visualFrags_quiet; exact color|apply audioFrags_quiet].
    + apply (tallies_app "amix=" _ _ 0); [|apply amixPart_tallies].
      apply tallies_one, concatOf_tally.
Qed.

Lemma graph_tail rs :
  imagesOf rs <> [] \/ videosOf rs <> [] ->
  exists chains,
    graph to_radians o (imagesOf rs) (videosOf rs) (audiosOf rs)
    = chains ++ amixPart (length (imagesOf rs ++ videosOf rs)) (audiosOf rs)
    /\ forall x, In x (audioFrags (length (imagesOf rs ++ videosOf rs)) (audiosOf rs)) ->
         In x chains.
Proof.
  intros Hvis.
  destruct (visuals_cases _ (visuals_nonempty rs Hvis)) as [[v Hv]|Hlen].
  - rewrite (graph_single to_radians o (colorOK_padFree o color) rs v Hv), Hv.
    eexists. split; [reflexivity|].
    intros x Hx. right. exact Hx.
  - rewrite (graph_several to_radians o rs Hlen), List.app_assoc.
    eexists. split; [reflexivity|].
    intros x Hx. rewrite !List.in_app_iff. left. right. exact Hx.
Qed.

Lemma audioFrags_in n auds k aud :
  auds !! k = Some aud -> audioFilters aud <> [] ->
  In (audioFilter (n + k) aud) (audioFrags n auds).
Proof.
  revert n k. induction auds as [|a l IH]; intros n k Hk Hf; [discriminate|].
  destruct k as [|k]; cbn [audioFrags].
  - injection Hk as ->. rewrite Nat.add_0_r.
    destruct (audioFilters aud); [contradiction|left; reflexivity].
  - simpl in Hk. replace (n + S k) with (S n + k) by lia.
    destruct (audioFilters a); [|right]; apply IH; assumption.
Qed.


End Amix.



(** * More of the code *)

(** ** The outcome of [composeVideo] *)

Section Outcome.

Variable to_radians : dec -> dec.
Variable o : options.
Variable h : Host.

Lemma forImages_run fs imgs b :
  forImages to_radians o h fs imgs b
  = if forallb (fun r => existsSync h fs (path_resolve h (path r))) imgs
    then OK {| args := args b ++ concat (map (imageArgs h) imgs);
               filterComplex := filterComplex b ++ imageFrags to_radians o (inputIndex b) imgs;
               inputIndex := inputIndex b + length imgs;
               videoInputs := videoInputs b ++ imageInputs (inputIndex b) imgs;
               audioInputs := audioInputs b |}
    else Throw Err.imageMissing.
Proof.
  revert b. induction imgs as [|img rest IH]; intros b.
  - simpl. destruct b; simpl. rewrite !app_nil_r, Nat.add_0_r. reflexivity.
  - cbn [forImages forallb]. unfold processImage at 1.
    destruct (existsSync h fs (path_resolve h (path img))); simpl; [|reflexivity].
    rewrite IH. destruct (forallb _ rest); [|reflexivity].
    simpl. rewrite <- !app_assoc. simpl. do 2 f_equal. lia.
Qed.

Lemma length_zero_nil {A : Type} (l : list A) : (length l =? 0)%nat = true <-> l = [].
Proof. destruct l; simpl; split; congruence. Qed.

(** The outcome of [composeVideo], case by case. *)
Lemma composeVideo_cases (fs : FS h) (rs : list resource) (out : string) :
  (forall e, prepareOutput h fs out = Throw e ->
     composeVideo to_radians o h fs (Some rs) out = Throw e)
  /\ (forall fs0, prepareOutput h fs out = OK fs0 ->
        composeVideo to_radians o h fs (Some rs) out
        = match rs with
          | [] => Throw Err.emptyResources
          | _ :: _ =>
              if negb (forallb (fun r => existsSync h fs0 (path r)) rs)
              then Throw Err.inputMissing
              else if negb (existsb isVisual rs) then Throw Err.noVisual
              else if negb (forallb (fun r => existsSync h fs0 (path_resolve h (path r)))
                              (imagesOf rs))
              then Throw Err.imageMissing
              else OK (fs0, plan to_radians o h (imagesOf rs) (videosOf rs) (audiosOf rs) out)
          end).
Proof.
  split.
  - intros e He. unfold composeVideo. rewrite He. reflexivity.
  - intros fs0 Hprep. unfold composeVideo. rewrite Hprep.
    destruct rs as [|r rs']; [reflexivity|].
    cbn [mbind result_bind]. cbv beta iota.
    set (l := r :: rs'). fold (imagesOf l) (videosOf l) (audiosOf l).
    destruct (forallb (fun r0 => existsSync h fs0 (path r0)) l); cbn [negb]; [|reflexivity].
    destruct (existsb isVisual l) eqn:Hvis; cbn [negb].
    + assert (Hsome : (length (imagesOf l) =? 0)%nat && (length (videosOf l) =? 0)%nat = false).
      { apply not_true_is_false. intros Hboth.
        apply andb_true_iff in Hboth as [Hi Hv].
        apply length_zero_nil in Hi, Hv.
        assert (Hno : existsb isVisual l = false); [|congruence].
        apply not_true_is_false. intros Hex.
        apply existsb_exists in Hex as (x & Hin & Hx).
        unfold isVisual in Hx. apply orb_true_iff in Hx as [Hx|Hx].
        - apply (in_filter_isType "image" x l Hin) in Hx.
          unfold imagesOf in Hi. rewrite Hi in Hx. destruct Hx.
        - apply (in_filter_isType "video" x l Hin) in Hx.
          unfold videosOf in Hv. rewrite Hv in Hx. destruct Hx. }
      rewrite Hsome, forImages_run.
      destruct (forallb _ (imagesOf l)); cbn [negb]; [|reflexivity].
      cbn [mbind result_bind]. cbv beta iota.
      rewrite forAudios_closed, forVideos_closed. simpl.
      unfold plan, outputArgs, inputArgs, graph, fragments, visualInputs. simpl.
      rewrite <- !app_assoc. simpl.
      destruct (mixAudio _ _); simpl; rewrite <- ?app_assoc; reflexivity.
    + destruct (existsb_isVisual_filters l Hvis) as [Hi Hv].
      rewrite Hi, Hv. reflexivity.
Qed.

Lemma forallb_images (f : resource -> bool) (rs : list resource) :
  forallb f (imagesOf rs) = true <-> forall r, In r rs -> type r = "image" -> f r = true.
Proof.
  rewrite forallb_forall. split.
  - intros H r Hin Ht. apply H, in_filter_isType; [exact Hin|].
    unfold isType. rewrite Ht. reflexivity.
  - intros H r Hin. apply list_elem_of_In, list_elem_of_filter in Hin as [Hr Hin].
    apply Is_true_true in Hr. unfold isType in Hr. apply String.eqb_eq in Hr.
    apply H; [apply list_elem_of_In; exact Hin|exact Hr].
Qed.

Lemma existsb_isVisual (rs : list resource) :
  existsb isVisual rs = true
  <-> exists r, In r rs /\ (type r = "image" \/ type r = "video").
Proof.
  rewrite existsb_exists. unfold isVisual, isType.
  split; intros (r & Hin & Hr); exists r; (split; [exact Hin|]).
  - apply orb_true_iff in Hr. rewrite !String.eqb_eq in Hr. exact Hr.
  - apply orb_true_iff. rewrite !String.eqb_eq. exact Hr.
Qed.


End Outcome.


(** ** The size of the output *)

Module ParseFacts.

Import StrFacts NumFacts EditFacts.

Lemma digit_pretty (d : N) :
  (d < 10)%N -> ParseInt.digit false (pretty_N_char d) = Some d.
Proof.
  intros Hd.
  assert (Hcases : (d = 0 \/ d = 1 \/ d = 2 \/ d = 3 \/ d = 4 \/ d = 5 \/ d = 6 \/ d = 7
                    \/ d = 8 \/ d = 9)%N) by lia.
  repeat (destruct Hcases as [-> | Hcases]; [reflexivity|]).
  subst d. reflexivity.
Qed.

(** Reading back the digits that [pretty] prints. *)
Lemma digits_pretty_go (x : N) : forall s,
  (0 < x)%N ->
  ParseInt.digits false (pretty_N_go x s) None = ParseInt.digits false s (Some x).
Proof.
  induction (N.lt_wf_0 x) as [x _ IH]. intros s Hx.
  rewrite pretty_N_go_step by exact Hx.
  pose proof (N.mod_lt x 10 ltac:(lia)) as Hmod.
  pose proof (N.div_mod x 10 ltac:(lia)) as Hdiv.
  destruct (decide (x `div` 10 = 0)%N) as [Hz|Hnz].
  - rewrite Hz, pretty_N_go_0. simpl. rewrite (digit_pretty _ Hmod).
    rewrite Hz, N.mul_0_r, N.add_0_l in Hdiv. rewrite <- Hdiv. reflexivity.
  - rewrite IH; [|apply N.div_lt; [exact Hx|reflexivity]|apply N.neq_0_lt_0; exact Hnz].
    simpl. rewrite (digit_pretty _ Hmod). do 2 f_equal.
    rewrite (N.mul_comm (x `div` 10) 10). symmetry. exact Hdiv.
Qed.

(** A printed positive number starts with one of the digits 1 to 9. *)
Lemma pretty_go_head (x : N) : forall s,
  (0 < x)%N ->
  exists d r, (0 < d < 10)%N /\ pretty_N_go x s = String (pretty_N_char d) r.
Proof.
  induction (N.lt_wf_0 x) as [x _ IH]. intros s Hx.
  rewrite pretty_N_go_step by exact Hx.
  destruct (decide (x `div` 10 = 0)%N) as [Hz|Hnz].
  - rewrite Hz, pretty_N_go_0. exists (x `mod` 10)%N. eexists. split; [|reflexivity].
    pose proof (N.mod_lt x 10 ltac:(lia)). pose proof (N.div_mod x 10 ltac:(lia)). lia.
  - apply IH; [apply N.div_lt; [exact Hx|reflexivity]|apply N.neq_0_lt_0; exact Hnz].
Qed.

Lemma parseInt_pretty (n : N) : (0 < n)%N -> ParseInt.parseInt (pretty n) = Some (Z.of_N n).
Proof.
  intros Hn. unfold pretty, pretty_N.
  destruct (decide (n = 0)%N) as [|_]; [lia|].
  pose proof (digits_pretty_go n "" Hn) as Hread.
  destruct (pretty_go_head n "" Hn) as (d & r & Hd & Hhead).
  rewrite Hhead in *.
  assert (Hcases : (d = 1 \/ d = 2 \/ d = 3 \/ d = 4 \/ d = 5 \/ d = 6 \/ d = 7
                    \/ d = 8 \/ d = 9)%N) by lia.
  unfold ParseInt.parseInt, ParseInt.unsigned.
  repeat (destruct Hcases as [-> | Hcases];
          [simpl in *; rewrite Hread; reflexivity|]).
  subst d. simpl in *. rewrite Hread. reflexivity.
Qed.

Lemma numChar_not_x c : numChar c = true -> notChar "x" c = true.
Proof. destruct c as [[] [] [] [] [] [] [] []]; (discriminate || reflexivity). Qed.

Lemma pretty_no_x (n : N) : Str.all (notChar "x") (pretty n) = true.
Proof. apply (all_mono numChar); [exact numChar_not_x|apply pretty_N_num]. Qed.

Lemma pretty_truthy (n : N) (rest : string) : Str.truthy (pretty n +:+ rest) = true.
Proof.
  unfold pretty, pretty_N. destruct (decide (n = 0)%N) as [|Hn]; [reflexivity|].
  destruct (pretty_go_head n "" ltac:(lia)) as (d & r & _ & ->). reflexivity.
Qed.

(** The two parts of a text [<w>x<h>]. *)
Lemma split_size (w h : N) :
  Str.split "x" (pretty w +:+ "x" +:+ pretty h) = [pretty w; pretty h].
Proof.
  change ("x" +:+ pretty h) with (String "x" (pretty h)).
  rewrite split_app_sep, !split_free by apply pretty_no_x. reflexivity.
Qed.

Lemma parseInt_or_pretty (n : N) d : (0 < n)%N -> parseInt_or (pretty n) d = pixels n.
Proof.
  intros Hn. unfold parseInt_or. rewrite (parseInt_pretty n Hn).
  destruct (Z.eqb_spec (Z.of_N n) 0); [lia|reflexivity].
Qed.

(** A whole number of pixels is printed without a sign, a point or an
    exponent. *)
Lemma to_string_pixels (n : N) : Dec.to_string (pixels n) = pretty n.
Proof.
  unfold Dec.to_string, pixels, Dec.of_Z. cbn [dscale dmant Dec.strip_zeros].
  destruct (Z.ltb_spec (Z.of_N n) 0) as [|_]; [lia|].
  rewrite N2Z.id || rewrite Zabs2N.id.
  change (10 ^ N.of_nat 0)%N with 1%N. rewrite N.div_1_r.
  rewrite app_nil_l, app_nil_r. reflexivity.
Qed.

Lemma resolved_size o (w h : N) :
  (0 < w)%N -> (0 < h)%N ->
  resolution o = Some (pretty w +:+ "x" +:+ pretty h) ->
  resolvedWidth o = pixels w /\ resolvedHeight o = pixels h.
Proof.
  intros Hw Hh Hres. unfold resolvedWidth, resolvedHeight.
  rewrite Hres, pretty_truthy, split_size, !parseInt_or_pretty by assumption.
  split; reflexivity.
Qed.

End ParseFacts.

(** X2. A resolution text [<w>x<h>] of two positive whole numbers (up to
    [Number.MAX_SAFE_INTEGER]) is read back as that width and that height,
    whatever [options.width] and [options.height] are: in [composeVideo]
    the text wins. *)
Theorem resolution_text_read_back (o : options) (w h : N) :
  (0 < w <= maxSafeInteger)%N -> (0 < h <= maxSafeInteger)%N ->
  resolution o = Some (pretty w +:+ "x" +:+ pretty h) ->
  resolvedWidth o = pixels w /\ resolvedHeight o = pixels h.
Proof.
  intros [Hw _] [Hh _] Hres. unfold resolvedWidth, resolvedHeight.
  rewrite Hres, ParseFacts.pretty_truthy, ParseFacts.split_size.
  rewrite !ParseFacts.parseInt_or_pretty by assumption.
  split; reflexivity.
Qed.

Lemma resolution_text_read_back_witness :
  resolvedWidth (sizedOptions 640 480 (Some "1920x1080")) = pixels 1920
  /\ resolvedHeight (sizedOptions 640 480 (Some "1920x1080")) = pixels 1080.
Proof.
  apply (resolution_text_read_back (sizedOptions 640 480 (Some "1920x1080")) 1920 1080);
    [unfold maxSafeInteger; lia|unfold maxSafeInteger; lia|reflexivity].
Defined.

(** X3. A resolution text without the separator [x] (["720p"],
    ["1920X1080"], ["1920*1080"]) is ignored without an error: the size is
    [options.width] by [options.height], 1280 by 720 where they are absent
    or zero. *)
Theorem resolution_without_separator_ignored (o : options) (r : string) :
  resolution o = Some r ->
  Str.all (notChar "x") r = true ->
  resolvedWidth o = num_or (width o) (Dec.of_Z 1280)
  /\ resolvedHeight o = num_or (height o) (Dec.of_Z 720).
Proof.
  intros Hres Hfree. unfold resolvedWidth, resolvedHeight.
  rewrite Hres, (StrFacts.split_free "x" r Hfree).
  destruct (Str.truthy r); split; reflexivity.
Qed.

Lemma resolution_without_separator_ignored_witness :
  resolvedWidth (resolutionOnly "1920X1080") = pixels 1280
  /\ resolvedHeight (resolutionOnly "1920X1080") = pixels 720.
Proof.
  apply (resolution_without_separator_ignored (resolutionOnly "1920X1080") "1920X1080");
    reflexivity.
Defined.

(** X4. Through the handler of [/api/compose] the order is the other way
    round: a width and a height that are positive whole numbers (up to
    [Number.MAX_SAFE_INTEGER]) decide the size, whatever
    [options.resolution] says. *)
Theorem compose_width_and_height_win (o : options) (w h : N) :
  (0 < w <= maxSafeInteger)%N -> (0 < h <= maxSafeInteger)%N ->
  width o = Some (pixels w) -> height o = Some (pixels h) ->
  resolvedWidth (composeOptions o) = pixels w
  /\ resolvedHeight (composeOptions o) = pixels h.
Proof.
  intros [Hw _] [Hh _] Hwidth Hheight.
  apply ParseFacts.resolved_size; [assumption|assumption|].
  unfold composeOptions. cbn [resolution]. rewrite Hwidth, Hheight.
  assert (Ht : forall n, (0 < n)%N -> Dec.truthy (pixels n) = true).
  { intros n Hn. unfold Dec.truthy, pixels. simpl. destruct (Z.eqb_spec (Z.of_N n) 0); [lia|].
    reflexivity. }
  rewrite !Ht by assumption. cbn [andb]. rewrite !ParseFacts.to_string_pixels. reflexivity.
Qed.

Lemma compose_width_and_height_win_witness :
  resolvedWidth (composeOptions (sizedOptions 640 480 (Some "1920x1080"))) = pixels 640
  /\ resolvedHeight (composeOptions (sizedOptions 640 480 (Some "1920x1080"))) = pixels 480.
Proof.
  apply (compose_width_and_height_win (sizedOptions 640 480 (Some "1920x1080")) 640 480);
    [unfold maxSafeInteger; lia|unfold maxSafeInteger; lia|reflexivity|reflexivity].
Defined.

(** X5. A width without a height, or a height without a width, is dropped
    by the handler of [/api/compose] when the request has no resolution
    text: the video is 1280 by 720. *)
Theorem compose_lone_width_dropped (o : options) :
  width o = None \/ height o = None ->
  resolution o = None ->
  resolvedWidth (composeOptions o) = pixels 1280
  /\ resolvedHeight (composeOptions o) = pixels 720.
Proof.
  intros Hlone Hres.
  assert (Htext : resolution (composeOptions o) = Some "1280x720").
  { unfold composeOptions. cbn [resolution]. rewrite Hres.
    destruct Hlone as [-> | ->]; [reflexivity|]. destruct (width o); reflexivity. }
  apply (ParseFacts.resolved_size (composeOptions o) 1280 720); [lia|lia|exact Htext].
Qed.

Lemma compose_lone_width_dropped_witness :
  resolvedWidth (composeOptions
    (mkOptions (Some (pixels 1920)) None None None None None None None None None None None None))
  = pixels 1280
  /\ resolvedHeight (composeOptions
       (mkOptions (Some (pixels 1920)) None None None None None None None None None None None
          None))
     = pixels 720.
Proof.
  apply (compose_lone_width_dropped
           (mkOptions (Some (pixels 1920)) None None None None None None None None None None None
              None)); [right; reflexivity|reflexivity].
Defined.

(** ** The defaults of the handler and the defaults of the builder *)

Lemma str_or_twice x d : str_or (Some (str_or x d)) d = str_or x d.
Proof.
  unfold str_or. destruct x as [v|]; [|destruct (Str.truthy d); reflexivity].
  destruct (Str.truthy v) eqn:Hv; [rewrite Hv; reflexivity|].
  destruct (Str.truthy d); reflexivity.
Qed.

Lemma num_or_twice x d : num_or (Some (num_or x d)) d = num_or x d.
Proof.
  unfold num_or. destruct x as [v|]; [|destruct (Dec.truthy d); reflexivity].
  destruct (Dec.truthy v) eqn:Hv; [rewrite Hv; reflexivity|].
  destruct (Dec.truthy d); reflexivity.
Qed.

Lemma fillDefaults_type t r : isType t (fillDefaults r) = isType t r.
Proof. reflexivity. Qed.

Lemma filter_isType_fill t rs :
  filter (isType t) (map fillDefaults rs) = map fillDefaults (filter (isType t) rs).
Proof.
  induction rs as [|r rs IH]; [reflexivity|].
  cbn [map]. rewrite !filter_cons, fillDefaults_type.
  destruct (decide _); cbn [map]; rewrite IH; reflexivity.
Qed.

Section FillDefaults.

Variable to_radians : dec -> dec.
Variable o : options.
Variable h : Host.

Lemma buildScaleAndPositionFilter_fill lbl r w hh :
  buildScaleAndPositionFilter to_radians o lbl (fillDefaults r) w hh
  = buildScaleAndPositionFilter to_radians o lbl r w hh.
Proof.
  unfold buildScaleAndPositionFilter, fillDefaults.
  cbn [scaleMode position rotation opacity].
  rewrite !str_or_twice, num_or_twice. reflexivity.
Qed.

Lemma imageFilter_fill n r :
  imageFilter to_radians o n (fillDefaults r) = imageFilter to_radians o n r.
Proof.
  unfold imageFilter. rewrite buildScaleAndPositionFilter_fill.
  unfold imageDuration, fillDefaults. cbn [transition transitionDuration duration].
  rewrite str_or_twice, num_or_twice. reflexivity.
Qed.

Lemma videoFilter_fill n r :
  videoFilter to_radians o n (fillDefaults r) = videoFilter to_radians o n r.
Proof.
  unfold videoFilter. rewrite buildScaleAndPositionFilter_fill.
  unfold fillDefaults. cbn [transition transitionDuration duration].
  rewrite str_or_twice, num_or_twice. reflexivity.
Qed.

Lemma audioFilters_fill r : audioFilters (fillDefaults r) = audioFilters r.
Proof.
  unfold audioFilters, fillDefaults. cbn [fade fadeDuration volume duration].
  rewrite str_or_twice, num_or_twice. reflexivity.
Qed.

Lemma forImages_fill fs imgs b :
  forImages to_radians o h fs (map fillDefaults imgs) b = forImages to_radians o h fs imgs b.
Proof.
  revert b. induction imgs as [|img rest IH]; intros b; [reflexivity|].
  cbn [map forImages]. unfold processImage.
  rewrite imageFilter_fill. change (path (fillDefaults img)) with (path img).
  change (imageDuration (fillDefaults img)) with (imageDuration img).
  destruct (negb _); simpl; [reflexivity|apply IH].
Qed.

Lemma forVideos_fill vids b :
  fold_left (processVideo to_radians o h) (map fillDefaults vids) b
  = fold_left (processVideo to_radians o h) vids b.
Proof.
  revert b. induction vids as [|vid rest IH]; intros b; [reflexivity|].
  cbn [map fold_left]. rewrite IH. f_equal.
  unfold processVideo. rewrite videoFilter_fill. reflexivity.
Qed.

Lemma forAudios_fill auds b :
  fold_left (processAudio h) (map fillDefaults auds) b = fold_left (processAudio h) auds b.
Proof.
  revert b. induction auds as [|aud rest IH]; intros b; [reflexivity|].
  cbn [map fold_left]. rewrite IH. f_equal.
  unfold processAudio, audioFilter. rewrite audioFilters_fill. reflexivity.
Qed.

Lemma composeVideo_fill fs rs out :
  composeVideo to_radians o h fs (Some (map fillDefaults rs)) out
  = composeVideo to_radians o h fs (Some rs) out.
Proof.
  unfold composeVideo.
  destruct (prepareOutput h fs out) as [fs0|e]; simpl; [|reflexivity].
  destruct rs as [|r rs]; [reflexivity|].
  cbn [map]. cbv beta iota.
  change (fillDefaults r :: map fillDefaults rs) with (map fillDefaults (r :: rs)).
  generalize (r :: rs). intros l.
  assert (Hex : forallb (fun r0 => existsSync h fs0 (path r0)) (map fillDefaults l)
                = forallb (fun r0 => existsSync h fs0 (path r0)) l).
  { induction l as [|x l IH]; [reflexivity|]. cbn [map forallb]. rewrite IH. reflexivity. }
  rewrite Hex, !filter_isType_fill, !length_map, forImages_fill.
  destruct (negb _); [reflexivity|]. destruct (_ && _); [reflexivity|].
  destruct (forImages _ _ _ _ _ _) as [b|e]; simpl; [|reflexivity].
  rewrite forVideos_fill, forAudios_fill.
  unfold mapArgs. rewrite !length_map.
  destruct (filter (isType "video") l); reflexivity.
Qed.

End FillDefaults.

(** X6. The defaults the handler of [/api/compose] writes into the
    entries of [resourcePaths] are the defaults [composeVideo] applies
    itself: with the fields of the request copied as they are, the outcome
    of [composeVideo] is the same, error or argument list. *)
Theorem handler_defaults_change_nothing
    (to_radians : dec -> dec) (o : options) (h : Host) (fs : FS h)
    (l : list (string * reqResource)) (out : string) :
  composeVideo to_radians o h fs (Some (map (fun pr => toResourcePath (fst pr) (snd pr)) l)) out
  = composeVideo to_radians o h fs (Some (map (fun pr => asGiven (fst pr) (snd pr)) l)) out.
Proof.
  rewrite <- (composeVideo_fill to_radians o h fs
                (map (fun pr => asGiven (fst pr) (snd pr)) l) out).
  rewrite map_map. reflexivity.
Qed.

(** [composeVideo] reads its options through six values only. *)
Section OptionsExt.

Variable to_radians : dec -> dec.
Variables o1 o2 : options.
Variable h : Host.

Hypothesis same_width : resolvedWidth o1 = resolvedWidth o2.
Hypothesis same_height : resolvedHeight o1 = resolvedHeight o2.
Hypothesis same_color : bgColorHex o1 = bgColorHex o2.
Hypothesis same_fps : num_or (fps o1) (Dec.of_Z 25) = num_or (fps o2) (Dec.of_Z 25).
Hypothesis same_video : videoCodecArgs o1 = videoCodecArgs o2.
Hypothesis same_audio : audioCodecArgs o1 = audioCodecArgs o2.

Lemma buildScaleAndPositionFilter_ext lbl r w hh :
  buildScaleAndPositionFilter to_radians o1 lbl r w hh
  = buildScaleAndPositionFilter to_radians o2 lbl r w hh.
Proof. unfold buildScaleAndPositionFilter. rewrite same_color. reflexivity. Qed.

Lemma buildTransitionFilter_ext t td total w hh :
  buildTransitionFilter o1 t td total w hh = buildTransitionFilter o2 t td total w hh.
Proof.
  unfold buildTransitionFilter, repad. rewrite same_color, same_width, same_height.
  reflexivity.
Qed.

Lemma imageFilter_ext n r : imageFilter to_radians o1 n r = imageFilter to_radians o2 n r.
Proof.
  unfold imageFilter.
  rewrite buildScaleAndPositionFilter_ext, buildTransitionFilter_ext.
  rewrite same_width, same_height, same_fps. reflexivity.
Qed.

Lemma videoFilter_ext n r : videoFilter to_radians o1 n r = videoFilter to_radians o2 n r.
Proof.
  unfold videoFilter.
  rewrite buildScaleAndPositionFilter_ext, buildTransitionFilter_ext.
  rewrite same_width, same_height, same_fps. reflexivity.
Qed.

Lemma forImages_ext fs imgs b :
  forImages to_radians o1 h fs imgs b = forImages to_radians o2 h fs imgs b.
Proof.
  revert b. induction imgs as [|img rest IH]; intros b; [reflexivity|].
  cbn [forImages]. unfold processImage. rewrite imageFilter_ext.
  destruct (negb _); simpl; [reflexivity|apply IH].
Qed.

Lemma forVideos_ext vids b :
  fold_left (processVideo to_radians o1 h) vids b
  = fold_left (processVideo to_radians o2 h) vids b.
Proof.
  revert b. induction vids as [|vid rest IH]; intros b; [reflexivity|].
  cbn [fold_left]. rewrite IH. f_equal.
  unfold processVideo. rewrite videoFilter_ext. reflexivity.
Qed.

Lemma composeVideo_ext fs resources out :
  composeVideo to_radians o1 h fs resources out = composeVideo to_radians o2 h fs resources out.
Proof.
  unfold composeVideo.
  destruct (prepareOutput h fs out) as [fs0|e]; simpl; [|reflexivity].
  destruct resources as [[|r rs]|]; try reflexivity.
  destruct (negb _); [reflexivity|]. destruct (_ && _); [reflexivity|].
  rewrite forImages_ext.
  destruct (forImages _ _ _ _ _ _) as [b|e]; simpl; [|reflexivity].
  rewrite forVideos_ext. unfold mapArgs. rewrite same_video, same_audio. reflexivity.
Qed.

End OptionsExt.

(** X7. Of the defaults the handler of [/api/compose] writes into the
    options, only the [resolution] text matters: [composeVideo] with the
    options of the handler does what it does with the options of the
    request, the [resolution] of the handler put in. *)
Theorem handler_options_change_resolution_only
    (to_radians : dec -> dec) (o : options) (h : Host) (fs : FS h)
    (resources : option (list resource)) (out : string) :
  composeVideo to_radians (composeOptions o) h fs resources out
  = composeVideo to_radians (withRequestResolution o) h fs resources out.
Proof.
  apply composeVideo_ext.
  - unfold resolvedWidth, withRequestResolution, composeOptions. cbn [width resolution].
    rewrite num_or_twice. reflexivity.
  - unfold resolvedHeight, withRequestResolution, composeOptions. cbn [height resolution].
    rewrite num_or_twice. reflexivity.
  - unfold bgColorHex, withRequestResolution, composeOptions. cbn [backgroundColor].
    rewrite str_or_twice. reflexivity.
  - unfold withRequestResolution, composeOptions. cbn [fps]. apply num_or_twice.
  - unfold videoCodecArgs, withRequestResolution, composeOptions.
    cbn [videoCodec videoPreset videoCrf videoBitrate].
    rewrite !str_or_twice. reflexivity.
  - unfold audioCodecArgs, withRequestResolution, composeOptions.
    cbn [audioCodec audioBitrate audioSampleRate audioChannels].
    rewrite !str_or_twice, !num_or_twice. reflexivity.
Qed.

(** ** A rejected request of [/api/compose] *)

Section ComposeRejection.

Variable dirname : string.
Variable validUrl : string -> bool.
Variable download : string -> option string.
Variable composeVideoRun :
  gmap string node -> list resource -> string -> options -> gmap string node * result string.
Variable now : string.

(** The loop over the resources removes no file. *)
Lemma collect_keeps_files rs : forall fs resourcePaths tempFiles p,
  fs !! p = Some File ->
  match collect dirname validUrl download fs rs resourcePaths tempFiles with
  | inl (_, fs') => fs' !! p = Some File
  | inr (_, _, fs') => fs' !! p = Some File
  end.
Proof.
  induction rs as [|r rest IH]; intros fs resourcePaths tempFiles p Hp; [exact Hp|].
  cbn [collect].
  destruct (rq_type r) as [t|]; [|exact Hp].
  destruct (negb (Str.truthy t)); [exact Hp|].
  destruct (negb _); [exact Hp|].
  destruct (Str.truthy (str_or (rq_url r) "")).
  - destruct (negb (validUrl _)); [exact Hp|].
    destruct (download _) as [name|]; [|exact Hp].
    apply IH.
    destruct (decide (Path.join (uploadsDir dirname) name = p)) as [->|Hne].
    + apply lookup_insert_eq.
    + rewrite lookup_insert_ne by exact Hne. exact Hp.
  - destruct (Str.truthy (str_or (rq_filename r) "")); [|exact Hp].
    destruct (negb (Disk.existsSync fs _)); [exact Hp|].
    apply IH. exact Hp.
Qed.

(** X8. An answer 400 or 404 of [/api/compose] comes from a [return]
    inside the loop over the resources, and nothing is cleaned up on that
    way out: when the first resource is a remote one that was downloaded,
    its file is still in the uploads directory after the answer. *)
Theorem compose_rejection_keeps_download
    (fs : gmap string node) (r : reqResource) (rest : list reqResource) (o : options)
    (t url name : string) :
  rq_type r = Some t ->
  String.eqb t "image" || String.eqb t "video" || String.eqb t "audio" = true ->
  rq_url r = Some url -> Str.truthy url = true ->
  validUrl url = true -> download url = Some name ->
  let run := compose dirname validUrl download composeVideoRun now fs (Some (r :: rest)) o in
  status (fst run) = 400 \/ status (fst run) = 404 ->
  snd run !! Path.join (uploadsDir dirname) name = Some File.
Proof.
  intros Htype Hkind Hurl Htruthy Hvalid Hdown run. subst run.
  set (p := Path.join (uploadsDir dirname) name).
  assert (Hstep : collect dirname validUrl download fs (r :: rest) [] []
                  = collect dirname validUrl download (<[p := File]> fs) rest
                      [toResourcePath p r] [p]).
  { cbn [collect].
    assert (Ht : Str.truthy t = true) by (destruct t; [discriminate Hkind|reflexivity]).
    assert (Hsu : str_or (rq_url r) "" = url) by (rewrite Hurl; simpl; rewrite Htruthy; reflexivity).
    rewrite Htype, Ht, Hkind, Hsu, Htruthy, Hvalid, Hdown. reflexivity. }
  unfold compose. rewrite Hstep.
  pose proof (collect_keeps_files rest (<[p := File]> fs) [toResourcePath p r] [p] p
                (lookup_insert_eq _ _ _)) as Hkeep.
  destruct (collect _ _ _ _ rest _ _) as [[resp fs']|[[rp tf] fs']]; [intros _; exact Hkeep|].
  destruct (composeVideoRun _ _ _ _) as [fs2 [cmd|e]]; simpl; intros [Hs|Hs]; discriminate.
Qed.

End ComposeRejection.

Lemma compose_rejection_keeps_download_witness :
  let run := compose "/app" (fun _ => true) (fun _ => Some downloadedName)
               (composeVideoOn (fun _ => OK "ffmpeg")) "1700000000001" freshDisk
               (Some [remoteResource "image" "https://example.com/a.png"; untypedResource])
               noOptions in
  status (fst run) = 400
  /\ snd run !! Path.join (uploadsDir "/app") downloadedName = Some File.
Proof.
  split; [reflexivity|].
  apply (compose_rejection_keeps_download "/app" (fun _ => true) (fun _ => Some downloadedName)
           (composeVideoOn (fun _ => OK "ffmpeg")) "1700000000001" freshDisk
           (remoteResource "image" "https://example.com/a.png") [untypedResource] noOptions
           "image" "https://example.com/a.png" downloadedName);
    try reflexivity.
  left. reflexivity.
Defined.

(** ** The answers of [DELETE /api/files/delete] *)

Section DeleteAnswers.

Import StrFacts PathFacts.

Variable dirname : string.
Hypothesis dirname_absolute : Str.startsWith dirname "/" = true.

(** The path the handler works on, for a name that passes its checks. *)
Lemma deleteFile_path directory f :
  Str.truthy f = true -> illegalName f = false ->
  exists p,
    Path.join (dirPathOf dirname directory) f = p
    /\ Str.startsWith p (dirPathOf dirname directory) = true
    /\ (f = "." /\ p = dirPathOf dirname directory
        \/ plainSeg f = true /\ p = dirPathOf dirname directory +:+ "/" +:+ f).
Proof.
  intros Hne Hlegal. destruct (legal_name f Hne Hlegal) as [-> | Hplain].
  - exists (dirPathOf dirname directory). rewrite (dirPathOf_dot dirname dirname_absolute).
    split; [reflexivity|]. split; [|left; auto].
    pose proof (startsWith_app (dirPathOf dirname directory) "") as Hs.
    rewrite app_nil_r in Hs. exact Hs.
  - exists (dirPathOf dirname directory +:+ "/" +:+ f).
    rewrite (dirPathOf_child dirname dirname_absolute) by exact Hplain.
    split; [reflexivity|]. split; [apply startsWith_app|right; auto].
Qed.

(** X9. For a directory [uploads] or [output] and a name that passes the
    checks, the answer of [/api/files/delete] is decided by what the name
    denotes inside that directory: 200 for a file, which is removed and
    nothing else; 404 for nothing; 500 for a directory, the disk being
    left as it is.  The name [.] passes the checks and denotes the
    directory itself. *)
Theorem deleteFile_answers
    (fs : gmap string node) (directory : option string) (f : string) :
  validDirectory directory = true ->
  Str.truthy f = true -> illegalName f = false ->
  let p := if String.eqb f "." then dirPathOf dirname directory
           else dirPathOf dirname directory +:+ "/" +:+ f in
  deleteFile dirname fs directory (Some f)
  = match fs !! p with
    | Some File => (200, delete p fs)
    | Some Dir => (500, fs)
    | None => (404, fs)
    end.
Proof.
  intros Hdir Hne Hlegal p.
  destruct (deleteFile_path directory f Hne Hlegal) as (q & Hq & Hstart & Hcases).
  assert (Hp : q = p).
  { subst p. destruct Hcases as [[-> ->]|[Hplain ->]]; [reflexivity|].
    destruct (String.eqb_spec f ".") as [->|_]; [discriminate Hplain|reflexivity]. }
  unfold deleteFile. rewrite Hdir, Hne, Hlegal. cbn [negb].
  rewrite Hq, Hstart, Hp. cbn [negb]. clearbody p.
  unfold Disk.existsSync, Disk.unlinkSync.
  destruct (fs !! p) as [[|]|] eqn:Hnode.
  - rewrite bool_decide_eq_true_2 by eauto. reflexivity.
  - rewrite bool_decide_eq_true_2 by eauto. reflexivity.
  - rewrite bool_decide_eq_false_2 by (intros [? ?]; congruence). reflexivity.
Qed.

(** X10. A file can be deleted once: the same request, sent again after an
    answer 200, is answered 404 and changes nothing. *)
Theorem deleteFile_twice
    (fs fs' : gmap string node) (directory filename : option string) :
  deleteFile dirname fs directory filename = (200, fs') ->
  deleteFile dirname fs' directory filename = (404, fs').
Proof.
  unfold deleteFile.
  destruct (negb (validDirectory directory)); [discriminate|].
  destruct filename as [f|]; [|discriminate].
  destruct (negb (Str.truthy f)); [discriminate|].
  destruct (illegalName f); [discriminate|].
  destruct (negb (Str.startsWith _ _)); [discriminate|].
  destruct (negb (Disk.existsSync fs _)); [discriminate|].
  unfold Disk.unlinkSync.
  destruct (fs !! Path.join (dirPathOf dirname directory) f) as [[|]|]; try discriminate.
  intros [= <-]. unfold Disk.existsSync.
  rewrite bool_decide_eq_false_2; [reflexivity|].
  rewrite lookup_delete_eq. intros [? ?]. discriminate.
Qed.

End DeleteAnswers.

Lemma deleteFile_answers_witness :
  deleteFile "/app" demoDisk (Some "uploads") (Some "clip.mp4")
    = (200, delete "/app/uploads/clip.mp4" demoDisk)
  /\ deleteFile "/app" demoDisk (Some "uploads") (Some "missing.mp4") = (404, demoDisk)
  /\ deleteFile "/app" demoDisk (Some "output") (Some ".") = (500, demoDisk).
Proof.
  split; [|split].
  - apply (deleteFile_answers "/app" eq_refl demoDisk (Some "uploads") "clip.mp4");
      reflexivity.
  - apply (deleteFile_answers "/app" eq_refl demoDisk (Some "uploads") "missing.mp4");
      reflexivity.
  - apply (deleteFile_answers "/app" eq_refl demoDisk (Some "output") "."); reflexivity.
Defined.

Lemma deleteFile_twice_witness :
  deleteFile "/app" (delete "/app/uploads/clip.mp4" demoDisk) (Some "uploads") (Some "clip.mp4")
  = (404, delete "/app/uploads/clip.mp4" demoDisk).
Proof.
  apply (deleteFile_twice "/app" demoDisk (delete "/app/uploads/clip.mp4" demoDisk)
           (Some "uploads") (Some "clip.mp4")).
  vm_compute. reflexivity.
Defined.

(** ** [DELETE /api/files/clear] and [GET /api/files/list] *)

Lemma append_inj_l (a b c : string) : a +:+ b = a +:+ c -> b = c.
Proof.
  induction a as [|x a IH]; rewrite ?StrFacts.app_nil_l, ?StrFacts.app_cons; [auto|].
  intros [= H]. auto.
Qed.

Lemma child_inj (dir n1 n2 : string) : dir +:+ "/" +:+ n1 = dir +:+ "/" +:+ n2 -> n1 = n2.
Proof. intros H. apply append_inj_l in H. apply append_inj_l in H. exact H. Qed.

Lemma child_differs (dir name : string) : dir +:+ "/" +:+ name <> dir.
Proof.
  intros H. apply (f_equal String.length) in H.
  rewrite !StrFacts.length_app in H. simpl in H. lia.
Qed.

(** The sort is a rearrangement, newest first. *)
Lemma insertNewest_Permutation x l : insertNewest x l ≡ₚ x :: l.
Proof.
  induction l as [|y t IH]; [reflexivity|]. simpl.
  destruct (fi_modified y <=? fi_modified x)%Z; [reflexivity|].
  rewrite IH. apply perm_swap.
Qed.

Lemma sortNewestFirst_Permutation l : sortNewestFirst l ≡ₚ l.
Proof.
  induction l as [|x t IH]; [reflexivity|]. simpl.
  rewrite insertNewest_Permutation, IH. reflexivity.
Qed.

Lemma insertNewest_sorted x l : newestFirst l -> newestFirst (insertNewest x l).
Proof.
  induction l as [|y t IH]; intros Hl; [simpl; auto|].
  destruct Hl as [Hy Ht]. simpl.
  destruct (Z.leb_spec (fi_modified y) (fi_modified x)) as [Hle|Hlt].
  - simpl. split; [|split; assumption].
    constructor; [exact Hle|].
    eapply Forall_impl; [exact Hy|]. intros z Hz. simpl in Hz. lia.
  - simpl. split; [|apply IH; exact Ht].
    rewrite insertNewest_Permutation. constructor; [lia|exact Hy].
Qed.

Lemma sortNewestFirst_sorted l : newestFirst (sortNewestFirst l).
Proof.
  induction l as [|x t IH]; [exact I|]. simpl. apply insertNewest_sorted, IH.
Qed.

(** The [readdirSync] of the model keeps the contract. *)
Lemma childName_spec dir p name :
  childName dir p = Some name <-> p = dir +:+ "/" +:+ name /\ plainSeg name = true.
Proof.
  unfold childName. split.
  - destruct (Str.startsWith p (dir +:+ "/")) eqn:Hstart; [|discriminate].
    apply StrFacts.startsWith_inv in Hstart as [t ->].
    replace (String.length dir + 1) with (String.length (dir +:+ "/"))
      by (rewrite StrFacts.length_app; reflexivity).
    rewrite StrFacts.drop_length_app.
    destruct (plainSeg t) eqn:Ht; [|discriminate].
    intros [= <-]. split; [apply StrFacts.app_assoc|exact Ht].
  - intros [-> Hplain]. rewrite <- StrFacts.app_assoc, StrFacts.startsWith_app.
    replace (String.length dir + 1) with (String.length (dir +:+ "/"))
      by (rewrite StrFacts.length_app; reflexivity).
    rewrite StrFacts.drop_length_app, Hplain. reflexivity.
Qed.

Lemma NoDup_omap_inj {A B : Type} (f : A -> option B) (l : list A) :
  (forall x y z, f x = Some z -> f y = Some z -> x = y) ->
  NoDup l -> NoDup (omap f l).
Proof.
  intros Hinj. induction 1 as [|x l Hx Hl IH]; [constructor|].
  simpl. destruct (f x) as [z|] eqn:Hfx; [|exact IH].
  constructor; [|exact IH].
  intros Hin. apply list_elem_of_omap in Hin as (y & Hy & Hfy).
  rewrite (Hinj x y z Hfx Hfy) in Hx. contradiction.
Qed.

Lemma diskReaddir_contract : readdirContract diskReaddir.
Proof.
  intros fs dir. unfold diskReaddir.
  destruct (fs !! dir) as [[|]|] eqn:Hdir; try (rewrite ?Hdir; congruence).
  split.
  - apply NoDup_omap_inj; [|apply NoDup_fst_map_to_list].
    intros x y z Hx Hy. apply childName_spec in Hx as [-> _], Hy as [-> _]. reflexivity.
  - intros name. rewrite list_elem_of_omap. split.
    + intros (p & Hp & Hname). apply childName_spec in Hname as [-> Hplain].
      split; [exact Hplain|].
      apply list_elem_of_fmap in Hp as ([q n] & -> & Hin).
      apply elem_of_map_to_list in Hin. simpl. eauto.
    + intros [Hplain [n Hn]]. exists (dir +:+ "/" +:+ name). split.
      * apply list_elem_of_fmap. exists (dir +:+ "/" +:+ name, n).
        split; [reflexivity|]. apply elem_of_map_to_list. exact Hn.
      * apply childName_spec. auto.
Qed.

Section FilesFacts.

Variable dirname : string.
Variable readdirSync : gmap string node -> string -> option (list string).
Variable sizeOf : string -> N.
Variable mtimeOf : string -> Z.
Variable formatFileSize : N -> string.

Hypothesis dirname_absolute : Str.startsWith dirname "/" = true.
Hypothesis readdir_ok : readdirContract readdirSync.

Lemma join_entry directory name :
  plainSeg name = true -> Path.join (dirPathOf dirname directory) name = dirPathOf dirname directory +:+ "/" +:+ name.
Proof. apply (dirPathOf_child dirname dirname_absolute). Qed.

(** What [readdirSync] returns for a directory of the handlers. *)
Lemma readdir_entries fs directory :
  fs !! dirPathOf dirname directory = Some Dir ->
  exists names,
    readdirSync fs (dirPathOf dirname directory) = Some names
    /\ NoDup names
    /\ forall name,
         name ∈ names
         <-> plainSeg name = true /\ is_Some (fs !! (dirPathOf dirname directory +:+ "/" +:+ name)).
Proof.
  intros Hdir. pose proof (readdir_ok fs (dirPathOf dirname directory)) as Hok.
  destruct (readdirSync fs (dirPathOf dirname directory)) as [names|]; [|contradiction].
  exists names. destruct Hok as [Hnodup Hin]. auto.
Qed.

Lemma readdir_plain fs dir names :
  readdirSync fs dir = Some names -> Forall (fun name => plainSeg name = true) names.
Proof.
  intros Hread. pose proof (readdir_ok fs dir) as Hok. rewrite Hread in Hok.
  destruct Hok as [_ Hin]. apply Forall_forall. intros name Hname.
  apply Hin in Hname as [Hplain _]. exact Hplain.
Qed.

(** The loop of [/api/files/clear] removes regular files named by the
    list, and touches nothing else. *)
Lemma clearLoop_confined directory names : forall fs c t p,
  Forall (fun name => plainSeg name = true) names ->
  fst (clearLoop sizeOf fs (dirPathOf dirname directory) names c t) !! p = fs !! p
  \/ (fs !! p = Some File
      /\ fst (clearLoop sizeOf fs (dirPathOf dirname directory) names c t) !! p = None
      /\ exists name, name ∈ names /\ p = dirPathOf dirname directory +:+ "/" +:+ name).
Proof.
  induction names as [|name rest IH]; intros fs c t p Hplain; [left; reflexivity|].
  inversion Hplain as [|? ? Hname Hrest]; subst.
  cbn [clearLoop]. rewrite (join_entry directory name Hname).
  unfold statSync, Disk.unlinkSync.
  set (q := dirPathOf dirname directory +:+ "/" +:+ name).
  destruct (fs !! q) as [[|]|] eqn:Hnode; [| |left; reflexivity].
  - destruct (IH (delete q fs) (S c) (t + sizeOf q)%N p Hrest)
      as [Heq | (Hf & Hn & name' & Hin & Hp)].
    + destruct (decide (p = q)) as [->|Hne].
      * right. rewrite Heq, lookup_delete_eq. split; [exact Hnode|]. split; [reflexivity|].
        exists name. split; [left|reflexivity].
      * left. rewrite Heq, lookup_delete_ne by congruence. reflexivity.
    + right. destruct (decide (p = q)) as [->|Hne].
      * rewrite lookup_delete_eq in Hf. discriminate.
      * rewrite lookup_delete_ne in Hf by congruence.
        split; [exact Hf|]. split; [exact Hn|]. exists name'. split; [right; exact Hin|exact Hp].
  - destruct (IH fs c t p Hrest) as [Heq | (Hf & Hn & name' & Hin & Hp)]; [left; exact Heq|].
    right. split; [exact Hf|]. split; [exact Hn|]. exists name'. split; [right; exact Hin|exact Hp].
Qed.

Lemma filesAmong_delete fs dir name rest :
  name ∉ rest ->
  filesAmong (delete (dir +:+ "/" +:+ name) fs) dir rest = filesAmong fs dir rest.
Proof.
  unfold filesAmong. induction rest as [|x rest IH]; intros Hnot; [reflexivity|].
  apply not_elem_of_cons in Hnot as [Hne Hnot].
  simpl. rewrite (IH Hnot). unfold isFileIn at 1 3.
  rewrite lookup_delete_ne; [reflexivity|].
  intros Heq. apply child_inj in Heq. congruence.
Qed.

Lemma filesAmong_cons fs dir name rest :
  filesAmong fs dir (name :: rest)
  = if isFileIn fs dir name then name :: filesAmong fs dir rest else filesAmong fs dir rest.
Proof. reflexivity. Qed.

Lemma sizeSum_cons dir name rest :
  sizeSum sizeOf dir (name :: rest) = (sizeOf (dir +:+ "/" +:+ name) + sizeSum sizeOf dir rest)%N.
Proof. reflexivity. Qed.

(** With every name of the list on the disk, the loop ends normally: it
    has removed the regular files among the names, counted them and added
    up their sizes. *)
Lemma clearLoop_complete directory names : forall fs c t,
  NoDup names ->
  Forall (fun name => plainSeg name = true
                      /\ is_Some (fs !! (dirPathOf dirname directory +:+ "/" +:+ name))) names ->
  exists fs',
    clearLoop sizeOf fs (dirPathOf dirname directory) names c t
    = (fs', Some (c + length (filesAmong fs (dirPathOf dirname directory) names),
                  (t + sizeSum sizeOf (dirPathOf dirname directory)
                         (filesAmong fs (dirPathOf dirname directory) names))%N))
    /\ forall name, name ∈ names -> fs' !! (dirPathOf dirname directory +:+ "/" +:+ name) <> Some File.
Proof.
  induction names as [|name rest IH]; intros fs c t Hnodup Hall.
  - exists fs. simpl. rewrite Nat.add_0_r, N.add_0_r. split; [reflexivity|].
    intros name Hin. inversion Hin.
  - apply NoDup_cons in Hnodup as [Hnot Hnodup].
    inversion Hall as [|? ? [Hname Hsome] Hrest]; subst.
    cbn [clearLoop]. rewrite (join_entry directory name Hname).
    unfold statSync, Disk.unlinkSync.
    set (q := dirPathOf dirname directory +:+ "/" +:+ name) in *.
    assert (Hplain : Forall (fun x => plainSeg x = true) rest).
    { eapply Forall_impl; [exact Hrest|]. intros x [Hx _]. exact Hx. }
    assert (Hfile : isFileIn fs (dirPathOf dirname directory) name
                    = match fs !! q with Some File => true | _ => false end) by reflexivity.
    destruct (fs !! q) as [[|]|] eqn:Hnode; [| |destruct Hsome; discriminate].
    + destruct (IH (delete q fs) (S c) (t + sizeOf q)%N Hnodup) as (fs' & Hrun & Hgone).
      { apply Forall_forall. intros x Hx.
        pose proof (proj1 (Forall_forall _ _) Hrest x Hx) as [Hxp Hxs].
        split; [exact Hxp|]. rewrite lookup_delete_ne; [exact Hxs|].
        intros Heq. apply child_inj in Heq. subst x. contradiction. }
      exists fs'. split.
      * rewrite Hrun. unfold q. rewrite (filesAmong_delete fs _ name rest Hnot).
        rewrite filesAmong_cons, Hfile, sizeSum_cons. cbn [length].
        do 3 f_equal; lia.
      * intros x Hx. apply elem_of_cons in Hx as [->|Hx]; [|apply Hgone; exact Hx].
        fold q.
        destruct (clearLoop_confined directory rest (delete q fs) (S c) (t + sizeOf q)%N q
                    Hplain) as [Heq | (_ & Hn & _)];
          rewrite Hrun in *; simpl in *.
        -- rewrite Heq, lookup_delete_eq. discriminate.
        -- rewrite Hn. discriminate.
    + destruct (IH fs c t Hnodup Hrest) as (fs' & Hrun & Hgone).
      exists fs'. split.
      * rewrite Hrun, filesAmong_cons, Hfile. reflexivity.
      * intros x Hx. apply elem_of_cons in Hx as [->|Hx]; [|apply Hgone; exact Hx].
        fold q.
        destruct (clearLoop_confined directory rest fs c t q Hplain)
          as [Heq | (Hf & _ & _)]; rewrite ?Hrun in *; simpl in *.
        -- rewrite Heq, Hnode. discriminate.
        -- rewrite Hnode in Hf. discriminate.
Qed.

Lemma existsSync_dir fs p : fs !! p = Some Dir -> Disk.existsSync fs p = true.
Proof. intros Hp. unfold Disk.existsSync. apply bool_decide_eq_true_2. eauto. Qed.

(** The loop of [/api/files/clear] over the names [readdirSync] lists. *)
Lemma clearLoop_leaves fs directory names :
  readdirSync fs (dirPathOf dirname directory) = Some names ->
  exists fs',
    clearLoop sizeOf fs (dirPathOf dirname directory) names 0 0%N
    = (fs', Some (length (filesAmong fs (dirPathOf dirname directory) names),
                  sizeSum sizeOf (dirPathOf dirname directory)
                    (filesAmong fs (dirPathOf dirname directory) names)))
    /\ (forall name, plainSeg name = true ->
          fs' !! (dirPathOf dirname directory +:+ "/" +:+ name) <> Some File)
    /\ (forall p, fs !! p = Some Dir -> fs' !! p = Some Dir).
Proof.
  intros Hread.
  pose proof (readdir_ok fs (dirPathOf dirname directory)) as Hok. rewrite Hread in Hok.
  destruct Hok as [Hnodup Hin].
  assert (Hall : Forall (fun name => plainSeg name = true
                   /\ is_Some (fs !! (dirPathOf dirname directory +:+ "/" +:+ name))) names).
  { apply Forall_forall. intros name Hname. apply Hin. exact Hname. }
  destruct (clearLoop_complete directory names fs 0 0%N Hnodup Hall) as (fs' & Hrun & Hgone).
  exists fs'. split; [exact Hrun|].
  assert (Hconf : forall p, fs' !! p = fs !! p \/ fs !! p = Some File /\ fs' !! p = None).
  { intros p.
    destruct (clearLoop_confined directory names fs 0 0%N p (readdir_plain _ _ _ Hread))
      as [Heq | (Hf & Hn & _)]; rewrite Hrun in *; simpl in *; auto. }
  split.
  - intros name Hplain.
    destruct (fs !! (dirPathOf dirname directory +:+ "/" +:+ name)) as [n|] eqn:Hnode.
    + apply Hgone, Hin. split; [exact Hplain|]. rewrite Hnode. eauto.
    + destruct (Hconf (dirPathOf dirname directory +:+ "/" +:+ name)) as [Heq|[_ Heq]];
        rewrite Heq, ?Hnode; discriminate.
  - intros p Hp. destruct (Hconf p) as [Heq|[Hf _]]; congruence.
Qed.

(** X11. Whatever it answers, [/api/files/clear] changes the disk only by
    removing regular files that lie directly inside the uploads or the
    output directory: [<dir>/<name>], the name holding no separator. *)
Theorem clearFiles_confined (fs : gmap string node) (directory : option string) (p : string) :
  snd (clearFiles dirname readdirSync sizeOf formatFileSize fs directory) !! p = fs !! p
  \/ (fs !! p = Some File
      /\ snd (clearFiles dirname readdirSync sizeOf formatFileSize fs directory) !! p = None
      /\ exists name,
           plainSeg name = true /\ p = dirPathOf dirname directory +:+ "/" +:+ name).
Proof.
  unfold clearFiles.
  destruct (negb (validDirectory directory)); [left; reflexivity|].
  destruct (negb (Disk.existsSync fs _)); [left; reflexivity|].
  destruct (readdirSync fs (dirPathOf dirname directory)) as [names|] eqn:Hread;
    [|left; reflexivity].
  pose proof (readdir_plain _ _ _ Hread) as Hplain.
  destruct (clearLoop_confined directory names fs 0 0%N p Hplain)
    as [Heq | (Hf & Hn & name & Hin & Hp)];
    destruct (clearLoop sizeOf fs _ names 0 0%N) as [fs' [[count total]|]]; simpl in *;
    try (left; exact Heq);
    right; (split; [exact Hf|]); (split; [exact Hn|]); exists name;
    (split; [|exact Hp]); exact (proj1 (Forall_forall _ _) Hplain name Hin).
Qed.

(** X12. On an existing uploads or output directory [/api/files/clear]
    answers 200 with the number and the total size of the regular files
    that [readdirSync] listed; afterwards no regular file is left directly
    inside the directory, and every directory of the disk is still
    there. *)
Theorem clearFiles_removes_every_file (fs : gmap string node) (directory : option string) :
  validDirectory directory = true ->
  fs !! dirPathOf dirname directory = Some Dir ->
  exists names fs',
    readdirSync fs (dirPathOf dirname directory) = Some names
    /\ clearFiles dirname readdirSync sizeOf formatFileSize fs directory
       = (mkClearing 200
            (Some (length (filesAmong fs (dirPathOf dirname directory) names)))
            (Some (sizeSum sizeOf (dirPathOf dirname directory)
                     (filesAmong fs (dirPathOf dirname directory) names)))
            (Some (formatFileSize
                     (sizeSum sizeOf (dirPathOf dirname directory)
                        (filesAmong fs (dirPathOf dirname directory) names)))), fs')
    /\ (forall name, plainSeg name = true ->
          fs' !! (dirPathOf dirname directory +:+ "/" +:+ name) <> Some File)
    /\ (forall p, fs !! p = Some Dir -> fs' !! p = Some Dir).
Proof.
  intros Hvalid Hdir.
  destruct (readdir_entries fs directory Hdir) as (names & Hread & _).
  destruct (clearLoop_leaves fs directory names Hread) as (fs' & Hrun & Hgone & Hdirs).
  exists names, fs'. split; [exact Hread|]. split; [|split; assumption].
  unfold clearFiles.
  rewrite Hvalid, (existsSync_dir _ _ Hdir), Hread, Hrun. reflexivity.
Qed.

(** The entry of the listing for a name of the directory. *)
Lemma statAll_entries fs d directory names :
  Forall (fun name => plainSeg name = true
                      /\ is_Some (fs !! (dirPathOf dirname directory +:+ "/" +:+ name))) names ->
  statAll sizeOf mtimeOf formatFileSize fs d (dirPathOf dirname directory) names
  = Some ((fun name =>
             fileInfoOf sizeOf mtimeOf formatFileSize d (dirPathOf dirname directory) name
               (default File (fs !! (dirPathOf dirname directory +:+ "/" +:+ name))))
          <$> names).
Proof.
  induction names as [|name rest IH]; intros Hall; [reflexivity|].
  inversion Hall as [|? ? [Hname [n Hn]] Hrest]; subst.
  cbn [statAll]. unfold statSync.
  rewrite (join_entry directory name Hname), (IH Hrest), fmap_cons. cbv beta.
  rewrite Hn. reflexivity.
Qed.

Lemma fileInfoOf_isDirectory d dir name n :
  negb (fi_isDirectory (fileInfoOf sizeOf mtimeOf formatFileSize d dir name n)) = true
  <-> n = File.
Proof. destruct n; simpl; split; congruence. Qed.

(** What the handler of [/api/files/list] sorts: the entries of the
    regular files among the names [readdirSync] lists. *)
Lemma listFiles_kept fs d names :
  readdirSync fs (dirPathOf dirname (Some d)) = Some names ->
  validDirectory (Some d) = true ->
  fs !! dirPathOf dirname (Some d) = Some Dir ->
  let kept :=
    filter (fun file => negb (fi_isDirectory file))
      ((fun name =>
          fileInfoOf sizeOf mtimeOf formatFileSize d (dirPathOf dirname (Some d)) name
            (default File (fs !! (dirPathOf dirname (Some d) +:+ "/" +:+ name)))) <$> names) in
  listFiles dirname readdirSync sizeOf mtimeOf formatFileSize fs (Some d)
  = mkListing 200 (Some (sortNewestFirst kept)) (Some d)
      (Some (totalSizeOf (sortNewestFirst kept)))
      (Some (formatFileSize (totalSizeOf (sortNewestFirst kept))))
  /\ forall file,
       file ∈ kept
       <-> exists name,
             name ∈ names
             /\ file = fileInfoOf sizeOf mtimeOf formatFileSize d (dirPathOf dirname (Some d))
                         name File
             /\ fs !! (dirPathOf dirname (Some d) +:+ "/" +:+ name) = Some File.
Proof.
  intros Hread Hvalid Hdir kept.
  pose proof (readdir_ok fs (dirPathOf dirname (Some d))) as Hok. rewrite Hread in Hok.
  destruct Hok as [_ Hin].
  split.
  - assert (Hall : Forall (fun name => plainSeg name = true
                     /\ is_Some (fs !! (dirPathOf dirname (Some d) +:+ "/" +:+ name))) names).
    { apply Forall_forall. intros name Hname. apply Hin. exact Hname. }
    unfold listFiles.
    rewrite Hvalid, (existsSync_dir _ _ Hdir), Hread. cbn [negb].
    change (default "" (Some d)) with d.
    rewrite (statAll_entries fs d (Some d) names Hall). reflexivity.
  - intros file. unfold kept. rewrite list_elem_of_filter, list_elem_of_fmap. split.
    + intros [Hfile (name & -> & Hname)]. exists name. split; [exact Hname|].
      apply Is_true_true, fileInfoOf_isDirectory in Hfile.
      apply Hin in Hname as [_ [n Hn]]. rewrite Hn in *. simpl in Hfile. subst n. auto.
    + intros (name & Hname & -> & Hnode). split.
      * apply Is_true_true, fileInfoOf_isDirectory. reflexivity.
      * exists name. split; [rewrite Hnode; reflexivity|exact Hname].
Qed.

(** X13. On an existing uploads or output directory [/api/files/list]
    answers 200 with one entry for every regular file directly inside the
    directory and for nothing else, each name once, the newest first; an
    entry holds the size of the file and the address [/<directory>/<name>]
    under which the server hands it out. *)
Theorem listFiles_lists_files_newest_first
    (fs : gmap string node) (directory : option string) (d : string) :
  directory = Some d ->
  validDirectory directory = true ->
  fs !! dirPathOf dirname directory = Some Dir ->
  exists files,
    listFiles dirname readdirSync sizeOf mtimeOf formatFileSize fs directory
    = mkListing 200 (Some files) (Some d) (Some (totalSizeOf files))
        (Some (formatFileSize (totalSizeOf files)))
    /\ newestFirst files
    /\ NoDup (fi_name <$> files)
    /\ (forall name,
          name ∈ fi_name <$> files
          <-> plainSeg name = true
              /\ fs !! (dirPathOf dirname directory +:+ "/" +:+ name) = Some File)
    /\ (forall file,
          file ∈ files ->
          file = fileInfoOf sizeOf mtimeOf formatFileSize d (dirPathOf dirname directory)
                   (fi_name file) File).
Proof.
  intros -> Hvalid Hdir.
  destruct (readdir_entries fs (Some d) Hdir) as (names & Hread & Hnodup & Hin).
  destruct (listFiles_kept fs d names Hread Hvalid Hdir) as [Hlist Hkept].
  eexists. split; [exact Hlist|].
  split; [apply sortNewestFirst_sorted|].
  split; [|split].
  - rewrite sortNewestFirst_Permutation.
    clear Hkept Hlist Hin Hread. induction Hnodup as [|name rest Hnot Hrest IH]; [constructor|].
    cbn [fmap list_fmap]. rewrite filter_cons.
    destruct (decide _) as [_|_]; [|exact IH].
    cbn [fmap list_fmap]. constructor; [|exact IH].
    intros Hname. apply list_elem_of_fmap in Hname as (file & Hfile & Hmem).
    apply list_elem_of_filter in Hmem as [_ Hmem].
    apply list_elem_of_fmap in Hmem as (name' & -> & Hname').
    simpl in Hfile. subst name'. contradiction.
  - intros name. rewrite sortNewestFirst_Permutation, list_elem_of_fmap. split.
    + intros (file & -> & Hfile). apply Hkept in Hfile as (name & Hname & -> & Hnode).
      split; [apply Hin; exact Hname|exact Hnode].
    + intros [Hplain Hnode]. eexists. split; [|apply Hkept; exists name; split; [|eauto]].
      * reflexivity.
      * apply Hin. split; [exact Hplain|]. rewrite Hnode. eauto.
  - intros file Hfile. rewrite sortNewestFirst_Permutation in Hfile.
    apply Hkept in Hfile as (name & _ & -> & _). reflexivity.
Qed.

(** X14. After [/api/files/clear] has answered for a directory, the
    listing of that directory is empty. *)
Theorem clear_then_list_is_empty
    (fs : gmap string node) (directory : option string) (d : string) :
  directory = Some d ->
  validDirectory directory = true ->
  fs !! dirPathOf dirname directory = Some Dir ->
  cl_status (fst (clearFiles dirname readdirSync sizeOf formatFileSize fs directory)) = 200
  /\ listFiles dirname readdirSync sizeOf mtimeOf formatFileSize
       (snd (clearFiles dirname readdirSync sizeOf formatFileSize fs directory)) directory
     = mkListing 200 (Some []) (Some d) (Some 0%N) (Some (formatFileSize 0%N)).
Proof.
  intros -> Hvalid Hdir.
  destruct (readdir_entries fs (Some d) Hdir) as (names & Hread & _).
  destruct (clearLoop_leaves fs (Some d) names Hread) as (fs' & Hrun & Hgone & Hdirs).
  unfold clearFiles at 1 2.
  rewrite Hvalid, (existsSync_dir _ _ Hdir), Hread, Hrun. cbn [negb fst snd cl_status].
  split; [reflexivity|].
  destruct (readdir_entries fs' (Some d) (Hdirs _ Hdir)) as (names' & Hread' & _).
  destruct (listFiles_kept fs' d names' Hread' Hvalid (Hdirs _ Hdir)) as [Hlist Hkept].
  rewrite Hlist. clear Hlist.
  match goal with
  | |- context [sortNewestFirst ?l] => set (kept := l) in *
  end.
  destruct kept as [|file rest]; [reflexivity|].
  exfalso.
  destruct (proj1 (Hkept file)) as (name & Hname & _ & Hnode); [left|].
  pose proof (readdir_plain _ _ _ Hread') as Hplain.
  exact (Hgone name (proj1 (Forall_forall _ _) Hplain name Hname) Hnode).
Qed.

End FilesFacts.

Lemma clearFiles_confined_witness :
  snd (clearFiles "/app" diskReaddir demoSize demoFormat uploadsDisk (Some "uploads"))
    !! "/app/server.js" = uploadsDisk !! "/app/server.js"
  \/ (uploadsDisk !! "/app/server.js" = Some File
      /\ snd (clearFiles "/app" diskReaddir demoSize demoFormat uploadsDisk (Some "uploads"))
           !! "/app/server.js" = None
      /\ exists name,
           plainSeg name = true
           /\ "/app/server.js" = dirPathOf "/app" (Some "uploads") +:+ "/" +:+ name).
Proof.
  apply (clearFiles_confined "/app" diskReaddir demoSize demoFormat eq_refl
           diskReaddir_contract uploadsDisk (Some "uploads") "/app/server.js").
Defined.

Lemma clearFiles_removes_every_file_witness :
  exists names fs',
    diskReaddir uploadsDisk (dirPathOf "/app" (Some "uploads")) = Some names
    /\ clearFiles "/app" diskReaddir demoSize demoFormat uploadsDisk (Some "uploads")
       = (mkClearing 200
            (Some (length (filesAmong uploadsDisk (dirPathOf "/app" (Some "uploads")) names)))
            (Some (sizeSum demoSize (dirPathOf "/app" (Some "uploads"))
                     (filesAmong uploadsDisk (dirPathOf "/app" (Some "uploads")) names)))
            (Some (demoFormat
                     (sizeSum demoSize (dirPathOf "/app" (Some "uploads"))
                        (filesAmong uploadsDisk (dirPathOf "/app" (Some "uploads")) names)))),
          fs')
    /\ (forall name, plainSeg name = true ->
          fs' !! (dirPathOf "/app" (Some "uploads") +:+ "/" +:+ name) <> Some File)
    /\ (forall p, uploadsDisk !! p = Some Dir -> fs' !! p = Some Dir).
Proof.
  apply (clearFiles_removes_every_file "/app" diskReaddir demoSize demoFormat eq_refl
           diskReaddir_contract uploadsDisk (Some "uploads")); reflexivity.
Defined.

(** The three uploads are counted, the directory among them is kept. *)
Lemma clearFiles_example :
  fst (clearFiles "/app" diskReaddir demoSize demoFormat uploadsDisk (Some "uploads"))
  = mkClearing 200 (Some 3) (Some 3000%N) (Some "3000 B")
  /\ snd (clearFiles "/app" diskReaddir demoSize demoFormat uploadsDisk (Some "uploads"))
     = <["/app/uploads/keep" := Dir]> (<["/app/server.js" := File]> freshDisk).
Proof. split; vm_compute; reflexivity. Qed.

Lemma listFiles_lists_files_newest_first_witness :
  exists files,
    listFiles "/app" diskReaddir demoSize demoTime demoFormat uploadsDisk (Some "uploads")
    = mkListing 200 (Some files) (Some "uploads") (Some (totalSizeOf files))
        (Some (demoFormat (totalSizeOf files)))
    /\ newestFirst files
    /\ NoDup (fi_name <$> files)
    /\ (forall name,
          name ∈ fi_name <$> files
          <-> plainSeg name = true
              /\ uploadsDisk !! (dirPathOf "/app" (Some "uploads") +:+ "/" +:+ name)
                 = Some File)
    /\ (forall file,
          file ∈ files ->
          file = fileInfoOf demoSize demoTime demoFormat "uploads"
                   (dirPathOf "/app" (Some "uploads")) (fi_name file) File).
Proof.
  apply (listFiles_lists_files_newest_first "/app" diskReaddir demoSize demoTime demoFormat
           eq_refl diskReaddir_contract uploadsDisk (Some "uploads") "uploads"); reflexivity.
Defined.

(** The clip, whose path is the longest, is dated last and listed first. *)
Lemma listFiles_example :
  option_map (map fi_name)
    (ls_files (listFiles "/app" diskReaddir demoSize demoTime demoFormat uploadsDisk
                 (Some "uploads")))
  = Some ["clip.mp4"; "b.jpeg"; "a.mp4"].
Proof. vm_compute. reflexivity. Qed.

Lemma clear_then_list_is_empty_witness :
  cl_status (fst (clearFiles "/app" diskReaddir demoSize demoFormat uploadsDisk
                    (Some "uploads"))) = 200
  /\ listFiles "/app" diskReaddir demoSize demoTime demoFormat
       (snd (clearFiles "/app" diskReaddir demoSize demoFormat uploadsDisk (Some "uploads")))
       (Some "uploads")
     = mkListing 200 (Some []) (Some "uploads") (Some 0%N) (Some (demoFormat 0%N)).
Proof.
  apply (clear_then_list_is_empty "/app" diskReaddir demoSize demoTime demoFormat eq_refl
           diskReaddir_contract uploadsDisk (Some "uploads") "uploads"); reflexivity.
Defined.

(** ** The path of the encoder *)

Lemma find_app {A : Type} (f : A -> bool) (l1 l2 : list A) :
  List.find f (l1 ++ l2)
  = match List.find f l1 with Some x => Some x | None => List.find f l2 end.
Proof.
  induction l1 as [|x l IH]; [reflexivity|]. simpl. destruct (f x); [reflexivity|exact IH].
Qed.

Lemma find_first {A : Type} (f : A -> bool) (before : list A) (p : A) (rest : list A) :
  Forall (fun q => f q = false) before -> f p = true ->
  List.find f (before ++ p :: rest) = Some p.
Proof.
  induction 1 as [|x l Hx _ IH]; intros Hp; simpl; [rewrite Hp|rewrite Hx; apply IH, Hp];
    reflexivity.
Qed.

Lemma find_none {A : Type} (f : A -> bool) (l : list A) :
  Forall (fun q => f q = false) l -> List.find f l = None.
Proof. induction 1 as [|x l Hx _ IH]; simpl; [|rewrite Hx]; auto. Qed.

(** Without [FFMPEG_PATH] the result is the first of the candidates that
    exists, or [ffmpeg]. *)
Lemma getFFmpegPath_find (envFFmpegPath envPath : option string) (existsSync : string -> bool) :
  Str.truthy (str_or envFFmpegPath "") = false ->
  getFFmpegPath envFFmpegPath envPath existsSync
  = default "ffmpeg" (List.find existsSync (ffmpegCandidates envPath)).
Proof.
  intros Henv. unfold getFFmpegPath, ffmpegCandidates. rewrite Henv, find_app.
  destruct (List.find existsSync commonPaths); [reflexivity|].
  destruct (List.find existsSync (map _ _)); reflexivity.
Qed.

(** X15. The order in which [getFFmpegPath] decides.  A non-empty
    [FFMPEG_PATH] is the result as it is, without a look at the disk.
    Without one, the result is the first path that exists among the
    candidates, the five Windows paths followed by [ffmpeg.exe] in the
    directories of [PATH] in their order; when none exists it is the bare
    command [ffmpeg]. *)
Theorem getFFmpegPath_priority
    (envFFmpegPath envPath : option string) (existsSync : string -> bool) :
  (forall p, envFFmpegPath = Some p -> p <> "" ->
     getFFmpegPath envFFmpegPath envPath existsSync = p)
  /\ (envFFmpegPath = None \/ envFFmpegPath = Some "" ->
      (forall before p rest,
         ffmpegCandidates envPath = before ++ p :: rest ->
         Forall (fun q => existsSync q = false) before -> existsSync p = true ->
         getFFmpegPath envFFmpegPath envPath existsSync = p)
      /\ (Forall (fun q => existsSync q = false) (ffmpegCandidates envPath) ->
          getFFmpegPath envFFmpegPath envPath existsSync = "ffmpeg")).
Proof.
  split.
  - intros p -> Hp. unfold getFFmpegPath. simpl.
    destruct p; [contradiction|reflexivity].
  - intros Henv.
    assert (Hnone : Str.truthy (str_or envFFmpegPath "") = false)
      by (destruct Henv as [-> | ->]; reflexivity).
    split.
    + intros before p rest Hsplit Hbefore Hp.
      rewrite (getFFmpegPath_find _ _ _ Hnone), Hsplit, (find_first _ _ _ _ Hbefore Hp).
      reflexivity.
    + intros Hall. rewrite (getFFmpegPath_find _ _ _ Hnone), (find_none _ _ Hall). reflexivity.
Qed.

(** With [ffmpeg.exe] in the second directory of [PATH] and in the third,
    the one of the second is taken; a set [FFMPEG_PATH] is taken whatever
    the disk holds. *)
Lemma getFFmpegPath_priority_witness :
  getFFmpegPath (Some "/opt/ffmpeg/ffmpeg") (Some "/usr/bin") (fun _ => true)
  = "/opt/ffmpeg/ffmpeg"
  /\ getFFmpegPath None (Some "/usr/bin:/srv/tools:/opt/bin")
       (fun p => String.eqb p "/srv/tools/ffmpeg.exe" || String.eqb p "/opt/bin/ffmpeg.exe")
     = "/srv/tools/ffmpeg.exe"
  /\ getFFmpegPath (Some "") (Some "/usr/local/bin:/usr/bin:/bin") (fun _ => false) = "ffmpeg".
Proof.
  split; [|split].
  - apply (getFFmpegPath_priority (Some "/opt/ffmpeg/ffmpeg") (Some "/usr/bin") (fun _ => true));
      [reflexivity|discriminate].
  - apply (getFFmpegPath_priority None (Some "/usr/bin:/srv/tools:/opt/bin")
             (fun p => String.eqb p "/srv/tools/ffmpeg.exe" || String.eqb p "/opt/bin/ffmpeg.exe"))
      with (before := commonPaths ++ ["/usr/bin/ffmpeg.exe"]) (rest := ["/opt/bin/ffmpeg.exe"]);
      [left; reflexivity|reflexivity|repeat constructor|reflexivity].
  - apply (getFFmpegPath_priority (Some "") (Some "/usr/local/bin:/usr/bin:/bin")
             (fun _ => false)); [right; reflexivity|].
    apply Forall_forall. reflexivity.
Defined.

(** ** The extension of a download *)

Module ExtFacts.

Import StrFacts EditFacts NumFacts.

Lemma trimEnd_spaces ws : Str.all Str.is_space ws = true -> Str.trimEnd ws = "".
Proof.
  induction ws as [|c ws IH]; [reflexivity|]. simpl. intros H.
  apply andb_true_iff in H as [Hc Hws]. rewrite (IH Hws), Hc. reflexivity.
Qed.

Lemma trimEnd_trailing k ws :
  Str.all (fun c => negb (Str.is_space c)) k = true -> k <> "" ->
  Str.all Str.is_space ws = true -> Str.trimEnd (k +:+ ws) = k.
Proof.
  intros Hk Hne Hws. induction k as [|c k IH]; [contradiction|].
  simpl in Hk. apply andb_true_iff in Hk as [Hc Hk]. apply negb_true_iff in Hc.
  rewrite app_cons. cbn [Str.trimEnd].
  destruct k as [|c' k'].
  - rewrite app_nil_l, (trimEnd_spaces ws Hws), Hc. reflexivity.
  - rewrite (IH Hk) by discriminate. reflexivity.
Qed.

Lemma trim_trailing k ws :
  Str.all (fun c => negb (Str.is_space c)) k = true -> k <> "" ->
  Str.all Str.is_space ws = true -> Str.trim (k +:+ ws) = k.
Proof.
  intros Hk Hne Hws. unfold Str.trim.
  destruct k as [|c k]; [contradiction|].
  assert (Hstart : Str.trimStart (String c k +:+ ws) = String c k +:+ ws).
  { rewrite app_cons. simpl in *. apply andb_true_iff in Hk as [Hc _].
    apply negb_true_iff in Hc. rewrite Hc. reflexivity. }
  rewrite Hstart. apply trimEnd_trailing; assumption.
Qed.

Lemma space_not_semicolon c : Str.is_space c = true -> notChar ";" c = true.
Proof. destruct c as [[] [] [] [] [] [] [] []]; (discriminate || reflexivity). Qed.

(** The text before the first semicolon. *)
Lemma split_head a b :
  Str.all (notChar ";") a = true -> hd "" (Str.split ";" (a +:+ String ";" b)) = a.
Proof. intros Ha. rewrite split_app_sep, (split_free ";" a Ha). reflexivity. Qed.

Lemma base_of k ws params :
  Str.all (notChar ";") k = true ->
  Str.all (fun c => negb (Str.is_space c)) k = true -> k <> "" ->
  Str.all Str.is_space ws = true ->
  Str.trim (hd "" (Str.split ";" (k +:+ ws +:+ ";" +:+ params))) = k.
Proof.
  intros Hfree Hk Hne Hws.
  change (";" +:+ params) with (String ";" params).
  rewrite <- StrFacts.app_assoc, split_head.
  - apply trim_trailing; assumption.
  - rewrite all_app, Hfree. apply (all_mono Str.is_space); [exact space_not_semicolon|exact Hws].
Qed.

Lemma truthy_app k rest : k <> "" -> Str.truthy (k +:+ rest) = true.
Proof. destruct k; [contradiction|reflexivity]. Qed.

(** [ext] when the path of the URL has no extension and the header is a
    non-empty text. *)
Lemma chooseExt_typed ct :
  Str.truthy ct = true ->
  chooseExt "" (Some ct)
  = match mimeLookup (Str.trim (hd "" (Str.split ";" ct))) with
    | Some v => v
    | None => match mimeLookup ct with Some v => v | None => ExtText ".jpg" end
    end.
Proof.
  intros Hct. unfold chooseExt. cbn [Str.split hd Str.truthy str_or]. rewrite !Hct.
  reflexivity.
Qed.

End ExtFacts.



(** ** The page *)

(** X17. [removeResource] keeps the resource being edited: removing
    another resource leaves [editingResourceIndex] on the same resource,
    removing the edited one closes the editor, and in both cases the list
    loses exactly the resource at [index]; without a resource at [index]
    the call throws. *)
Theorem removeResource_keeps_edited {A : Type} (st : pageState A) (index : nat) :
  (ps_resources st !! index = None -> removeResource st index = Throw "TypeError")
  /\ (forall removed, ps_resources st !! index = Some removed ->
        exists st',
          removeResource st index = OK st'
          /\ ps_resources st' = delete index (ps_resources st)
          /\ S (length (ps_resources st')) = length (ps_resources st)
          /\ (ps_editing st = None -> ps_editing st' = None)
          /\ (ps_editing st = Some index -> ps_editing st' = None)
          /\ (forall e x,
                ps_editing st = Some e -> e <> index -> ps_resources st !! e = Some x ->
                exists e', ps_editing st' = Some e' /\ ps_resources st' !! e' = Some x)).
Proof.
  split.
  - intros Hnone. unfold removeResource. rewrite Hnone. reflexivity.
  - intros removed Hsome. unfold removeResource. rewrite Hsome.
    eexists. split; [reflexivity|]. cbn [ps_resources ps_editing].
    split; [reflexivity|].
    pose proof (lookup_lt_Some _ _ _ Hsome) as Hlt.
    split; [rewrite length_delete by eauto; lia|].
    split; [intros ->; reflexivity|].
    split; [intros ->; rewrite Nat.eqb_refl; reflexivity|].
    intros e x -> Hne Hx.
    destruct (Nat.eqb_spec e index) as [|_]; [contradiction|].
    destruct (Nat.ltb_spec index e) as [Hlower|Hupper].
    + exists (e - 1). split; [reflexivity|].
      rewrite list_lookup_delete_ge by lia.
      replace (S (e - 1)) with e by lia. exact Hx.
    + exists e. split; [reflexivity|].
      rewrite list_lookup_delete_lt by lia. exact Hx.
Qed.

Lemma removeResource_keeps_edited_witness :
  exists st',
    removeResource (mkPageState ["a.png"; "b.mp4"; "c.mp3"] (Some 2)) 0 = OK st'
    /\ ps_resources st' = ["b.mp4"; "c.mp3"]
    /\ exists e', ps_editing st' = Some e' /\ ps_resources st' !! e' = Some "c.mp3".
Proof.
  destruct (removeResource_keeps_edited (mkPageState ["a.png"; "b.mp4"; "c.mp3"] (Some 2)) 0)
    as [_ Hsome].
  destruct (Hsome "a.png" eq_refl) as (st' & Hrun & Hlist & _ & _ & _ & Hkeep).
  exists st'. split; [exact Hrun|]. split; [exact Hlist|].
  apply (Hkeep 2 "c.mp3"); [reflexivity|discriminate|reflexivity].
Defined.

Module CaseFacts.

Import StrFacts.

Lemma lowerChar_twice c : lowerChar (lowerChar c) = lowerChar c.
Proof. destruct c as [[] [] [] [] [] [] [] []]; reflexivity. Qed.

Lemma lowerChar_dot c : Ascii.eqb (lowerChar c) "." = Ascii.eqb c ".".
Proof. destruct c as [[] [] [] [] [] [] [] []]; reflexivity. Qed.

Lemma toLowerCase_twice s : toLowerCase (toLowerCase s) = toLowerCase s.
Proof. induction s as [|c s IH]; [reflexivity|]. simpl. rewrite lowerChar_twice, IH. reflexivity. Qed.

Lemma toLowerCase_app a b : toLowerCase (a +:+ b) = toLowerCase a +:+ toLowerCase b.
Proof.
  induction a as [|c a IH]; [rewrite !app_nil_l; reflexivity|].
  rewrite app_cons. simpl. rewrite IH, app_cons. reflexivity.
Qed.

Lemma toLowerCase_no_dot s :
  Str.all (notChar ".") s = true -> Str.all (notChar ".") (toLowerCase s) = true.
Proof.
  induction s as [|c s IH]; [reflexivity|]. simpl. intros H.
  apply andb_true_iff in H as [Hc Hs]. rewrite (IH Hs), andb_true_r.
  unfold notChar in *. rewrite lowerChar_dot. exact Hc.
Qed.

Lemma last_snoc_text (l : list string) x : last (l ++ [x]) = Some x.
Proof. apply last_snoc. Qed.

Lemma extensionOf_last base ext :
  Str.all (notChar ".") ext = true ->
  extensionOf (base +:+ "." +:+ ext) = toLowerCase ext.
Proof.
  intros Hext. unfold extensionOf.
  rewrite !toLowerCase_app. change (toLowerCase ".") with ".".
  change ("." +:+ toLowerCase ext) with (String "." (toLowerCase ext)).
  rewrite split_app_sep, (split_free "." _ (toLowerCase_no_dot ext Hext)), last_snoc_text.
  reflexivity.
Qed.

Lemma extensionOf_plain ext :
  Str.all (notChar ".") ext = true -> extensionOf ext = toLowerCase ext.
Proof.
  intros Hext. unfold extensionOf.
  rewrite (split_free "." _ (toLowerCase_no_dot ext Hext)). reflexivity.
Qed.

End CaseFacts.

(** X18. [detectResourceType] judges a name by the text after its last
    dot, whatever comes before, and by the whole name when it has no dot;
    upper and lower case letters count the same. *)
Theorem detectResourceType_by_extension :
  (forall base ext,
     Str.all (notChar ".") ext = true ->
     detectResourceType (base +:+ "." +:+ ext) = detectResourceType ext)
  /\ (forall filename, detectResourceType (toLowerCase filename) = detectResourceType filename).
Proof.
  split.
  - intros base ext Hext. unfold detectResourceType.
    rewrite (CaseFacts.extensionOf_last base ext Hext), (CaseFacts.extensionOf_plain ext Hext).
    reflexivity.
  - intros filename. unfold detectResourceType, extensionOf.
    rewrite CaseFacts.toLowerCase_twice. reflexivity.
Qed.

Lemma detectResourceType_by_extension_witness :
  detectResourceType "/media/holiday.2024/Clip.MP4" = detectResourceType "MP4"
  /\ detectResourceType "MP4" = "video"
  /\ detectResourceType "/media/photo.png/" = "unknown".
Proof.
  destruct detectResourceType_by_extension as [Hlast _].
  split; [|split; reflexivity].
  apply (Hlast "/media/holiday.2024/Clip" "MP4"). reflexivity.
Defined.

(** ** The argument list without audio resources *)

(** X19. The argument list of a request without an audio resource.
    With images only, the inputs and the graph are followed by the video
    options, [-map [outv]] and the output path, and by nothing else: no
    audio option and no second [-map].  With a video, the audio track of
    the first video, if it has one, is mapped besides: the input named in
    [-map <n>:a?] is the one after the [n] images, and the audio options
    follow. *)
Theorem unmixed_audio_comes_from_first_video
    (to_radians : dec -> dec) (o : options) (h : Host) (fs fs' : FS h)
    (rs : list resource) (out : string) (b : build) :
  composeVideo to_radians o h fs (Some rs) out = OK (fs', b) ->
  audiosOf rs = [] ->
  match videosOf rs with
  | [] =>
      args b = ["-y"] ++ concat (map (imageArgs h) (imagesOf rs))
                 ++ ["-filter_complex"; filterGraphText b]
                 ++ videoCodecArgs o ++ ["-map"; "[outv]"; path_resolve h out]
  | v :: vs =>
      args b = ["-y"] ++ concat (map (imageArgs h) (imagesOf rs))
                 ++ (seekArgs v ++ ["-i"; path_resolve h (path v)])
                 ++ concat (map (seekedArgs h) vs)
                 ++ ["-filter_complex"; filterGraphText b]
                 ++ videoCodecArgs o
                 ++ ["-map"; "[outv]"; "-map"; pretty (length (imagesOf rs)) +:+ ":a?"]
                 ++ audioCodecArgs o ++ [path_resolve h out]
  end.
Proof.
  intros Hrun Hsilent.
  apply composeVideo_OK in Hrun as (rs' & [= <-] & _ & Hvis & ->).
  pose proof (graph_nonempty to_radians o _ _ (audiosOf rs) Hvis) as Hgraph.
  unfold plan, outputArgs, inputArgs, filterGraphText. cbn [args filterComplex].
  rewrite Hsilent in *.
  destruct (graph to_radians o (imagesOf rs) (videosOf rs) []) as [|c cs] eqn:Hg;
    [contradiction|].
  unfold mapArgs, visualInputs. cbn [audioInputsOf].
  destruct (videosOf rs) as [|v vs] eqn:Hvideos.
  - destruct Hvis as [Himages|]; [|contradiction].
    destruct (imagesOf rs) as [|img imgs]; [contradiction|].
    cbn [imageInputs videoInputsOf app concat map]. rewrite <- !app_assoc. reflexivity.
  - destruct (imageInputs 0 (imagesOf rs) ++ videoInputsOf (length (imagesOf rs)) (v :: vs))
      as [|x xs] eqn:Hinputs.
    { apply app_eq_nil in Hinputs as [_ Hnil]. discriminate. }
    cbn [concat map app]. unfold seekedArgs at 1. rewrite <- !app_assoc. reflexivity.
Qed.

Lemma unmixed_audio_comes_from_first_video_witness :
  exists b,
    composeVideo (fun d => d) noOptions plainHost tt (Some (rev videoThenImage))
      "/app/output/o.mp4" = OK (tt, b)
    /\ args b = ["-y"; "-i"; "/app/uploads/photo.png"; "-i"; "/app/uploads/clip.mp4";
                 "-filter_complex"; filterGraphText b;
                 "-vcodec"; "libx264"; "-preset"; "medium"; "-crf"; "23";
                 "-pix_fmt"; "yuv420p"; "-shortest";
                 "-map"; "[outv]"; "-map"; "1:a?";
                 "-acodec"; "aac"; "-b:a"; "192k"; "-ar"; "44100"; "-ac"; "2";
                 "/app/output/o.mp4"].
Proof.
  eexists. split; [vm_compute; reflexivity|].
  match goal with
  | |- args ?b = _ =>
      exact (unmixed_audio_comes_from_first_video (fun d => d) noOptions plainHost tt tt
               (rev videoThenImage) "/app/output/o.mp4" b eq_refl eq_refl)
  end.
Defined.

(** ** The names of the transitions *)

(** X20. [buildTransitionFilter] knows nine transitions besides [none]:
    for each of them it returns filters, to be appended after a comma;
    for any other name, a misspelt one included, it returns the empty
    text without an error, as it does for [none]. *)
Theorem transition_names (o : options) (t : string) (td total w h : dec) :
  (In t transitionNames -> Str.startsWith (buildTransitionFilter o t td total w h) "," = true)
  /\ (~ In t transitionNames -> buildTransitionFilter o t td total w h = "").
Proof.
  split.
  - intros Hin. simpl in Hin.
    repeat (destruct Hin as [<-|Hin]; [reflexivity|]). destruct Hin.
  - intros Hnot. unfold buildTransitionFilter.
    destruct (String.eqb t "none"); [reflexivity|].
    assert (Hno : forall name, In name transitionNames -> String.eqb t name = false).
    { intros name Hname. apply String.eqb_neq. intros ->. contradiction. }
    rewrite !Hno by (simpl; tauto). reflexivity.
Qed.

Lemma transition_names_witness :
  Str.startsWith
    (buildTransitionFilter noOptions "slideLeft" d0_5 (Dec.of_Z 3) (pixels 1280) (pixels 720))
    "," = true
  /\ buildTransitionFilter noOptions "slideleft" d0_5 (Dec.of_Z 3) (pixels 1280) (pixels 720)
     = "".
Proof.
  split.
  - apply (transition_names noOptions "slideLeft" d0_5 (Dec.of_Z 3) (pixels 1280) (pixels 720)).
    simpl. tauto.
  - apply (transition_names noOptions "slideleft" d0_5 (Dec.of_Z 3) (pixels 1280) (pixels 720)).
    simpl. intros H. repeat (destruct H as [H|H]; [discriminate H|]). exact H.
Defined.
